(** * AltDbMigration: the schema engine

    A shallow embedding of the Go packages [internal/schema],
    [internal/config] and [internal/api] (identifier and type validation,
    DDL synthesis, pool swap, timeout derivation, database switch), and
    the properties of the design document proved over it.

    Go strings are byte sequences: they are Rocq [string]s, whose
    characters are the 8-bit [ascii].  Runes, durations and instants are
    [Z]; 64-bit arithmetic has its wrap-around written out. *)

From Stdlib Require Import ZArith Zbitwise Lia Bool Ascii String List.
From stdpp Require Import gmap strings list sorting.

Local Open Scope Z_scope.

(** ** The Go language and standard library, as far as the engine uses them *)

Module Go.

(** [s[i]] as a number. *)
Definition byte (c : ascii) : Z := Z.of_N (N_of_ascii c).

(** A rune literal such as ['a']. *)
Definition rune (c : ascii) : Z := byte c.

(** *** unicode/utf8 *)

Definition RuneError : Z := 0xFFFD.

Definition maskx : Z := 0x3F.
Definition mask2 : Z := 0x1F.
Definition mask3 : Z := 0x0F.
Definition mask4 : Z := 0x07.
Definition locb : Z := 0x80.
Definition hicb : Z := 0xBF.

(** Entries of the [first] table. *)
Definition xx : Z := 0xF1.
Definition as_ : Z := 0xF0.
Definition s1 : Z := 0x02.
Definition s2 : Z := 0x13.
Definition s3 : Z := 0x03.
Definition s4 : Z := 0x23.
Definition s5 : Z := 0x34.
Definition s6 : Z := 0x04.
Definition s7 : Z := 0x44.

(** The 256-entry table [first], by the ranges of its rows. *)
Definition first (b : Z) : Z :=
  if b <? 0x80 then as_
  else if b <? 0xC2 then xx
  else if b <? 0xE0 then s1
  else if b =? 0xE0 then s2
  else if b <? 0xED then s3
  else if b =? 0xED then s4
  else if b <? 0xF0 then s3
  else if b =? 0xF0 then s5
  else if b <? 0xF4 then s6
  else if b =? 0xF4 then s7
  else xx.

(** [acceptRanges]: sixteen entries, the first five set, the rest zero. *)
Definition acceptRanges (i : Z) : Z * Z :=
  match i with
  | 0 => (locb, hicb)
  | 1 => (0xA0, hicb)
  | 2 => (locb, 0x9F)
  | 3 => (0x90, hicb)
  | 4 => (locb, 0x8F)
  | _ => (0, 0)
  end.

(** [utf8.DecodeRuneInString]: the first rune of [s] and its width in
    bytes. *)
Definition DecodeRuneInString (s : string) : Z * nat :=
  match s with
  | EmptyString => (RuneError, 0%nat)
  | String c0 t0 =>
    let b0 := byte c0 in
    let x := first b0 in
    if as_ <=? x then
      (* mask := rune(x) << 31 >> 31 is all ones when x is odd *)
      let mask := if Z.testbit x 0 then -1 else 0 in
      (Z.lor (Z.land b0 (Z.lnot mask)) (Z.land RuneError mask), 1%nat)
    else
      let sz := Z.to_nat (Z.land x 7) in
      let '(lo, hi) := acceptRanges (Z.shiftr x 4) in
      if Nat.ltb (String.length s) sz then (RuneError, 1%nat)
      else
        match t0 with
        | EmptyString => (RuneError, 1%nat)
        | String c1 t1 =>
          let b1 := byte c1 in
          if (b1 <? lo) || (hi <? b1) then (RuneError, 1%nat)
          else if Nat.leb sz 2 then
            (Z.lor (Z.shiftl (Z.land b0 mask2) 6) (Z.land b1 maskx), 2%nat)
          else
            match t1 with
            | EmptyString => (RuneError, 1%nat)
            | String c2 t2 =>
              let b2 := byte c2 in
              if (b2 <? locb) || (hicb <? b2) then (RuneError, 1%nat)
              else if Nat.leb sz 3 then
                (Z.lor (Z.lor (Z.shiftl (Z.land b0 mask3) 12)
                              (Z.shiftl (Z.land b1 maskx) 6))
                       (Z.land b2 maskx), 3%nat)
              else
                match t2 with
                | EmptyString => (RuneError, 1%nat)
                | String c3 _ =>
                  let b3 := byte c3 in
                  if (b3 <? locb) || (hicb <? b3) then (RuneError, 1%nat)
                  else
                    (Z.lor (Z.lor (Z.lor (Z.shiftl (Z.land b0 mask4) 18)
                                         (Z.shiftl (Z.land b1 maskx) 12))
                                  (Z.shiftl (Z.land b2 maskx) 6))
                           (Z.land b3 maskx), 4%nat)
                end
            end
        end
  end.

(** *** [for i, r := range s]

    The iterations of a range clause over a string: the byte index of
    each rune and the rune.  [i] is the index of the head of [s];
    [skip] counts the continuation bytes of the rune decoded last that
    are still to be passed over. *)
Fixpoint rangeFrom (s : string) (i skip : nat) : list (nat * Z) :=
  match s with
  | EmptyString => []
  | String _ t =>
    match skip with
    | S k => rangeFrom t (S i) k
    | O =>
      let '(r, size) := DecodeRuneInString s in
      (i, r) :: rangeFrom t (S i) (Nat.pred size)
    end
  end.

Definition rangeString (s : string) : list (nat * Z) := rangeFrom s 0 0.

(** *** strings *)

(** [strings.ReplaceAll(s, old, new)] for a non-empty [old]: the
    non-overlapping occurrences of [old], left to right.  [skip]
    counts the bytes of a matched occurrence still to be dropped. *)
Fixpoint replaceFrom (s old new : string) (skip : nat) : string :=
  match s with
  | EmptyString => EmptyString
  | String c t =>
    match skip with
    | S k => replaceFrom t old new k
    | O =>
      if String.prefix old s
      then new +:+ replaceFrom t old new (Nat.pred (String.length old))
      else String c (replaceFrom t old new 0)
    end
  end.

Definition ReplaceAll (s old new : string) : string := replaceFrom s old new 0.

(** [strings.Join(elems, sep)]. *)
Definition Join (elems : list string) (sep : string) : string :=
  String.concat sep elems.

(** *** strconv *)

Definition minInt64 : Z := - 2 ^ 63.
Definition maxInt64 : Z := 2 ^ 63 - 1.

(** Arithmetic on [int64] wraps around. *)
Definition wrap64 (z : Z) : Z := (z + 2 ^ 63) mod 2 ^ 64 - 2 ^ 63.

Definition isDigit (c : ascii) : bool := (rune "0" <=? byte c) && (byte c <=? rune "9").

Fixpoint digitsValue (s : string) (acc : Z) : option Z :=
  match s with
  | EmptyString => Some acc
  | String c t =>
    if isDigit c then digitsValue t (acc * 10 + (byte c - rune "0")) else None
  end.

(** [strconv.Atoi] where [int] has 64 bits: an optional sign, then
    decimal digits; [None] is a syntax or range error. *)
Definition Atoi (s : string) : option Z :=
  match s with
  | EmptyString => None
  | String c t =>
    let '(neg, body) :=
      if Ascii.eqb c "-" then (true, t)
      else if Ascii.eqb c "+" then (false, t)
      else (false, s) in
    match body with
    | EmptyString => None
    | _ =>
      match digitsValue body 0 with
      | None => None
      | Some n =>
        let v := if neg : bool then - n else n in
        if (minInt64 <=? v) && (v <=? maxInt64) then Some v else None
      end
    end
  end.

(** *** time

    A [time.Duration] is an [int64] count of nanoseconds; an instant is
    a count of nanoseconds since a fixed epoch. *)
Definition minDuration : Z := minInt64.
Definition maxDuration : Z := maxInt64.
Definition Second : Z := 1000000000.

(** [a * b] on durations. *)
Definition mulDuration (a b : Z) : Z := wrap64 (a * b).

(** [t.Sub(u)]: the difference, or the nearest duration when it does
    not fit. *)
Definition Sub (t u : Z) : Z :=
  if t - u <? minDuration then minDuration
  else if maxDuration <? t - u then maxDuration
  else t - u.

(** [time.Until(t)], the clock reading [now]. *)
Definition Until (now t : Z) : Z := Sub t now.

(** *** context

    What the engine observes of a [context.Context]: its deadline. *)
Record Context : Type := mkContext { Deadline : option Z }.

Definition Background : Context := mkContext None.

(** [context.WithCancel(parent)] inherits the deadline. *)
Definition WithCancel (parent : Context) : Context := parent.

(** [context.WithDeadline(parent, d)]: a parent deadline earlier than
    [d] is kept. *)
Definition WithDeadline (parent : Context) (d : Z) : Context :=
  match Deadline parent with
  | Some cur => if cur <? d then WithCancel parent else mkContext (Some d)
  | None => mkContext (Some d)
  end.

(** [context.WithTimeout(parent, timeout)], the clock reading [now]. *)
Definition WithTimeout (now : Z) (parent : Context) (timeout : Z) : Context :=
  WithDeadline parent (now + timeout).

End Go.

(** ** internal/config *)

Module config.

Import Go.

(** [getDurationEnv] reads a duration in seconds from the environment
    variable whose value is [val]; the default if it is not set or is
    not an integer. *)
Definition getDurationEnv (val : string) (defaultVal : Z) : Z :=
  if String.eqb val EmptyString then defaultVal
  else
    match Atoi val with
    | None => defaultVal
    | Some seconds => mulDuration seconds Second
    end.

(** The timeouts of [Config]. *)
Record Config : Type := mkConfig {
  ReadTimeout : Z;
  WriteTimeout : Z;
  ShutdownTimeout : Z;
  QueryTimeout : Z
}.

(** The timeouts set by [Load]; [getenv] is [os.Getenv]. *)
Definition Load (getenv : string → string) : Config :=
  mkConfig
    (getDurationEnv (getenv "READ_TIMEOUT") (mulDuration 10 Second))
    (getDurationEnv (getenv "WRITE_TIMEOUT") (mulDuration 10 Second))
    (getDurationEnv (getenv "SHUTDOWN_TIMEOUT") (mulDuration 5 Second))
    (getDurationEnv (getenv "QUERY_TIMEOUT") (mulDuration 30 Second)).

End config.

(** ** internal/schema: validation and DDL synthesis *)

Module schema.

Import Go.

(** [ValidIdentifier] checks if a name is a valid SQL identifier. *)
Definition ValidIdentifier (name : string) : bool :=
  if String.eqb name EmptyString || Nat.ltb 63 (String.length name) then false
  else
    forallb (fun '(i, r) =>
      if Nat.eqb i 0 then
        if negb (((rune "a" <=? r) && (r <=? rune "z")) || (r =? rune "_"))
        then false else true
      else
        if negb (((rune "a" <=? r) && (r <=? rune "z"))
                 || ((rune "0" <=? r) && (r <=? rune "9"))
                 || (r =? rune "_"))
        then false else true)
      (rangeString name).

(** Go's [error] values: built by [fmt.Errorf] from a fixed message,
    from a message ending in a [%q] verb with its argument, or from a
    message followed by [: %w] with the error it wraps; or returned by
    a library outside the program (the driver, the JSON decoder), with
    its text. *)
Inductive error : Type :=
| Errorf (msg : string)
| Errorf_q (msg : string) (arg : string)
| Errorf_w (msg : string) (cause : error)
| External (text : string).

Inductive result (A : Type) : Type :=
| Ok (a : A)
| Err (e : error).
Arguments Ok {A} a.
Arguments Err {A} e.

Definition bind {A B : Type} (k : A → result B) (r : result A) : result B :=
  match r with
  | Ok a => k a
  | Err e => Err e
  end.

#[global] Instance result_bind : MBind result := @bind.

(** The double-quote character, and the two literals of
    [sanitizeIdentifier]. *)
Definition quote : string := String "034"%char EmptyString.
Definition quotequote : string := quote +:+ quote.

(** [TypeInfo] represents a PostgreSQL data type with metadata. *)
Record TypeInfo : Type := mkTypeInfo {
  Name : string;
  Description : string;
  Category : string
}.

(** [AllowedTypes] is the canonical list of supported PostgreSQL types. *)
Definition AllowedTypes : list TypeInfo := [
  mkTypeInfo "text" "Variable length string" "String";
  mkTypeInfo "varchar" "Variable length (limited)" "String";
  mkTypeInfo "char" "Fixed length" "String";
  mkTypeInfo "smallint" "16-bit integer" "Numeric";
  mkTypeInfo "integer" "32-bit integer" "Numeric";
  mkTypeInfo "bigint" "64-bit integer" "Numeric";
  mkTypeInfo "numeric" "Decimal number" "Numeric";
  mkTypeInfo "real" "32-bit floating point" "Numeric";
  mkTypeInfo "double precision" "64-bit floating point" "Numeric";
  mkTypeInfo "serial" "Auto-increment 32-bit" "Serial";
  mkTypeInfo "bigserial" "Auto-increment 64-bit" "Serial";
  mkTypeInfo "boolean" "true/false" "Boolean";
  mkTypeInfo "date" "Date only" "Date/Time";
  mkTypeInfo "time" "Time only" "Date/Time";
  mkTypeInfo "timestamp" "Date and time" "Date/Time";
  mkTypeInfo "timestamptz" "Timestamp with timezone" "Date/Time";
  mkTypeInfo "uuid" "UUID" "UUID";
  mkTypeInfo "json" "JSON data" "JSON";
  mkTypeInfo "jsonb" "Binary JSON data" "JSON";
  mkTypeInfo "bytea" "Binary data" "Binary"
].

(** [buildAllowedTypesMap]: [m[t.Name] = true] for each entry in turn. *)
Definition buildAllowedTypesMapFrom (types : list TypeInfo) : gmap string bool :=
  foldl (fun m t => <[Name t := true]> m) ∅ types.

Definition buildAllowedTypesMap : gmap string bool :=
  buildAllowedTypesMapFrom AllowedTypes.

Definition allowedTypesMap : gmap string bool := buildAllowedTypesMap.

(** Indexing a [map[string]bool]: the zero value for a missing key. *)
Definition index (m : gmap string bool) (k : string) : bool :=
  default false (m !! k).

(** [sanitizeIdentifier] ensures the identifier is safe for SQL: it
    doubles any double quote and wraps the result in double quotes. *)
Definition sanitizeIdentifier (name : string) : string :=
  let escaped := ReplaceAll name quote quotequote in
  quote +:+ escaped +:+ quote.

(** [IsValidType] checks if the given type name is in the allowed
    types list. *)
Definition IsValidType (t : string) : bool := index allowedTypesMap t.

(** [sanitizeType] validates and returns a safe type name. *)
Definition sanitizeType (t : string) : result string :=
  if index allowedTypesMap t then Ok t
  else Err (Errorf_q "unsupported column type" t).

(** [ColumnDef] holds validated column definition parts for DDL
    building. *)
Record ColumnDef : Type := mkColumnDef {
  col_Name : string;
  col_Type : string;
  col_NotNull : bool;
  col_PrimaryKey : bool;
  col_Unique : bool;
  col_ReferencesTable : string;
  col_ReferencesColumn : string
}.

(** [BuildCreateTableDDL] constructs a CREATE TABLE statement. *)
Definition BuildCreateTableDDL (tableName : string) : result string :=
  if negb (ValidIdentifier tableName) then
    Err (Errorf "invalid table name: must be lowercase letters, numbers, underscores, and start with letter or underscore")
  else
    Ok ("CREATE TABLE " +:+ sanitizeIdentifier tableName +:+ " (id SERIAL PRIMARY KEY)").

(** [BuildAddColumnDDL] constructs an ALTER TABLE ADD COLUMN statement. *)
Definition BuildAddColumnDDL (tableName : string) (col : ColumnDef) : result string :=
  if negb (ValidIdentifier tableName) then
    Err (Errorf "invalid table name")
  else if negb (ValidIdentifier (col_Name col)) then
    Err (Errorf "invalid column name: must be lowercase letters, numbers, underscores, and start with letter or underscore")
  else
    let parts : list string := [] in
    let parts := parts ++ [sanitizeIdentifier (col_Name col)] in
    safeType ← sanitizeType (col_Type col);
    let parts := parts ++ [safeType] in
    let parts := if col_NotNull col then parts ++ ["NOT NULL"] else parts in
    let parts := if col_PrimaryKey col then parts ++ ["PRIMARY KEY"] else parts in
    let parts :=
      if col_Unique col && negb (col_PrimaryKey col)
      then parts ++ ["UNIQUE"] else parts in
    parts ←
      (if negb (String.eqb (col_ReferencesTable col) EmptyString)
          && negb (String.eqb (col_ReferencesColumn col) EmptyString)
       then
         if negb (ValidIdentifier (col_ReferencesTable col)) then
           Err (Errorf "invalid foreign key table name")
         else if negb (ValidIdentifier (col_ReferencesColumn col)) then
           Err (Errorf "invalid foreign key column name")
         else
           Ok (parts ++ ["REFERENCES "
                         +:+ sanitizeIdentifier (col_ReferencesTable col)
                         +:+ "("
                         +:+ sanitizeIdentifier (col_ReferencesColumn col)
                         +:+ ")"])
       else Ok parts);
    Ok ("ALTER TABLE " +:+ sanitizeIdentifier tableName
        +:+ " ADD COLUMN " +:+ Join parts " ").

(** [ForeignKey] represents a foreign key constraint. *)
Record ForeignKey : Type := mkForeignKey {
  fk_ColumnName : string;
  fk_ReferencesTable : string;
  fk_ReferencesColumn : string
}.

(** [AddColumnRequest] represents a request to add a column to a
    table; [req_ForeignKey] is a pointer, [None] when nil. *)
Record AddColumnRequest : Type := mkAddColumnRequest {
  req_Name : string;
  req_Type : string;
  req_Nullable : bool;
  req_PrimaryKey : bool;
  req_Unique : bool;
  req_ForeignKey : option ForeignKey
}.

(** The first half of [Introspector.AddColumn]: the column definition
    it hands to the builder. *)
Definition columnDefOf (req : AddColumnRequest) : ColumnDef :=
  let col := mkColumnDef (req_Name req) (req_Type req)
               (negb (req_Nullable req)) (req_PrimaryKey req) (req_Unique req)
               EmptyString EmptyString in
  match req_ForeignKey req with
  | Some fk =>
    mkColumnDef (col_Name col) (col_Type col) (col_NotNull col)
      (col_PrimaryKey col) (col_Unique col)
      (fk_ReferencesTable fk) (fk_ReferencesColumn fk)
  | None => col
  end.

(** The identity of a [*pgxpool.Pool]; a nil pointer is [None]. *)
Definition Pool : Type := nat.

(** [Introspector] queries PostgreSQL to extract schema information.
    Its [sync.RWMutex] makes each method below one atomic step. *)
Record Introspector : Type := mkIntrospector {
  pool : option Pool;
  dbName : string;
  queryTimeout : Z
}.

Definition NewIntrospector (p : option Pool) (name : string) (timeout : Z)
  : Introspector := mkIntrospector p name timeout.

(** [SetPool] swaps the connection pool for a new database and
    returns the old pool so the caller can close it. *)
Definition SetPool (i : Introspector) (p : option Pool) (name : string)
  : Introspector * option Pool :=
  let oldPool := pool i in
  (mkIntrospector p name (queryTimeout i), oldPool).

Definition CurrentDatabase (i : Introspector) : string := dbName i.

Definition getPool (i : Introspector) : option Pool := pool i.

(** A statement sent to a pool with [pool.Exec]. *)
Inductive DbCall : Type :=
| Exec (p : option Pool) (query : string).

(** [Introspector.CreateTable]: [exec] is the database's answer to the
    statement.  The outcome is the calls made and the error returned. *)
Definition CreateTable (i : Introspector) (exec : string → option error)
    (tableName : string) : list DbCall * option error :=
  match BuildCreateTableDDL tableName with
  | Err e => ([], Some e)
  | Ok query => ([Exec (getPool i) query], exec query)
  end.

(** [Introspector.AddColumn]. *)
Definition AddColumn (i : Introspector) (exec : string → option error)
    (tableName : string) (req : AddColumnRequest) : list DbCall * option error :=
  let col := columnDefOf req in
  match BuildAddColumnDDL tableName col with
  | Err e => ([], Some e)
  | Ok query => ([Exec (getPool i) query], exec query)
  end.

(** [withTimeout] returns a context with the query timeout applied; a
    shorter deadline of the parent is preserved.  [nowUntil] is the
    clock read by [time.Until], [nowTimeout] the clock read afterwards
    by [context.WithTimeout]. *)
Definition withTimeout (i : Introspector) (nowUntil nowTimeout : Z)
    (parent : Context) : Context :=
  match Deadline parent with
  | Some deadline =>
    let remaining := Until nowUntil deadline in
    if remaining <=? queryTimeout i then WithCancel parent
    else WithTimeout nowTimeout parent (queryTimeout i)
  | None => WithTimeout nowTimeout parent (queryTimeout i)
  end.

(** A row of the server's [pg_database] catalog. *)
Record pg_database : Type := mkDatabase {
  datname : string;
  datistemplate : bool
}.

(** How an outside call fails when it fails: the error it returns,
    and for a query whether [Query] returns it, [Scan] on a row, or
    [rows.Err] after the last row. *)
Inductive Stage : Type := AtQuery | AtScan | AtRows.

Record Failure : Type := mkFailure {
  failure_stage : Stage;
  failure_cause : error
}.

(** The error a query function returns: the error of [Query] and the
    error of [Scan] are wrapped, the one of [rows.Err] is returned as
    it is. *)
Definition queryError (failure : Failure) (queryMsg scanMsg : string) : error :=
  match failure_stage failure with
  | AtQuery => Errorf_w queryMsg (failure_cause failure)
  | AtScan => Errorf_w scanMsg (failure_cause failure)
  | AtRows => failure_cause failure
  end.

(** The rows the server returns for the query of [ListDatabases]:
    [WHERE datistemplate = false AND datname NOT IN ('postgres',
    'template0', 'template1') ORDER BY datname]. *)
Definition listDatabasesQuery (catalog : list pg_database) : list string :=
  merge_sort String.le
    (datname <$>
      filter (fun row =>
                datistemplate row = false
                ∧ datname row ∉ ["postgres"; "template0"; "template1"])
             catalog).

(** [ListDatabases] returns all user databases.  [server] is the
    catalog the query runs on, [None] when the round trip or a scan
    fails, in the way [failure] tells. *)
Definition ListDatabases (i : Introspector) (server : option (list pg_database))
    (failure : Failure) : result (list string) :=
  match server with
  | None =>
    Err (queryError failure "failed to list databases" "failed to scan database name")
  | Some catalog =>
    let databases := foldl (fun databases name => databases ++ [name]) []
                           (listDatabasesQuery catalog) in
    Ok databases
  end.

(** [Column], [Table] and [Schema] of models.go. *)
Record Column : Type := mkColumn {
  column_Name : string;
  column_DataType : string;
  column_IsNullable : bool;
  column_IsPrimary : bool;
  column_IsUnique : bool;
  column_Default : option string
}.

Record Table : Type := mkTable {
  table_Name : string;
  table_Columns : list Column;
  table_ForeignKeys : list ForeignKey
}.

Record Schema : Type := mkSchema { Tables : list Table }.

(** The rows the server returns for the three batch queries, [None]
    when a query fails; the first that fails does so in the way the
    [failure] given to [GetSchema] tells. *)
Record SchemaRows : Type := mkSchemaRows {
  rows_tables : option (list string);
  rows_columns : option (list (string * Column));
  rows_foreignKeys : option (list (string * ForeignKey))
}.

(** The queries [GetSchema] issued. *)
Inductive SchemaQuery : Type := QueryTables | QueryColumns | QueryForeignKeys.

Definition getAllTables (rows : SchemaRows) (failure : Failure) : result (list Table) :=
  match rows_tables rows with
  | None => Err (queryError failure "failed to get tables" "failed to scan table name")
  | Some names =>
    Ok (foldl (fun tables name => tables ++ [mkTable name [] []]) [] names)
  end.

(** [m[k] = append(m[k], v)] for each row. *)
Definition groupByTable {A : Type} (rows : list (string * A)) : gmap string (list A) :=
  foldl (fun m '(tableName, v) => <[tableName := default [] (m !! tableName) ++ [v]]> m)
        ∅ rows.

Definition getAllColumns (rows : SchemaRows) (failure : Failure)
  : result (gmap string (list Column)) :=
  match rows_columns rows with
  | None => Err (queryError failure "failed to get columns" "failed to scan column")
  | Some r => Ok (groupByTable r)
  end.

Definition getAllForeignKeys (rows : SchemaRows) (failure : Failure)
  : result (gmap string (list ForeignKey)) :=
  match rows_foreignKeys rows with
  | None =>
    Err (queryError failure "failed to get foreign keys" "failed to scan foreign key")
  | Some r => Ok (groupByTable r)
  end.

(** [GetSchema] returns the complete database schema, and here also
    the queries it issued. *)
Definition GetSchema (i : Introspector) (rows : SchemaRows) (failure : Failure)
  : list SchemaQuery * result Schema :=
  match getAllTables rows failure with
  | Err e => ([QueryTables], Err e)
  | Ok tables =>
    if Nat.eqb (List.length tables) 0 then ([QueryTables], Ok (mkSchema []))
    else
      match getAllColumns rows failure with
      | Err e => ([QueryTables; QueryColumns], Err e)
      | Ok columnsByTable =>
        match getAllForeignKeys rows failure with
        | Err e => ([QueryTables; QueryColumns; QueryForeignKeys], Err e)
        | Ok fksByTable =>
          ([QueryTables; QueryColumns; QueryForeignKeys],
           Ok (mkSchema
                 ((fun t => mkTable (table_Name t)
                              (default [] (columnsByTable !! table_Name t))
                              (default [] (fksByTable !! table_Name t)))
                  <$> tables)))
        end
      end
  end.

End schema.


(** ** validate.go and the mutations it served

    The earlier revision of the mutation path: [validIdentifier] is the
    same check as [schema.ValidIdentifier]; [sanitizeType] and
    [AddColumn] were replaced by the DDL builder of [schema]. *)

Module Legacy.

Import Go.
Import schema (quote, quotequote, error, Errorf, ForeignKey, AddColumnRequest,
               Introspector, DbCall, Exec, getPool).

(** [validIdentifier] checks if a name is a valid SQL identifier. *)
Definition validIdentifier (name : string) : bool :=
  if String.eqb name EmptyString || Nat.ltb 63 (String.length name) then false
  else
    forallb (fun '(i, r) =>
      if Nat.eqb i 0 then
        if negb (((rune "a" <=? r) && (r <=? rune "z")) || (r =? rune "_"))
        then false else true
      else
        if negb (((rune "a" <=? r) && (r <=? rune "z"))
                 || ((rune "0" <=? r) && (r <=? rune "9"))
                 || (r =? rune "_"))
        then false else true)
      (rangeString name).

Definition sanitizeIdentifier (name : string) : string :=
  let escaped := ReplaceAll name quote quotequote in
  quote +:+ escaped +:+ quote.

(** [sanitizeType] validates and returns a safe type name: text if the
    type is unknown. *)
Definition sanitizeType (t : string) : string :=
  let allowed : gmap string string :=
    <["numeric" := "numeric"]> (<["date" := "date"]> (<["text" := "text"]> ∅)) in
  match allowed !! t with
  | Some safe => safe
  | None => "text"
  end.

(** [AddColumn] adds a new column to an existing table. *)
Definition AddColumn (i : Introspector) (exec : string → option error)
    (tableName : string) (req : AddColumnRequest) : list DbCall * option error :=
  if negb (validIdentifier tableName) then
    ([], Some (Errorf "invalid table name"))
  else if negb (validIdentifier (schema.req_Name req)) then
    ([], Some (Errorf "invalid column name: must be lowercase letters, numbers, underscores, and start with letter or underscore"))
  else
    let colDef := sanitizeIdentifier (schema.req_Name req)
                  +:+ " " +:+ sanitizeType (schema.req_Type req) in
    let colDef := if negb (schema.req_Nullable req)
                  then colDef +:+ " NOT NULL" else colDef in
    let colDef := if schema.req_PrimaryKey req
                  then colDef +:+ " PRIMARY KEY" else colDef in
    let colDef := if schema.req_Unique req && negb (schema.req_PrimaryKey req)
                  then colDef +:+ " UNIQUE" else colDef in
    let colDef :=
      match schema.req_ForeignKey req with
      | Some fk =>
        if negb (String.eqb (schema.fk_ReferencesTable fk) EmptyString)
           && negb (String.eqb (schema.fk_ReferencesColumn fk) EmptyString)
        then colDef +:+ " REFERENCES "
             +:+ sanitizeIdentifier (schema.fk_ReferencesTable fk)
             +:+ "(" +:+ sanitizeIdentifier (schema.fk_ReferencesColumn fk) +:+ ")"
        else colDef
      | None => colDef
      end in
    let query := "ALTER TABLE " +:+ sanitizeIdentifier tableName
                 +:+ " ADD COLUMN " +:+ colDef in
    ([Exec (getPool i) query], exec query).

End Legacy.

(** ** internal/api: the HTTP handlers *)

Module api.

Import Go schema.

(** Error codes for API responses. *)
Definition ErrInvalidRequest : string := "INVALID_REQUEST".
Definition ErrMissingField : string := "MISSING_FIELD".
Definition ErrInvalidTableName : string := "INVALID_TABLE_NAME".
Definition ErrInvalidColName : string := "INVALID_COLUMN_NAME".
Definition ErrSchemaError : string := "SCHEMA_ERROR".
Definition ErrDatabaseError : string := "DATABASE_ERROR".
Definition ErrConnectionError : string := "CONNECTION_ERROR".
Definition ErrUnknownDatabase : string := "UNKNOWN_DATABASE".
Definition ErrCreateTable : string := "CREATE_TABLE_ERROR".
Definition ErrAddColumn : string := "ADD_COLUMN_ERROR".

Definition StatusBadRequest : Z := 400.
Definition StatusInternalServerError : Z := 500.

(** The payloads of successful responses. *)
Inductive Data : Type :=
| schemaData (s : Schema)
| databasesData (Databases : list string) (Current : string)
| typesData (Types : list TypeInfo)
| switchDatabaseData (Database : string)
| createTableData (Table : string)
| addColumnData (Column : string).

Inductive Response : Type :=
| JSON (data : Data)
| Error (code message : string) (status : Z).

(** An argument of a [log.Printf] call. *)
Inductive LogArg : Type :=
| ArgString (s : string)
| ArgError (e : error)
| ArgDuration (d : Z).

(** What a handler does, in order. *)
Inductive Event : Type :=
| ListDatabasesCall (p : option Pool)      (* introspector.ListDatabases, on pool p *)
| NewPool (name : string) (p : option Pool)
                                           (* pgxpool.New on the URL built for name;
                                              None when it returns an error *)
| Ping (p : Pool) (ok : bool)              (* pool.Ping *)
| Close (p : Pool)                         (* pool.Close, called and waited for *)
| Lock                                     (* h.poolCloseMu.Lock *)
| Unlock                                   (* the deferred h.poolCloseMu.Unlock *)
| SetPoolCall (p : Pool) (name : string) (old : option Pool)
                                           (* introspector.SetPool(p, name) = old *)
| GoClose (p : Pool)                       (* go func() { p.Close(); close(done) }() *)
| Wait (d : Z)                             (* blocked in the select for d *)
| Done (p : Pool)                          (* case <-done *)
| TimedOut (timeout : Z)                   (* case <-time.After(timeout) *)
| Log (format : string) (args : list LogArg)
                                           (* log.Printf(format, args...) *)
| Query (q : SchemaQuery)                  (* a query of GetSchema *)
| Database (c : DbCall)                    (* a statement sent by a mutation *)
| Respond (r : Response).                  (* the response written *)

(** [Handler] holds dependencies for HTTP handlers; [poolCloseMu]
    shows as the events [Lock] and [Unlock]. *)
Record Handler : Type := mkHandler {
  introspector : Introspector;
  config : config.Config
}.

(** A handler together with the pools [pgxpool.New] has handed out:
    every pool created is a new one, [nextPool]. *)
Record World : Type := mkWorld {
  handler : Handler;
  nextPool : Pool
}.

(** What the outside answers during one request: the catalog the
    [ListDatabases] query runs on ([None] when the query fails), whether
    [pgxpool.New] and [Ping] succeed, the time the old pool's [Close]
    takes ([None] when it does not return), the database's answer to a
    DDL statement, the rows of the schema queries, and the failure of
    the call that fails: a handler returns at the first query,
    connection, ping or decoding of the body that fails, so one request
    meets at most one of them. *)
Record Env : Type := mkEnv {
  env_catalog : option (list pg_database);
  env_connect : bool;
  env_ping : bool;
  env_closeTakes : option Z;
  env_exec : string → option error;
  env_rows : SchemaRows;
  env_failure : Failure
}.

(** [respondError] logs the details, then sends the error response with
    the message for the client. *)
Definition respondError (code clientMessage : string) (status : Z)
    (internalErr : option error) : list Event :=
  [match internalErr with
   | Some e => Log "[%s] %s: %v" [ArgString code; ArgString clientMessage; ArgError e]
   | None => Log "[%s] %s" [ArgString code; ArgString clientMessage]
   end;
   Respond (Error code clientMessage status)].

(** [decodeJSONBody] when the decoding fails, with the decoder's error. *)
Definition decodeJSONBody (env : Env) : list Event :=
  respondError ErrInvalidRequest "Invalid request body" StatusBadRequest
    (Some (failure_cause (env_failure env))).

Definition respondJSON (data : Data) : list Event := [Respond (JSON data)].

(** [validateIdentifier]: whether the name is valid, and the error
    response sent when it is not. *)
Definition validateIdentifier (name fieldName errCode : string) : bool * list Event :=
  if String.eqb name EmptyString then
    (false, respondError ErrMissingField (fieldName +:+ " is required") StatusBadRequest
              None)
  else if negb (ValidIdentifier name) then
    (false, respondError errCode ("Invalid " +:+ fieldName +:+ " format") StatusBadRequest
              None)
  else (true, []).

Definition handleGetSchema (w : World) (env : Env) : World * list Event :=
  let '(queries, r) :=
    GetSchema (introspector (handler w)) (env_rows env) (env_failure env) in
  match r with
  | Err e =>
    (w, (Query <$> queries)
        ++ respondError ErrSchemaError "Failed to load schema" StatusInternalServerError
             (Some e))
  | Ok s => (w, (Query <$> queries) ++ respondJSON (schemaData s))
  end.

Definition handleListDatabases (w : World) (env : Env) : World * list Event :=
  let i := introspector (handler w) in
  match ListDatabases i (env_catalog env) (env_failure env) with
  | Err e =>
    (w, [ListDatabasesCall (getPool i)]
        ++ respondError ErrDatabaseError "Failed to list databases"
             StatusInternalServerError (Some e))
  | Ok databases =>
    (w, [ListDatabasesCall (getPool i)]
        ++ respondJSON (databasesData databases (CurrentDatabase i)))
  end.

Definition handleGetTypes (w : World) : World * list Event :=
  (w, respondJSON (typesData AllowedTypes)).

Record switchDatabaseRequest : Type := mkSwitchDatabaseRequest { switch_Name : string }.

(** The bound on the wait for the old pool's close. *)
Definition closeTimeout (h : Handler) : Z :=
  let timeout := mulDuration (config.QueryTimeout (config h)) 2 in
  if timeout <? 5 * Second then 5 * Second else timeout.

(** [for _, db := range databases { if db == name { allowed = true; break } }] *)
Fixpoint allowedIn (databases : list string) (name : string) : bool :=
  match databases with
  | [] => false
  | db :: rest => if String.eqb db name then true else allowedIn rest name
  end.

(** The goroutine closing [oldPool] and the [select] waiting for it:
    [done] is received when the close returns within the bound, the
    timer fires otherwise. *)
Definition closeOldPool (h : Handler) (env : Env) (oldPool : option Pool) : list Event :=
  match oldPool with
  | None => []
  | Some old =>
    let timeout := closeTimeout h in
    GoClose old ::
    match env_closeTakes env with
    | Some d =>
      if d <=? timeout
      then [Wait d; Done old; Log "[INFO] Connection pool closed successfully" []]
      else [Wait timeout; TimedOut timeout;
            Log "[WARN] Connection pool close timed out after %v" [ArgDuration timeout]]
    | None =>
      [Wait timeout; TimedOut timeout;
       Log "[WARN] Connection pool close timed out after %v" [ArgDuration timeout]]
    end
  end.

(** [body] is the decoded request body, [None] when decoding fails. *)
Definition handleSwitchDatabase (w : World) (env : Env)
    (body : option switchDatabaseRequest) : World * list Event :=
  let h := handler w in
  let i := introspector h in
  match body with
  | None => (w, decodeJSONBody env)
  | Some req =>
    if String.eqb (switch_Name req) EmptyString then
      (w, respondError ErrMissingField "Database name is required" StatusBadRequest None)
    else
      match ListDatabases i (env_catalog env) (env_failure env) with
      | Err e =>
        (w, [ListDatabasesCall (getPool i)]
            ++ respondError ErrDatabaseError "Failed to validate database"
                 StatusInternalServerError (Some e))
      | Ok databases =>
        if negb (allowedIn databases (switch_Name req)) then
          (w, [ListDatabasesCall (getPool i)]
              ++ respondError ErrUnknownDatabase "Database not found" StatusBadRequest
                   None)
        else if negb (env_connect env) then
          (w, [ListDatabasesCall (getPool i); NewPool (switch_Name req) None]
              ++ respondError ErrConnectionError "Failed to connect to database"
                   StatusInternalServerError (Some (failure_cause (env_failure env))))
        else
          let pool := nextPool w in
          if negb (env_ping env) then
            (mkWorld h (S pool),
             [ListDatabasesCall (getPool i); NewPool (switch_Name req) (Some pool);
              Ping pool false; Close pool]
             ++ respondError ErrConnectionError "Failed to verify database connection"
                  StatusInternalServerError (Some (failure_cause (env_failure env))))
          else
            let '(i', oldPool) := SetPool i (Some pool) (switch_Name req) in
            (mkWorld (mkHandler i' (config h)) (S pool),
             [ListDatabasesCall (getPool i); NewPool (switch_Name req) (Some pool);
              Ping pool true; Lock; SetPoolCall pool (switch_Name req) oldPool]
             ++ closeOldPool h env oldPool
             ++ respondJSON (switchDatabaseData (switch_Name req))
             ++ [Unlock])
      end
  end.

Record createTableRequest : Type := mkCreateTableRequest { create_Name : string }.

Definition handleCreateTable (w : World) (env : Env)
    (body : option createTableRequest) : World * list Event :=
  match body with
  | None => (w, decodeJSONBody env)
  | Some req =>
    let '(ok, sent) := validateIdentifier (create_Name req) "table name" ErrInvalidTableName in
    if negb ok then (w, sent)
    else
      let '(calls, err) :=
        CreateTable (introspector (handler w)) (env_exec env) (create_Name req) in
      match err with
      | Some e =>
        (w, (Database <$> calls)
            ++ respondError ErrCreateTable "Failed to create table"
                 StatusInternalServerError (Some e))
      | None => (w, (Database <$> calls) ++ respondJSON (createTableData (create_Name req)))
      end
  end.

(** [tableName] is the path value; [body] the decoded request body. *)
Definition handleAddColumn (w : World) (env : Env) (tableName : string)
    (body : option AddColumnRequest) : World * list Event :=
  let '(ok, sent) := validateIdentifier tableName "table name" ErrInvalidTableName in
  if negb ok then (w, sent)
  else
    match body with
    | None => (w, decodeJSONBody env)
    | Some req =>
      if String.eqb (req_Name req) EmptyString then
        (w, respondError ErrMissingField "Column name is required" StatusBadRequest None)
      else if negb (ValidIdentifier (req_Name req)) then
        (w, respondError ErrInvalidColName "Invalid column name format" StatusBadRequest
              None)
      else if String.eqb (req_Type req) EmptyString then
        (w, respondError ErrMissingField "Column type is required" StatusBadRequest None)
      else if negb (IsValidType (req_Type req)) then
        (w, respondError ErrInvalidRequest "Invalid column type" StatusBadRequest None)
      else
        let '(calls, err) :=
          AddColumn (introspector (handler w)) (env_exec env) tableName req in
        match err with
        | Some e =>
          (w, (Database <$> calls)
              ++ respondError ErrAddColumn "Failed to add column"
                   StatusInternalServerError (Some e))
        | None => (w, (Database <$> calls) ++ respondJSON (addColumnData (req_Name req)))
        end
    end.

(** The routes of [RegisterRoutes] behind the middleware. *)
Inductive Request : Type :=
| GetSchemaRequest
| ListDatabasesRequest
| GetTypesRequest
| SwitchDatabaseRequest (body : option switchDatabaseRequest)
| CreateTableRequest (body : option createTableRequest)
| AddColumnRequest (tableName : string) (body : option schema.AddColumnRequest).

Definition serve (w : World) (env : Env) (r : Request) : World * list Event :=
  match r with
  | GetSchemaRequest => handleGetSchema w env
  | ListDatabasesRequest => handleListDatabases w env
  | GetTypesRequest => handleGetTypes w
  | SwitchDatabaseRequest body => handleSwitchDatabase w env body
  | CreateTableRequest body => handleCreateTable w env body
  | AddColumnRequest tableName body => handleAddColumn w env tableName body
  end.

(** Requests served one after the other, with the events of all. *)
Fixpoint serveAll (w : World) (reqs : list (Env * Request)) : World * list Event :=
  match reqs with
  | [] => (w, [])
  | (env, r) :: rest =>
    let '(w1, t1) := serve w env r in
    let '(w2, t2) := serveAll w1 rest in
    (w2, t1 ++ t2)
  end.

End api.

(** ** main *)

Module main.

Import Go schema api.


End main.

(** ** The design document's wording, for comparison with the code *)

Module Spec.

Import Go.

(** The character classes [[a-z_]] and [[a-z0-9_]]. *)
Definition headClass (c : ascii) : bool :=
  ((byte "a" <=? byte c) && (byte c <=? byte "z")) || (byte c =? byte "_").

Definition tailClass (c : ascii) : bool :=
  ((byte "a" <=? byte c) && (byte c <=? byte "z"))
  || ((byte "0" <=? byte c) && (byte c <=? byte "9"))
  || (byte c =? byte "_").

(** A string matches [^[a-z_][a-z0-9_]*$]. *)
Definition matchesPattern (s : string) : bool :=
  match s with
  | EmptyString => false
  | String c t => headClass c && forallb tailClass (list_ascii_of_string t)
  end.

(** The identifier rule: the pattern, and at most 63 bytes. *)
Definition isValidIdentifier (s : string) : bool :=
  matchesPattern s && Nat.leb (String.length s) 63.

Import schema.

(** The statement of section 4.4 for a table and a column definition:
    [ALTER TABLE <quoted-table> ADD COLUMN <quoted-column> <type>
    [NOT NULL] [PRIMARY KEY] [UNIQUE] [REFERENCES
    <quoted-ref-table>(<quoted-ref-column>)]], an identifier quoted by
    wrapping it in double quotes. *)
Definition quoted (name : string) : string := quote +:+ name +:+ quote.

Definition hasReference (col : ColumnDef) : bool :=
  negb (String.eqb (col_ReferencesTable col) EmptyString)
  && negb (String.eqb (col_ReferencesColumn col) EmptyString).

Definition addColumnStatement (tableName : string) (col : ColumnDef) : string :=
  "ALTER TABLE " +:+ quoted tableName
  +:+ " ADD COLUMN " +:+ quoted (col_Name col) +:+ " " +:+ col_Type col
  +:+ (if col_NotNull col then " NOT NULL" else EmptyString)
  +:+ (if col_PrimaryKey col then " PRIMARY KEY" else EmptyString)
  +:+ (if col_Unique col && negb (col_PrimaryKey col) then " UNIQUE" else EmptyString)
  +:+ (if hasReference col
       then " REFERENCES " +:+ quoted (col_ReferencesTable col)
            +:+ "(" +:+ quoted (col_ReferencesColumn col) +:+ ")"
       else EmptyString).

(** The error taxonomy of section 7, read on the errors of the builder. *)
Definition InvalidIdentifier (e : error) : Prop :=
  e = Errorf "invalid table name"
  ∨ e = Errorf "invalid table name: must be lowercase letters, numbers, underscores, and start with letter or underscore"
  ∨ e = Errorf "invalid column name: must be lowercase letters, numbers, underscores, and start with letter or underscore"
  ∨ e = Errorf "invalid foreign key table name"
  ∨ e = Errorf "invalid foreign key column name".


(** A type string exactly matches an entry of the allow-list. *)
Definition onAllowList (t : string) : Prop := In t (map Name AllowedTypes).

(** The maintenance and template databases named in section 4.2. *)
Definition maintenanceDatabases : list string := ["postgres"; "template0"; "template1"].

End Spec.

(** ** What a trace of events shows *)

Module Trace.

Import schema api.

(** The pools on which a trace initiates a close after a swap, and the
    pools a trace replaces, in order. *)
Definition closeInitiations (trace : list Event) : list Pool :=
  omap (fun e => match e with GoClose p => Some p | _ => None end) trace.

Definition replacedPools (trace : list Event) : list Pool :=
  omap (fun e => match e with SetPoolCall _ _ (Some old) => Some old | _ => None end)
       trace.


(** The names a trace installs with [SetPool], in order. *)
Definition installedNames (trace : list Event) : list string :=
  omap (fun e => match e with SetPoolCall _ name _ => Some name | _ => None end) trace.

(** The pools a trace asks [pgxpool.New] for. *)
Definition poolRequests (trace : list Event) : list string :=
  omap (fun e => match e with NewPool name _ => Some name | _ => None end) trace.

(** The responses a trace sends. *)
Definition responses (trace : list Event) : list Response :=
  omap (fun e => match e with Respond r => Some r | _ => None end) trace.

(** The time a trace spends waiting while it holds [poolCloseMu]. *)
Fixpoint heldWait (trace : list Event) (held : bool) : Z :=
  match trace with
  | [] => 0
  | Lock :: rest => heldWait rest true
  | Unlock :: rest => heldWait rest false
  | Wait d :: rest => (if held then d else 0) + heldWait rest held
  | _ :: rest => heldWait rest held
  end.

Definition lockHeldFor (trace : list Event) : Z := heldWait trace false.

(** A switch request commits: it names a listed database, the pool is
    created and the ping is answered. *)
Definition switchCommits (env : Env) (body : option switchDatabaseRequest) : bool :=
  match body, env_catalog env with
  | Some req, Some catalog =>
    negb (String.eqb (switch_Name req) EmptyString)
    && allowedIn (listDatabasesQuery catalog) (switch_Name req)
    && env_connect env && env_ping env
  | _, _ => false
  end.

(** The time the select of [closeOldPool] waits: the close, cut off at
    the bound. *)
Definition closeWait (h : Handler) (env : Env) : Z :=
  match env_closeTakes env with
  | Some d => Z.min d (closeTimeout h)
  | None => closeTimeout h
  end.

End Trace.

(** ** A server used in the examples *)

Module Examples.

Import schema api.

(** The catalog of a server with two user databases. *)
Definition catalog : list pg_database :=
  [mkDatabase "template1" true; mkDatabase "shop" false;
   mkDatabase "postgres" false; mkDatabase "app" false;
   mkDatabase "template0" true].

(** A handler on database [app] with the default timeouts; pool 0 is
    the pool of [main]. *)
Definition world : World :=
  mkWorld
    (mkHandler
       (NewIntrospector (Some 0%nat) "app"
          (config.QueryTimeout (config.Load (fun _ => EmptyString))))
       (config.Load (fun _ => EmptyString)))
    1%nat.

(** The outside: whether the connection is made, whether the ping is
    answered, and the time the close of the old pool takes. *)
Definition env (connect ping : bool) (closeTakes : option Z) : Env :=
  mkEnv (Some catalog) connect ping closeTakes (fun _ => None)
    (mkSchemaRows (Some []) (Some []) (Some []))
    (mkFailure AtQuery (External "connection refused")).

Definition switchTo (name : string) : option switchDatabaseRequest :=
  Some (mkSwitchDatabaseRequest name).



End Examples.

(** ** internal/api: the request-security middleware *)

Module middleware.

Import Go.

(** *** crypto/subtle and encoding/base64 *)

(** [subtle.ConstantTimeByteEq(x, y)]: [int((uint32(x^y) - 1) >> 31)]. *)
Definition ConstantTimeByteEq (x y : Z) : Z :=
  Z.shiftr ((Z.lxor x y - 1) mod 2 ^ 32) 31.

(** The loop [v |= x[i] ^ y[i]] over two slices of one length. *)
Fixpoint xorBytes (x y : string) (v : Z) : Z :=
  match x, y with
  | String a x', String b y' => xorBytes x' y' (Z.lor v (Z.lxor (byte a) (byte b)))
  | _, _ => v
  end.

(** [subtle.ConstantTimeCompare(x, y)]. *)
Definition ConstantTimeCompare (x y : string) : Z :=
  if negb (Nat.eqb (String.length x) (String.length y)) then 0
  else ConstantTimeByteEq (xorBytes x y 0) 0.

(** The alphabet of [base64.URLEncoding]. *)
Definition encodeURL : string :=
  "ABCDEFGHIJKLMNOPQRSTUVWXYZabcdefghijklmnopqrstuvwxyz0123456789-_".

Definition encodeChar (i : Z) : ascii :=
  match String.get (Z.to_nat i) encodeURL with
  | Some c => c
  | None => "="%char
  end.

(** [base64.URLEncoding.EncodeToString]: four characters for every
    three bytes, the last group padded with [=]. *)
Fixpoint EncodeToString (src : string) : string :=
  match src with
  | EmptyString => EmptyString
  | String a EmptyString =>
    let val := Z.shiftl (byte a) 16 in
    String (encodeChar (Z.land (Z.shiftr val 18) 0x3F))
      (String (encodeChar (Z.land (Z.shiftr val 12) 0x3F)) "==")
  | String a (String b EmptyString) =>
    let val := Z.lor (Z.shiftl (byte a) 16) (Z.shiftl (byte b) 8) in
    String (encodeChar (Z.land (Z.shiftr val 18) 0x3F))
      (String (encodeChar (Z.land (Z.shiftr val 12) 0x3F))
         (String (encodeChar (Z.land (Z.shiftr val 6) 0x3F)) "="))
  | String a (String b (String c rest)) =>
    let val := Z.lor (Z.lor (Z.shiftl (byte a) 16) (Z.shiftl (byte b) 8)) (byte c) in
    String (encodeChar (Z.land (Z.shiftr val 18) 0x3F))
      (String (encodeChar (Z.land (Z.shiftr val 12) 0x3F))
         (String (encodeChar (Z.land (Z.shiftr val 6) 0x3F))
            (String (encodeChar (Z.land val 0x3F)) (EncodeToString rest))))
  end.

(** [generateSecureToken]: [random] is what [rand.Read] put into the
    buffer of [length] bytes, [None] when it failed. *)
Definition generateSecureToken (length : nat) (random : option string)
  : schema.result string :=
  match random with
  | None => schema.Err (schema.Errorf "crypto/rand failed")
  | Some bytes => schema.Ok (EncodeToString bytes)
  end.

(** [rand.Read] fills the whole buffer when it succeeds. *)
Definition filled (length : nat) (random : option string) : bool :=
  match random with
  | None => true
  | Some bytes => Nat.eqb (String.length bytes) length
  end.

(** *** CSRF protection *)

(** [CSRFMiddleware]: the tokens and the time of the last rotation. *)
Record CSRFMiddleware : Type := mkCSRFMiddleware {
  currentToken : string;
  previousToken : string;
  rotationInterval : Z;
  gracePeriod : Z;
  lastRotation : Z
}.

(** [NewCSRFMiddlewareWithRotation], the clock reading [now]. *)
Definition NewCSRFMiddlewareWithRotation (random : option string) (now : Z)
    (rotationInterval gracePeriod : Z) : schema.result CSRFMiddleware :=
  match generateSecureToken 32 random with
  | schema.Err _ => schema.Err (schema.Errorf "failed to create initial CSRF token")
  | schema.Ok token =>
    schema.Ok (mkCSRFMiddleware token EmptyString rotationInterval gracePeriod now)
  end.

Definition Hour : Z := 3600 * Second.
Definition Minute : Z := 60 * Second.

Definition NewCSRFMiddleware (random : option string) (now : Z)
  : schema.result CSRFMiddleware :=
  NewCSRFMiddlewareWithRotation random now Hour Minute.

(** [rotate] generates a new token and keeps the old one for the grace
    period; when the generation fails the tokens stay. *)
Definition rotate (c : CSRFMiddleware) (random : option string) (now : Z)
  : CSRFMiddleware :=
  match generateSecureToken 32 random with
  | schema.Err _ => c
  | schema.Ok newToken =>
    mkCSRFMiddleware newToken (currentToken c) (rotationInterval c) (gracePeriod c) now
  end.

(** [rotationLoop]: every tick of the ticker rotates; a tick is what
    [rand.Read] gave and the clock reading. *)
Definition rotationLoop (c : CSRFMiddleware) (ticks : list (option string * Z))
  : CSRFMiddleware :=
  foldl (fun c '(random, now) => rotate c random now) c ticks.

Definition Token (c : CSRFMiddleware) : string := currentToken c.

(** [isValidToken] checks if the provided token matches the current
    token, or the previous one within the grace period. *)
Definition isValidToken (c : CSRFMiddleware) (now : Z) (token : string) : bool :=
  if ConstantTimeCompare token (currentToken c) =? 1 then true
  else if negb (String.eqb (previousToken c) EmptyString)
          && (Sub now (lastRotation c) <? gracePeriod c) then
    if ConstantTimeCompare token (previousToken c) =? 1 then true else false
  else false.

(** What the middleware reads of a request: the method, the
    [X-CSRF-Token] header (empty when absent) and the remote address. *)
Record HTTPRequest : Type := mkHTTPRequest {
  Method : string;
  X_CSRF_Token : string;
  RemoteAddr : string
}.

(** What a wrapped handler does with a request: it answers itself with
    an error, or hands the request on. *)
Inductive Served (A : Type) : Type :=
| Refused (code message : string) (status : Z)
| Next (a : A).
Arguments Refused {A} code message status.
Arguments Next {A} a.

Definition StatusForbidden : Z := 403.
Definition StatusTooManyRequests : Z := 429.

(** The methods for which [Wrap] validates the token. *)
Definition stateChanging (r : HTTPRequest) : Prop :=
  Method r = "POST" ∨ Method r = "PUT" ∨ Method r = "DELETE" ∨ Method r = "PATCH".

(** [CSRFMiddleware.Wrap]: [next] is the handler wrapped. *)
Definition csrfWrap {A : Type} (c : CSRFMiddleware) (now : Z)
    (next : HTTPRequest → A) (r : HTTPRequest) : Served A :=
  if String.eqb (Method r) "POST" || String.eqb (Method r) "PUT"
     || String.eqb (Method r) "DELETE" || String.eqb (Method r) "PATCH" then
    let token := X_CSRF_Token r in
    if negb (isValidToken c now token) then
      Refused "CSRF_ERROR" "Invalid or missing CSRF token" StatusForbidden
    else Next (next r)
  else Next (next r).

(** *** Rate limiting *)

(** [RateLimiter]: for each address the times of its requests. *)
Record RateLimiter : Type := mkRateLimiter {
  requests : gmap string (list Z);
  limit : Z;
  window : Z;
  maxEntries : Z
}.

Definition NewRateLimiterWithMax (limit window maxEntries : Z) : RateLimiter :=
  mkRateLimiter ∅ limit window maxEntries.

Definition NewRateLimiter (limit window : Z) : RateLimiter :=
  NewRateLimiterWithMax limit window 10000.

(** The limiter of [NewHandler]: 100 requests per minute. *)
Definition handlerRateLimiter : RateLimiter := NewRateLimiter 100 Minute.

(** The loop that keeps the times within the window:
    [if now.Sub(t) < rl.window { valid = append(valid, t) }]. *)
Definition withinWindow (rl : RateLimiter) (now : Z) (times : list Z) : list Z :=
  filter (fun t => Sub now t < window rl) times.

(** One tick of [cleanup]: every entry keeps its times within the
    window and is deleted when none is left. *)
Definition cleanupTick (rl : RateLimiter) (now : Z) : RateLimiter :=
  mkRateLimiter
    (omap (fun times =>
             let valid := withinWindow rl now times in
             if Nat.eqb (List.length valid) 0 then None else Some valid)
          (requests rl))
    (limit rl) (window rl) (maxEntries rl).

(** The zero [time.Time], January 1 of year 1. *)
Definition zeroTime : Z := - 62135596800 * Second.

(** The loop that looks for the entry to evict; [order] is the order in
    which [range rl.requests] yields the entries. *)
Definition oldestEntry (order : list (string * list Z)) : string * Z * bool :=
  foldl (fun '(oldestIP, oldestTime, first) '(entryIP, entryTimes) =>
           match entryTimes with
           | t0 :: _ =>
             if first || (t0 <? oldestTime) then (entryIP, t0, false)
             else (oldestIP, oldestTime, first)
           | [] => (oldestIP, oldestTime, first)
           end)
        (EmptyString, zeroTime, true) order.

(** [Allow] checks if a request from the given address is allowed:
    the limiter afterwards, the answer, and the address evicted. *)
Definition Allow (rl : RateLimiter) (order : list (string * list Z)) (now : Z)
    (ip : string) : RateLimiter * bool * option string :=
  let times := default [] (requests rl !! ip) in
  let valid := withinWindow rl now times in
  if limit rl <=? Z.of_nat (List.length valid) then (rl, false, None)
  else
    let '(requests1, evicted) :=
      if negb (bool_decide (is_Some (requests rl !! ip)))
         && (maxEntries rl <=? Z.of_nat (size (requests rl))) then
        let '(oldestIP, _, _) := oldestEntry order in
        if negb (String.eqb oldestIP EmptyString)
        then (delete oldestIP (requests rl), Some oldestIP)
        else (requests rl, None)
      else (requests rl, None) in
    let valid := valid ++ [now] in
    (mkRateLimiter (<[ip := valid]> requests1) (limit rl) (window rl) (maxEntries rl),
     true, evicted).

(** [RateLimiter.Wrap]. *)
Definition rateWrap {A : Type} (rl : RateLimiter) (order : list (string * list Z))
    (now : Z) (next : HTTPRequest → A) (r : HTTPRequest) : RateLimiter * Served A :=
  let ip := RemoteAddr r in
  let '(rl', allowed, _) := Allow rl order now ip in
  if negb allowed then
    (rl', Refused "RATE_LIMIT" "Too many requests" StatusTooManyRequests)
  else (rl', Next (next r)).

(** The chain of [RegisterRoutes] around the API routes: rate limiting,
    then CSRF validation, then the routes. *)
Definition protected {A : Type} (rl : RateLimiter) (c : CSRFMiddleware)
    (order : list (string * list Z)) (now : Z) (apiMux : HTTPRequest → A)
    (r : HTTPRequest) : RateLimiter * Served (Served A) :=
  rateWrap rl order now (csrfWrap c now apiMux) r.

(** A call on the limiter: a request, or a tick of the cleanup. *)
Inductive Call : Type :=
| Request (ip : string) (now : Z) (order : list (string * list Z))
| Tick (now : Z).

Definition callTime (c : Call) : Z :=
  match c with
  | Request _ now _ => now
  | Tick now => now
  end.

Definition step (rl : RateLimiter) (c : Call) : RateLimiter :=
  match c with
  | Request ip now order => (Allow rl order now ip).1.1
  | Tick now => cleanupTick rl now
  end.

(** The limiter after a run of calls. *)
Definition run (rl : RateLimiter) (calls : list Call) : RateLimiter :=
  foldl step rl calls.

(** The times at which the requests of [ip] were allowed during a run. *)
Fixpoint allowedTimes (rl : RateLimiter) (calls : list Call) (ip : string) : list Z :=
  match calls with
  | [] => []
  | c :: rest =>
    match c with
    | Request ip' now order =>
      if String.eqb ip' ip && (Allow rl order now ip').1.2
      then now :: allowedTimes (step rl c) rest ip
      else allowedTimes (step rl c) rest ip
    | Tick _ => allowedTimes (step rl c) rest ip
    end
  end.

(** The addresses that make requests in a run. *)
Definition addresses (calls : list Call) : gset string :=
  foldr (fun c seen =>
           match c with
           | Request ip _ _ => {[ ip ]} ∪ seen
           | Tick _ => seen
           end) ∅ calls.

(** Every request of a run sees the entries in an order that is an
    order of the entries at that moment. *)
Fixpoint orderly (rl : RateLimiter) (calls : list Call) : Prop :=
  match calls with
  | [] => True
  | c :: rest =>
    match c with
    | Request _ _ order => order ≡ₚ map_to_list (requests rl)
    | Tick _ => True
    end
    ∧ orderly (step rl c) rest
  end.

End middleware.

(** ** web/src/utils.ts *)

Module web.

(** A JavaScript string is a sequence of UTF-16 code units.  A class of
    a regular expression is given by its ranges. *)
Definition inClass (ranges : list (Z * Z)) (u : Z) : bool :=
  existsb (fun '(lo, hi) => (lo <=? u) && (u <=? hi)) ranges.

(** [/^[a-z_][a-z0-9_]*$/.test(name)]. *)
Definition testIdentifierPattern (name : list Z) : bool :=
  match name with
  | [] => false
  | u :: rest =>
    inClass [(Go.byte "a", Go.byte "z"); (Go.byte "_", Go.byte "_")] u
    && forallb (inClass [(Go.byte "a", Go.byte "z"); (Go.byte "0", Go.byte "9");
                         (Go.byte "_", Go.byte "_")]) rest
  end.

(** [Utils.isValidIdentifier]. *)
Definition isValidIdentifier (name : list Z) : bool :=
  if Nat.eqb (List.length name) 0 || Nat.ltb 63 (List.length name) then false
  else testIdentifierPattern name.

(** The code units of a string of ASCII bytes. *)
Definition codeUnits (s : string) : list Z := Go.byte <$> list_ascii_of_string s.

(** [`${table.name}.${column}`], the key of a foreign key in the
    lookup. *)
Definition fkKey (tableName columnName : string) : string :=
  tableName +:+ "." +:+ columnName.

(** [Utils.buildFkLookup]: [lookup[key] = fk] for every foreign key of
    every table, in order.  Every key holds a dot, so that none is a
    property an object inherits. *)
Definition buildFkLookup (tables : list schema.Table) : gmap string schema.ForeignKey :=
  foldl (fun lookup table =>
           foldl (fun lookup fk =>
                    <[fkKey (schema.table_Name table) (schema.fk_ColumnName fk) := fk]>
                      lookup)
                 lookup (schema.table_ForeignKeys table))
        ∅ tables.

(** No character of the string is a dot. *)
Definition dotFree (s : string) : bool :=
  forallb (fun c => negb (Ascii.eqb c ".")) (list_ascii_of_string s).

End web.

(** ** How PostgreSQL reads a quoted identifier *)

Module Postgres.

(** The scanner inside a quoted identifier: two double quotes stand for
    one, a single double quote ends the identifier.  The result is the
    identifier and the input after it; [None] when the identifier is
    not closed. *)
Fixpoint readQuotedBody (s : string) : option (string * string) :=
  match s with
  | EmptyString => None
  | String c rest =>
    if Ascii.eqb c "034" then
      match rest with
      | String c' rest' =>
        if Ascii.eqb c' "034" then
          match readQuotedBody rest' with
          | Some (name, after) => Some (String "034" name, after)
          | None => None
          end
        else Some (EmptyString, rest)
      | EmptyString => Some (EmptyString, EmptyString)
      end
    else
      match readQuotedBody rest with
      | Some (name, after) => Some (String c name, after)
      | None => None
      end
  end.

(** A quoted identifier at the head of the input. *)
Definition readQuoted (s : string) : option (string * string) :=
  match s with
  | String c rest => if Ascii.eqb c "034" then readQuotedBody rest else None
  | EmptyString => None
  end.

End Postgres.

(** ** The statements a trace sends to the database *)

Module Sent.

Import schema api.

(** The statements a trace executes with [pool.Exec]: the data
    definition statements of the mutations.  The queries of [GetSchema]
    and [ListDatabases] are sent with [pool.Query]; they are the events
    [Query] and [ListDatabasesCall] and are not among these. *)
Definition statements (trace : list Event) : list string :=
  omap (fun e => match e with Database (Exec _ query) => Some query | _ => None end)
       trace.

(** The pools a trace creates, installs and closes itself. *)
Definition created (trace : list Event) : list Pool :=
  omap (fun e => match e with NewPool _ (Some p) => Some p | _ => None end) trace.

Definition installed (trace : list Event) : list Pool :=
  omap (fun e => match e with SetPoolCall p _ _ => Some p | _ => None end) trace.

Definition closed (trace : list Event) : list Pool :=
  omap (fun e => match e with Close p => Some p | _ => None end) trace.

(** Letters, digits, the underscore, the space, parentheses and the
    double quote. *)
Definition plainChar (c : ascii) : bool :=
  ((Go.byte "a" <=? Go.byte c) && (Go.byte c <=? Go.byte "z"))
  || ((Go.byte "A" <=? Go.byte c) && (Go.byte c <=? Go.byte "Z"))
  || ((Go.byte "0" <=? Go.byte c) && (Go.byte c <=? Go.byte "9"))
  || (Go.byte c =? Go.byte "_") || (Go.byte c =? Go.byte " ")
  || (Go.byte c =? Go.byte "(") || (Go.byte c =? Go.byte ")")
  || (Go.byte c =? Go.byte "034").

(** The outside answers every call of a request: the queries return
    rows, the connection is made, the ping is answered and the database
    accepts the statement. *)
Definition healthy (env : Env) : Prop :=
  is_Some (env_catalog env) ∧ env_connect env = true ∧ env_ping env = true
  ∧ (∀ query, env_exec env query = None)
  ∧ is_Some (rows_tables (env_rows env)) ∧ is_Some (rows_columns (env_rows env))
  ∧ is_Some (rows_foreignKeys (env_rows env)).

(** The reference of an add-column request, when it has both parts, is
    made of valid identifiers. *)
Definition wellReferenced (r : Request) : Prop :=
  match r with
  | AddColumnRequest _ (Some req) =>
    Spec.hasReference (columnDefOf req) = true →
    ValidIdentifier (col_ReferencesTable (columnDefOf req)) = true
    ∧ ValidIdentifier (col_ReferencesColumn (columnDefOf req)) = true
  | _ => True
  end.

(** A response is a success or a client error. *)
Definition notServerError (r : Response) : Prop :=
  match r with
  | JSON _ => True
  | Error _ _ status => status = StatusBadRequest
  end.

End Sent.

(** ** The server: the middleware around the routes *)

Module server.

Import schema middleware api.

(** The method of the pattern a route is registered with. *)
Definition routeMethod (target : Request) : string :=
  match target with
  | GetSchemaRequest | ListDatabasesRequest | GetTypesRequest => "GET"
  | SwitchDatabaseRequest _ | CreateTableRequest _ | AddColumnRequest _ _ => "POST"
  end.

(** What the mux of the API routes does with a request whose path is
    that of the route [target]: the handler runs when the method is the
    pattern's, a pattern with GET matching HEAD as well; any other
    method is answered with status 405. *)
Inductive Dispatched : Type :=
| Handled (out : World * list Event)
| MethodNotAllowed.

Definition apiMux (w : World) (env : Env) (target : Request) (r : HTTPRequest)
  : Dispatched :=
  if String.eqb (Method r) (routeMethod target)
     || (String.eqb (routeMethod target) "GET" && String.eqb (Method r) "HEAD")
  then Handled (serve w env target)
  else MethodNotAllowed.

(** A request through the chain of [RegisterRoutes]: the limiter, the
    CSRF check, the mux. *)
Definition handle (rl : RateLimiter) (c : CSRFMiddleware) (w : World)
    (order : list (string * list Z)) (now : Z) (env : Env) (target : Request)
    (r : HTTPRequest) : RateLimiter * Served (Served Dispatched) :=
  protected rl c order now (apiMux w env target) r.

End server.


(** * Properties *)

(** ** Runes and ranges *)

Section Utf8.

Import Go.

Lemma byte_range (c : ascii) : 0 <= byte c < 256.
Proof.
  unfold byte. pose proof (N_ascii_bounded c) as H. lia.
Qed.

Lemma lor_lower (a b : Z) : 0 <= a → 0 <= b → a <= Z.lor a b.
Proof.
  intros Ha Hb.
  pose proof (Zbitwise.Z.sub_lor_l_same_l b a) as Hsub.
  assert (0 <= Z.land b (Z.lnot a)) by (apply Z.land_nonneg; left; exact Hb).
  lia.
Qed.

Lemma land_nonneg_r (a m : Z) : 0 <= m → 0 <= Z.land a m.
Proof. intros Hm. apply Z.land_nonneg. right. exact Hm. Qed.

(** An ASCII byte decodes to itself, with width one. *)
Lemma decode_ascii (c : ascii) (t : string) :
  byte c < 0x80 → DecodeRuneInString (String c t) = (byte c, 1%nat).
Proof.
  intros Hc. unfold DecodeRuneInString, first.
  destruct (Z.ltb_spec (byte c) 0x80) as [_ | Hge]; [| lia].
  cbn [as_ Z.leb Z.compare Pos.compare Pos.compare_cont Z.testbit].
  change (as_ <=? as_) with true. cbn iota.
  change (Z.testbit as_ 0) with false. cbn iota.
  change (Z.lnot 0) with (-1).
  rewrite Z.land_m1_r, Z.land_0_r, Z.lor_0_r. reflexivity.
Qed.

Lemma shiftl_land_lower (b m k lo : Z) :
  0 <= m → 0 <= k → lo <= Z.land b m → lo * 2 ^ k <= Z.shiftl (Z.land b m) k.
Proof.
  intros Hm Hk Hlo. rewrite Z.shiftl_mul_pow2 by exact Hk.
  apply Z.mul_le_mono_nonneg_r; [apply Z.pow_nonneg; lia | exact Hlo].
Qed.

Lemma shiftl_land_nonneg (b m k : Z) : 0 <= m → 0 <= k → 0 <= Z.shiftl (Z.land b m) k.
Proof.
  intros Hm Hk. apply Z.shiftl_nonneg. apply land_nonneg_r; exact Hm.
Qed.

(** The low bits kept by a mask. *)
Lemma land_mask (b : Z) (n : Z) : 0 <= n → Z.land b (Z.ones n) = b mod 2 ^ n.
Proof. intros Hn. apply Z.land_ones; exact Hn. Qed.

Lemma lor_lower_r (a b : Z) : 0 <= a → 0 <= b → b <= Z.lor a b.
Proof. intros Ha Hb. rewrite Z.lor_comm. apply lor_lower; assumption. Qed.

Lemma lor_nonneg_2 (a b : Z) : 0 <= a → 0 <= b → 0 <= Z.lor a b.
Proof. intros Ha Hb. apply Z.lor_nonneg. split; assumption. Qed.

Lemma mask2_lower (b0 : Z) : 0xC2 <= b0 < 0xE0 → 2 <= Z.land b0 mask2.
Proof.
  intros H. change mask2 with (Z.ones 5). rewrite land_mask by lia.
  change (2 ^ 5) with 32. Z.div_mod_to_equations. lia.
Qed.

Lemma mask3_lower (b0 : Z) : 0xE1 <= b0 < 0xF0 → 1 <= Z.land b0 mask3.
Proof.
  intros H. change mask3 with (Z.ones 4). rewrite land_mask by lia.
  change (2 ^ 4) with 16. Z.div_mod_to_equations. lia.
Qed.

Lemma mask4_lower (b0 : Z) : 0xF1 <= b0 < 0xF8 → 1 <= Z.land b0 mask4.
Proof.
  intros H. change mask4 with (Z.ones 3). rewrite land_mask by lia.
  change (2 ^ 3) with 8. Z.div_mod_to_equations. lia.
Qed.

Lemma maskx_lower (b1 lo : Z) : 0x80 <= lo → lo <= b1 <= 0xBF → lo - 0x80 <= Z.land b1 maskx.
Proof.
  intros Hlo H. change maskx with (Z.ones 6). rewrite land_mask by lia.
  change (2 ^ 6) with 64. Z.div_mod_to_equations. lia.
Qed.

(** The value of a two-byte sequence. *)
Lemma rune2_lower (b0 b1 : Z) :
  0xC2 <= b0 < 0xE0 →
  0x80 <= Z.lor (Z.shiftl (Z.land b0 mask2) 6) (Z.land b1 maskx).
Proof.
  intros H0.
  pose proof (shiftl_land_lower b0 mask2 6 2 ltac:(unfold mask2; lia) ltac:(lia)
                (mask2_lower b0 H0)) as HA.
  pose proof (lor_lower (Z.shiftl (Z.land b0 mask2) 6) (Z.land b1 maskx)
                ltac:(lia) (land_nonneg_r b1 maskx ltac:(unfold maskx; lia))).
  change (2 ^ 6) with 64 in HA. lia.
Qed.

(** The value of a three-byte sequence: a lead byte [0xE0] needs a
    second byte of at least [0xA0]. *)
Lemma rune3_lower (b0 b1 b2 : Z) :
  0xE0 <= b0 < 0xF0 → (b0 = 0xE0 → 0xA0 <= b1 <= 0xBF) →
  0x80 <= Z.lor (Z.lor (Z.shiftl (Z.land b0 mask3) 12)
                       (Z.shiftl (Z.land b1 maskx) 6))
                (Z.land b2 maskx).
Proof.
  intros H0 H1.
  set (A := Z.shiftl (Z.land b0 mask3) 12).
  set (B := Z.shiftl (Z.land b1 maskx) 6).
  set (C := Z.land b2 maskx).
  assert (HA : 0 <= A) by (apply shiftl_land_nonneg; unfold mask3; lia).
  assert (HB : 0 <= B) by (apply shiftl_land_nonneg; unfold maskx; lia).
  assert (HC : 0 <= C) by (apply land_nonneg_r; unfold maskx; lia).
  pose proof (lor_lower A B HA HB).
  pose proof (lor_lower_r A B HA HB).
  pose proof (lor_lower (Z.lor A B) C (lor_nonneg_2 A B HA HB) HC).
  destruct (Z.eq_dec b0 0xE0) as [E | NE].
  - pose proof (shiftl_land_lower b1 maskx 6 (0xA0 - 0x80)
                  ltac:(unfold maskx; lia) ltac:(lia)
                  (maskx_lower b1 0xA0 ltac:(lia) (H1 E))) as HL.
    fold B in HL. change (2 ^ 6) with 64 in HL. lia.
  - pose proof (shiftl_land_lower b0 mask3 12 1
                  ltac:(unfold mask3; lia) ltac:(lia)
                  (mask3_lower b0 ltac:(lia))) as HL.
    fold A in HL. change (2 ^ 12) with 4096 in HL. lia.
Qed.

(** The value of a four-byte sequence: a lead byte [0xF0] needs a
    second byte of at least [0x90]. *)
Lemma rune4_lower (b0 b1 b2 b3 : Z) :
  0xF0 <= b0 < 0xF8 → (b0 = 0xF0 → 0x90 <= b1 <= 0xBF) →
  0x80 <= Z.lor (Z.lor (Z.lor (Z.shiftl (Z.land b0 mask4) 18)
                              (Z.shiftl (Z.land b1 maskx) 12))
                       (Z.shiftl (Z.land b2 maskx) 6))
                (Z.land b3 maskx).
Proof.
  intros H0 H1.
  set (A := Z.shiftl (Z.land b0 mask4) 18).
  set (B := Z.shiftl (Z.land b1 maskx) 12).
  set (C := Z.shiftl (Z.land b2 maskx) 6).
  set (D := Z.land b3 maskx).
  assert (HA : 0 <= A) by (apply shiftl_land_nonneg; unfold mask4; lia).
  assert (HB : 0 <= B) by (apply shiftl_land_nonneg; unfold maskx; lia).
  assert (HC : 0 <= C) by (apply shiftl_land_nonneg; unfold maskx; lia).
  assert (HD : 0 <= D) by (apply land_nonneg_r; unfold maskx; lia).
  pose proof (lor_lower A B HA HB).
  pose proof (lor_lower_r A B HA HB).
  pose proof (lor_nonneg_2 A B HA HB) as HAB.
  pose proof (lor_lower (Z.lor A B) C HAB HC).
  pose proof (lor_lower (Z.lor (Z.lor A B) C) D (lor_nonneg_2 _ C HAB HC) HD).
  destruct (Z.eq_dec b0 0xF0) as [E | NE].
  - pose proof (shiftl_land_lower b1 maskx 12 (0x90 - 0x80)
                  ltac:(unfold maskx; lia) ltac:(lia)
                  (maskx_lower b1 0x90 ltac:(lia) (H1 E))) as HL.
    fold B in HL. change (2 ^ 12) with 4096 in HL. lia.
  - pose proof (shiftl_land_lower b0 mask4 18 1
                  ltac:(unfold mask4; lia) ltac:(lia)
                  (mask4_lower b0 ltac:(lia))) as HL.
    fold A in HL. change (2 ^ 18) with 262144 in HL. lia.
Qed.

(** Evaluate the table look-ups once the row of [first] is known. *)
Ltac eval_row :=
  repeat match goal with
  | |- context [as_ <=? ?x] =>
      let v := eval vm_compute in (as_ <=? x) in change (as_ <=? x) with v
  | |- context [acceptRanges ?e] =>
      let v := eval vm_compute in (acceptRanges e) in change (acceptRanges e) with v
  | |- context [Z.to_nat ?e] =>
      let v := eval vm_compute in (Z.to_nat e) in change (Z.to_nat e) with v
  | |- context [Z.testbit ?x 0] =>
      let v := eval vm_compute in (Z.testbit x 0) in change (Z.testbit x 0) with v
  end;
  cbv beta iota zeta.

(** One step through the decoder: reduce, then conclude or split on
    the next test. *)
Ltac decode_step :=
  cbn [String.length Nat.ltb Nat.leb fst orb]; cbv iota;
  lazymatch goal with
  | |- _ <= RuneError => unfold RuneError; lia
  | |- _ <= Z.lor (Z.shiftl _ 6) _ => apply rune2_lower; lia
  | |- _ <= Z.lor (Z.lor (Z.shiftl _ 12) _) _ =>
      apply rune3_lower; unfold locb, hicb in *; lia
  | |- _ <= Z.lor (Z.lor (Z.lor _ _) _) _ =>
      apply rune4_lower; unfold locb, hicb in *; lia
  | |- context [(?x <? ?y) || (?u <? ?v)] =>
      destruct (Z.ltb_spec x y); destruct (Z.ltb_spec u v)
  | |- context [match ?t with EmptyString => _ | String _ _ => _ end] =>
      destruct t
  | |- context [if ?b then _ else _] => destruct b
  end.

(** A rune that starts at a byte outside ASCII is outside ASCII. *)
Lemma decode_nonascii (c : ascii) (t : string) :
  0x80 <= byte c → 0x80 <= fst (DecodeRuneInString (String c t)).
Proof.
  intros Hc. pose proof (byte_range c) as Hb.
  unfold DecodeRuneInString, first.
  repeat match goal with
  | |- context [if ?x <? ?y then _ else _] =>
      destruct (Z.ltb_spec x y); [try lia |]
  | |- context [if ?x =? ?y then _ else _] =>
      destruct (Z.eqb_spec x y); [try lia |]
  end.
  all: eval_row.
  all: try (change (Z.lnot (-1)) with 0; rewrite Z.land_0_r;
            change (Z.land RuneError (-1)) with RuneError;
            rewrite Z.lor_0_l).
  all: repeat decode_step.
Qed.

End Utf8.

(** ** The identifier validator *)

Section Identifier.

Import Go schema.

(** The body of the loop of [ValidIdentifier], true when the loop goes
    on. *)
Let loopBody : nat * Z → bool := fun '(i, r) =>
  if Nat.eqb i 0 then
    if negb (((rune "a" <=? r) && (r <=? rune "z")) || (r =? rune "_"))
    then false else true
  else
    if negb (((rune "a" <=? r) && (r <=? rune "z"))
             || ((rune "0" <=? r) && (r <=? rune "9"))
             || (r =? rune "_"))
    then false else true.

Lemma loopBody_nonascii (i : nat) (r : Z) : 0x80 <= r → loopBody (i, r) = false.
Proof.
  intros Hr. unfold loopBody, rune.
  change (byte "a") with 97. change (byte "z") with 122.
  change (byte "0") with 48. change (byte "9") with 57.
  change (byte "_") with 95.
  destruct (Nat.eqb i 0);
    repeat match goal with
    | |- context [?x <=? ?y] => destruct (Z.leb_spec x y); try lia
    | |- context [?x =? ?y] => destruct (Z.eqb_spec x y); try lia
    end; reflexivity.
Qed.

Lemma headClass_nonascii (c : ascii) : 0x80 <= byte c → Spec.headClass c = false.
Proof.
  intros Hc. unfold Spec.headClass.
  change (byte "a") with 97. change (byte "z") with 122.
  change (byte "_") with 95.
  repeat match goal with
  | |- context [?x <=? ?y] => destruct (Z.leb_spec x y); try lia
  | |- context [?x =? ?y] => destruct (Z.eqb_spec x y); try lia
  end; reflexivity.
Qed.

Lemma tailClass_nonascii (c : ascii) : 0x80 <= byte c → Spec.tailClass c = false.
Proof.
  intros Hc. unfold Spec.tailClass.
  change (byte "a") with 97. change (byte "z") with 122.
  change (byte "0") with 48. change (byte "9") with 57.
  change (byte "_") with 95.
  repeat match goal with
  | |- context [?x <=? ?y] => destruct (Z.leb_spec x y); try lia
  | |- context [?x =? ?y] => destruct (Z.eqb_spec x y); try lia
  end; reflexivity.
Qed.

(** One iteration of the range clause, at an ASCII byte and at any
    other byte. *)
Lemma rangeFrom_ascii (c : ascii) (t : string) (i : nat) :
  byte c < 0x80 →
  rangeFrom (String c t) i 0 = (i, byte c) :: rangeFrom t (S i) 0.
Proof.
  intros Hc. cbn [rangeFrom]. rewrite (decode_ascii c t Hc). reflexivity.
Qed.

Lemma rangeFrom_nonascii (c : ascii) (t : string) (i : nat) :
  0x80 <= byte c →
  ∃ r k, 0x80 <= r ∧ rangeFrom (String c t) i 0 = (i, r) :: rangeFrom t (S i) k.
Proof.
  intros Hc. pose proof (decode_nonascii c t Hc) as Hr.
  cbn [rangeFrom]. destruct (DecodeRuneInString (String c t)) as [r size].
  exists r, (Nat.pred size). split; [exact Hr | reflexivity].
Qed.

(** Past the first rune the loop checks the class [[a-z0-9_]] byte by
    byte. *)
Lemma loop_tail (s : string) : ∀ i : nat, i ≠ 0%nat →
  forallb loopBody (rangeFrom s i 0) = forallb Spec.tailClass (list_ascii_of_string s).
Proof.
  induction s as [| c t IH]; intros i Hi; [reflexivity |].
  cbn [list_ascii_of_string forallb].
  destruct (Z.lt_ge_cases (byte c) 0x80) as [Hlt | Hge].
  - rewrite (rangeFrom_ascii c t i Hlt). cbn [forallb].
    rewrite (IH (S i)) by lia. f_equal.
    unfold loopBody. destruct (Nat.eqb_spec i 0) as [-> | _]; [contradiction |].
    change (rune "a") with (byte "a"). change (rune "z") with (byte "z").
    change (rune "0") with (byte "0"). change (rune "9") with (byte "9").
    change (rune "_") with (byte "_"). fold (Spec.tailClass c).
    destruct (Spec.tailClass c); reflexivity.
  - destruct (rangeFrom_nonascii c t i Hge) as (r & k & Hr & ->).
    cbn [forallb]. rewrite (loopBody_nonascii i r Hr).
    rewrite (tailClass_nonascii c Hge). reflexivity.
Qed.

(** The whole loop checks the pattern. *)
Lemma loop_pattern (c : ascii) (t : string) :
  forallb loopBody (rangeString (String c t)) = Spec.matchesPattern (String c t).
Proof.
  unfold rangeString. cbn [Spec.matchesPattern].
  destruct (Z.lt_ge_cases (byte c) 0x80) as [Hlt | Hge].
  - rewrite (rangeFrom_ascii c t 0 Hlt). cbn [forallb].
    rewrite (loop_tail t 1) by lia. f_equal.
    unfold loopBody. cbn [Nat.eqb].
    change (rune "a") with (byte "a"). change (rune "z") with (byte "z").
    change (rune "_") with (byte "_"). fold (Spec.headClass c).
    destruct (Spec.headClass c); reflexivity.
  - destruct (rangeFrom_nonascii c t 0 Hge) as (r & k & Hr & ->).
    cbn [forallb]. rewrite (loopBody_nonascii 0 r Hr).
    rewrite (headClass_nonascii c Hge). reflexivity.
Qed.

Lemma ValidIdentifier_spec (s : string) :
  ValidIdentifier s = Spec.isValidIdentifier s.
Proof.
  unfold ValidIdentifier, Spec.isValidIdentifier.
  destruct s as [| c t]; [reflexivity |].
  change (String.eqb (String c t) EmptyString) with false. cbn [orb].
  fold loopBody. rewrite loop_pattern.
  destruct (Nat.ltb_spec 63 (String.length (String c t))) as [Hlong | Hshort].
  - destruct (Nat.leb_spec (String.length (String c t)) 63); [lia |].
    rewrite andb_false_r. reflexivity.
  - destruct (Nat.leb_spec (String.length (String c t)) 63); [| lia].
    rewrite andb_true_r. reflexivity.
Qed.

Lemma validIdentifier_same (s : string) : Legacy.validIdentifier s = ValidIdentifier s.
Proof. reflexivity. Qed.

End Identifier.

(** C1.  The identifier validator, in both its copies, returns true
    exactly for the strings that match [^[a-z_][a-z0-9_]*$] and have at
    most 63 bytes: it is true for every such string and false for every
    other string, the empty string among them. *)
Theorem ValidIdentifier_correct :
  (∀ s : string, schema.ValidIdentifier s = Spec.matchesPattern s && Nat.leb (String.length s) 63)
  ∧ (∀ s : string, Legacy.validIdentifier s = Spec.matchesPattern s && Nat.leb (String.length s) 63)
  ∧ schema.ValidIdentifier EmptyString = false
  ∧ Legacy.validIdentifier EmptyString = false.
Proof.
  split; [| split; [| split; reflexivity]].
  - intros s. apply ValidIdentifier_spec.
  - intros s. rewrite validIdentifier_same. apply ValidIdentifier_spec.
Qed.

(** The validator on the strings of sections 4.3 and 8: accepted names,
    then an uppercase letter, whitespace, a double quote, a semicolon, a
    byte outside ASCII, a leading digit, and 63 against 64 bytes. *)
Example ValidIdentifier_examples :
  schema.ValidIdentifier "users" = true
  ∧ schema.ValidIdentifier "_tmp_2" = true
  ∧ schema.ValidIdentifier "Users" = false
  ∧ schema.ValidIdentifier "my table" = false
  ∧ schema.ValidIdentifier ("a" +:+ schema.quote +:+ "b") = false
  ∧ schema.ValidIdentifier "a;b" = false
  ∧ schema.ValidIdentifier (String "a" (String "233"%char EmptyString)) = false
  ∧ schema.ValidIdentifier "9lives" = false
  ∧ schema.ValidIdentifier
      "a23456789012345678901234567890123456789012345678901234567890123" = true
  ∧ schema.ValidIdentifier
      "a234567890123456789012345678901234567890123456789012345678901234" = false.
Proof. vm_compute. repeat split. Qed.

(** ** Quoting and the allow-list *)

Section Sanitize.

Import Go schema.

Lemma append_assoc (a b c : string) : (a +:+ b) +:+ c = a +:+ (b +:+ c).
Proof.
  induction a as [| x a IH]; [reflexivity |].
  change (String x ((a +:+ b) +:+ c) = String x (a +:+ (b +:+ c))).
  rewrite IH. reflexivity.
Qed.

Lemma append_nil_r (a : string) : a +:+ EmptyString = a.
Proof.
  induction a as [| x a IH]; [reflexivity |].
  change (String x (a +:+ EmptyString) = String x a). rewrite IH. reflexivity.
Qed.

(** No byte of a class is the double quote. *)
Lemma tailClass_not_quote (c : ascii) :
  Spec.tailClass c = true → c ≠ "034"%char.
Proof. intros H ->. vm_compute in H. discriminate. Qed.

Lemma headClass_tailClass (c : ascii) : Spec.headClass c = true → Spec.tailClass c = true.
Proof.
  unfold Spec.headClass, Spec.tailClass. intros H.
  apply orb_true_iff in H as [H | H]; rewrite H; [reflexivity |].
  rewrite orb_true_r. reflexivity.
Qed.

(** [ReplaceAll] leaves a string without double quotes as it is. *)
Lemma replace_no_quote (s : string) :
  forallb Spec.tailClass (list_ascii_of_string s) = true →
  ReplaceAll s quote quotequote = s.
Proof.
  unfold ReplaceAll.
  induction s as [| c t IH]; intros H; [reflexivity |].
  cbn [list_ascii_of_string forallb] in H.
  apply andb_true_iff in H as [Hc Ht].
  cbn [replaceFrom]. unfold quote at 1. cbn [String.prefix].
  destruct (ascii_dec "034" c) as [E | _].
  - exfalso. exact (tailClass_not_quote c Hc (eq_sym E)).
  - rewrite (IH Ht). reflexivity.
Qed.

Lemma valid_tailClass (s : string) :
  ValidIdentifier s = true → forallb Spec.tailClass (list_ascii_of_string s) = true.
Proof.
  rewrite ValidIdentifier_spec. unfold Spec.isValidIdentifier.
  intros H. apply andb_true_iff in H as [H _].
  destruct s as [| c t]; [discriminate |].
  cbn [Spec.matchesPattern] in H. apply andb_true_iff in H as [Hc Ht].
  cbn [list_ascii_of_string forallb].
  rewrite (headClass_tailClass c Hc), Ht. reflexivity.
Qed.

(** A valid identifier is quoted by wrapping it in double quotes. *)
Lemma sanitizeIdentifier_valid (s : string) :
  ValidIdentifier s = true → sanitizeIdentifier s = Spec.quoted s.
Proof.
  intros H. unfold sanitizeIdentifier, Spec.quoted.
  rewrite (replace_no_quote s (valid_tailClass s H)). reflexivity.
Qed.

(** The map built from a list of types holds exactly their names. *)
Lemma index_fold (types : list TypeInfo) : ∀ (m : gmap string bool) (t : string),
  index (foldl (fun m t => <[Name t := true]> m) m types) t = true
  ↔ index m t = true ∨ In t (map Name types).
Proof.
  induction types as [| ty types IH]; intros m t; cbn [foldl map In].
  - tauto.
  - rewrite IH. unfold index.
    destruct (decide (Name ty = t)) as [E | NE].
    + rewrite E, lookup_insert_eq. cbn. tauto.
    + rewrite lookup_insert_ne by exact NE.
      split; intros [H | H]; auto. destruct H as [H | H]; [contradiction | auto].
Qed.

Lemma IsValidType_onAllowList (t : string) :
  IsValidType t = true ↔ Spec.onAllowList t.
Proof.
  unfold IsValidType, allowedTypesMap, buildAllowedTypesMap, buildAllowedTypesMapFrom.
  rewrite index_fold. unfold index. rewrite lookup_empty. cbn.
  unfold Spec.onAllowList. split; [intros [H | H]; [discriminate | exact H] | auto].
Qed.

Lemma sanitizeType_valid (t : string) : IsValidType t = true → sanitizeType t = Ok t.
Proof. unfold IsValidType, sanitizeType. intros ->. reflexivity. Qed.

Lemma sanitizeType_invalid (t : string) :
  IsValidType t = false → sanitizeType t = Err (Errorf_q "unsupported column type" t).
Proof. unfold IsValidType, sanitizeType. intros ->. reflexivity. Qed.

End Sanitize.

(** ** The add-column builder *)

Section Builder.

Import Go schema.

(** The foreign-key fields of a column definition are present: both
    non-empty. *)
Lemma hasReference_true (col : ColumnDef) :
  Spec.hasReference col = true
  ↔ col_ReferencesTable col ≠ EmptyString ∧ col_ReferencesColumn col ≠ EmptyString.
Proof.
  unfold Spec.hasReference. rewrite andb_true_iff, !negb_true_iff.
  rewrite !String.eqb_neq. tauto.
Qed.

(** With every check passed the builder returns the statement of
    section 4.4. *)
Lemma BuildAddColumnDDL_ok (tableName : string) (col : ColumnDef) :
  ValidIdentifier tableName = true →
  ValidIdentifier (col_Name col) = true →
  IsValidType (col_Type col) = true →
  (Spec.hasReference col = true →
   ValidIdentifier (col_ReferencesTable col) = true
   ∧ ValidIdentifier (col_ReferencesColumn col) = true) →
  BuildAddColumnDDL tableName col = Ok (Spec.addColumnStatement tableName col).
Proof.
  intros Ht Hn Hty Hfk.
  unfold BuildAddColumnDDL, Spec.addColumnStatement.
  rewrite Ht, Hn. cbn [negb].
  rewrite (sanitizeType_valid _ Hty).
  rewrite (sanitizeIdentifier_valid _ Ht), (sanitizeIdentifier_valid _ Hn).
  unfold mbind, result_bind, bind.
  fold (Spec.hasReference col).
  destruct (Spec.hasReference col) eqn:Href.
  - destruct (Hfk eq_refl) as [Hrt Hrc]. rewrite Hrt, Hrc. cbn [negb].
    rewrite (sanitizeIdentifier_valid _ Hrt), (sanitizeIdentifier_valid _ Hrc).
    unfold Spec.quoted.
    destruct (col_NotNull col), (col_PrimaryKey col), (col_Unique col);
      cbn [andb negb app Join String.concat];
      rewrite ?append_assoc, ?append_nil_r; reflexivity.
  - unfold Spec.quoted.
    destruct (col_NotNull col), (col_PrimaryKey col), (col_Unique col);
      cbn [andb negb app Join String.concat];
      rewrite ?append_assoc, ?append_nil_r; reflexivity.
Qed.

(** The builder, check by check: the first failed check decides the
    error, and the statement is that of section 4.4. *)
Lemma BuildAddColumnDDL_cases (tableName : string) (col : ColumnDef) :
  BuildAddColumnDDL tableName col =
    if negb (ValidIdentifier tableName) then Err (Errorf "invalid table name")
    else if negb (ValidIdentifier (col_Name col)) then
      Err (Errorf "invalid column name: must be lowercase letters, numbers, underscores, and start with letter or underscore")
    else if negb (IsValidType (col_Type col)) then
      Err (Errorf_q "unsupported column type" (col_Type col))
    else if Spec.hasReference col && negb (ValidIdentifier (col_ReferencesTable col)) then
      Err (Errorf "invalid foreign key table name")
    else if Spec.hasReference col && negb (ValidIdentifier (col_ReferencesColumn col)) then
      Err (Errorf "invalid foreign key column name")
    else Ok (Spec.addColumnStatement tableName col).
Proof.
  destruct (ValidIdentifier tableName) eqn:Ht; cbn [negb];
    [| unfold BuildAddColumnDDL; rewrite Ht; reflexivity].
  destruct (ValidIdentifier (col_Name col)) eqn:Hn; cbn [negb];
    [| unfold BuildAddColumnDDL; rewrite Ht, Hn; reflexivity].
  destruct (IsValidType (col_Type col)) eqn:Hty; cbn [negb];
    [| unfold BuildAddColumnDDL; rewrite Ht, Hn, (sanitizeType_invalid _ Hty);
       reflexivity].
  destruct (Spec.hasReference col) eqn:Href; cbn [andb];
    [| apply BuildAddColumnDDL_ok; auto; rewrite Href; discriminate].
  destruct (ValidIdentifier (col_ReferencesTable col)) eqn:Hrt; cbn [negb];
    [| unfold BuildAddColumnDDL; rewrite Ht, Hn, (sanitizeType_valid _ Hty);
       fold (Spec.hasReference col); rewrite Href, Hrt; reflexivity].
  destruct (ValidIdentifier (col_ReferencesColumn col)) eqn:Hrc; cbn [negb];
    [| unfold BuildAddColumnDDL; rewrite Ht, Hn, (sanitizeType_valid _ Hty);
       fold (Spec.hasReference col); rewrite Href, Hrt, Hrc; reflexivity].
  apply BuildAddColumnDDL_ok; auto.
Qed.

(** Whatever the builder returns as a statement is the statement of
    section 4.4, and every check passed. *)
Lemma BuildAddColumnDDL_Ok_inv (tableName : string) (col : ColumnDef) (stmt : string) :
  BuildAddColumnDDL tableName col = Ok stmt →
  stmt = Spec.addColumnStatement tableName col
  ∧ ValidIdentifier tableName = true
  ∧ ValidIdentifier (col_Name col) = true
  ∧ IsValidType (col_Type col) = true
  ∧ (Spec.hasReference col = true →
     ValidIdentifier (col_ReferencesTable col) = true
     ∧ ValidIdentifier (col_ReferencesColumn col) = true).
Proof.
  rewrite BuildAddColumnDDL_cases.
  destruct (ValidIdentifier tableName); cbn [negb]; [| discriminate].
  destruct (ValidIdentifier (col_Name col)); cbn [negb]; [| discriminate].
  destruct (IsValidType (col_Type col)); cbn [negb]; [| discriminate].
  destruct (Spec.hasReference col); cbn [andb].
  - destruct (ValidIdentifier (col_ReferencesTable col)); cbn [negb]; [| discriminate].
    destruct (ValidIdentifier (col_ReferencesColumn col)); cbn [negb]; [| discriminate].
    intros [= <-]. repeat split; auto.
  - intros [= <-]. repeat split; auto; discriminate.
Qed.

(** The column definition [AddColumn] builds from a request. *)
Lemma columnDefOf_fields (req : AddColumnRequest) :
  col_Name (columnDefOf req) = req_Name req
  ∧ col_Type (columnDefOf req) = req_Type req
  ∧ col_NotNull (columnDefOf req) = negb (req_Nullable req)
  ∧ col_PrimaryKey (columnDefOf req) = req_PrimaryKey req
  ∧ col_Unique (columnDefOf req) = req_Unique req
  ∧ col_ReferencesTable (columnDefOf req)
    = from_option fk_ReferencesTable EmptyString (req_ForeignKey req)
  ∧ col_ReferencesColumn (columnDefOf req)
    = from_option fk_ReferencesColumn EmptyString (req_ForeignKey req).
Proof. unfold columnDefOf. destruct (req_ForeignKey req); cbn; auto 10. Qed.

End Builder.

(** ** The add-column handler *)

Section AddColumnHandler.

Import Go schema api.





End AddColumnHandler.

(** C2.  For a valid table name, a valid column name, a type on the
    allow-list and foreign-key reference identifiers that are valid when
    present, the add-column builder returns exactly
    [ALTER TABLE "<table>" ADD COLUMN "<column>" <type>] followed in this
    order by [ NOT NULL] iff the column is not nullable, [ PRIMARY KEY]
    iff requested, [ UNIQUE] iff requested without primary key, and
    [ REFERENCES "<refTable>"("<refColumn>")] iff both reference fields
    are non-empty; the column is not nullable exactly when the request
    does not mark it nullable. *)
Theorem BuildAddColumnDDL_statement (tableName : string) (col : schema.ColumnDef) :
  schema.ValidIdentifier tableName = true →
  schema.ValidIdentifier (schema.col_Name col) = true →
  Spec.onAllowList (schema.col_Type col) →
  (schema.col_ReferencesTable col = EmptyString
   ∨ schema.ValidIdentifier (schema.col_ReferencesTable col) = true) →
  (schema.col_ReferencesColumn col = EmptyString
   ∨ schema.ValidIdentifier (schema.col_ReferencesColumn col) = true) →
  schema.BuildAddColumnDDL tableName col
  = schema.Ok
      ("ALTER TABLE " +:+ schema.quote +:+ tableName +:+ schema.quote
       +:+ " ADD COLUMN " +:+ schema.quote +:+ schema.col_Name col +:+ schema.quote
       +:+ " " +:+ schema.col_Type col
       +:+ (if schema.col_NotNull col then " NOT NULL" else EmptyString)
       +:+ (if schema.col_PrimaryKey col then " PRIMARY KEY" else EmptyString)
       +:+ (if schema.col_Unique col && negb (schema.col_PrimaryKey col)
            then " UNIQUE" else EmptyString)
       +:+ (if negb (String.eqb (schema.col_ReferencesTable col) EmptyString)
               && negb (String.eqb (schema.col_ReferencesColumn col) EmptyString)
            then " REFERENCES " +:+ schema.quote +:+ schema.col_ReferencesTable col
                 +:+ schema.quote +:+ "(" +:+ schema.quote
                 +:+ schema.col_ReferencesColumn col +:+ schema.quote +:+ ")"
            else EmptyString))
  ∧ (∀ req : schema.AddColumnRequest, col = schema.columnDefOf req →
       schema.col_NotNull col = negb (schema.req_Nullable req)).
Proof.
  intros Ht Hn Hty Hrt Hrc. split.
  - rewrite (BuildAddColumnDDL_ok tableName col Ht Hn).
    + unfold Spec.addColumnStatement, Spec.hasReference, Spec.quoted.
      rewrite ?append_assoc. reflexivity.
    + apply IsValidType_onAllowList. exact Hty.
    + intros Href. apply hasReference_true in Href as [Ht' Hc'].
      destruct Hrt as [E | Hrt]; [contradiction |].
      destruct Hrc as [E | Hrc]; [contradiction |]. auto.
  - intros req ->. apply (columnDefOf_fields req).
Qed.

Lemma BuildAddColumnDDL_statement_witness :
  schema.BuildAddColumnDDL "users"
    (schema.mkColumnDef "email" "text" true false true "orgs" "id")
  = schema.Ok
      ("ALTER TABLE " +:+ schema.quote +:+ "users" +:+ schema.quote
       +:+ " ADD COLUMN " +:+ schema.quote +:+ "email" +:+ schema.quote
       +:+ " text NOT NULL UNIQUE REFERENCES " +:+ schema.quote +:+ "orgs"
       +:+ schema.quote +:+ "(" +:+ schema.quote +:+ "id" +:+ schema.quote +:+ ")").
Proof.
  refine (proj1 (BuildAddColumnDDL_statement "users"
            (schema.mkColumnDef "email" "text" true false true "orgs" "id")
            _ _ _ _ _)).
  - reflexivity.
  - reflexivity.
  - unfold Spec.onAllowList. cbn. auto.
  - right. reflexivity.
  - right. reflexivity.
Defined.



(** The match with the allow-list is case-sensitive. *)
Example type_match_case_sensitive :
  schema.IsValidType "text" = true ∧ schema.IsValidType "Text" = false
  ∧ schema.IsValidType "TEXT" = false.
Proof. vm_compute. auto. Qed.

(** C4, as stated, fails: a request whose foreign key names an invalid
    reference table and an empty reference column is not rejected; the
    reference is dropped without validation and the statement is
    produced. *)
Lemma foreign_key_half_supplied_counterexample :
  schema.ValidIdentifier "Bad Name; DROP TABLE users" = false
  ∧ schema.AddColumn (schema.NewIntrospector (Some 0%nat) "app" 30000000000)
      (fun _ => None) "users"
      (schema.mkAddColumnRequest "owner_id" "integer" false false false
         (Some (schema.mkForeignKey "owner_id" "Bad Name; DROP TABLE users" EmptyString)))
    = ([schema.Exec (Some 0%nat)
          ("ALTER TABLE " +:+ schema.quote +:+ "users" +:+ schema.quote
           +:+ " ADD COLUMN " +:+ schema.quote +:+ "owner_id" +:+ schema.quote
           +:+ " integer NOT NULL")],
       None).
Proof. split; vm_compute; reflexivity. Qed.

(** C4, amended.  When both reference fields are non-empty each is run
    through the identifier validator, and if either is invalid the
    builder returns no statement; with valid table name, column name
    and type its error is the invalid-identifier error of the reference
    table or column.  When a reference field is empty the other is not
    looked at: the builder answers as for a column without reference.
    A statement returned carries the REFERENCES clause only when both
    fields are non-empty. *)
Theorem foreign_key_validated_when_supplied (tableName : string) (col : schema.ColumnDef) :
  (Spec.hasReference col = true →
   schema.ValidIdentifier (schema.col_ReferencesTable col) = false
   ∨ schema.ValidIdentifier (schema.col_ReferencesColumn col) = false →
   (∃ e, schema.BuildAddColumnDDL tableName col = schema.Err e)
   ∧ (schema.ValidIdentifier tableName = true →
      schema.ValidIdentifier (schema.col_Name col) = true →
      schema.IsValidType (schema.col_Type col) = true →
      ∃ e, schema.BuildAddColumnDDL tableName col = schema.Err e
           ∧ Spec.InvalidIdentifier e
           ∧ (e = schema.Errorf "invalid foreign key table name"
              ∨ e = schema.Errorf "invalid foreign key column name")))
  ∧ (Spec.hasReference col = false →
     schema.BuildAddColumnDDL tableName col
     = schema.BuildAddColumnDDL tableName
         (schema.mkColumnDef (schema.col_Name col) (schema.col_Type col)
            (schema.col_NotNull col) (schema.col_PrimaryKey col)
            (schema.col_Unique col) EmptyString EmptyString))
  ∧ (∀ stmt : string, schema.BuildAddColumnDDL tableName col = schema.Ok stmt →
       stmt = Spec.addColumnStatement tableName col).
Proof.
  split; [| split].
  - intros Href Hbad. rewrite BuildAddColumnDDL_cases, Href. cbn [andb]. split.
    + destruct (schema.ValidIdentifier tableName); cbn [negb]; [| eauto].
      destruct (schema.ValidIdentifier (schema.col_Name col)); cbn [negb]; [| eauto].
      destruct (schema.IsValidType (schema.col_Type col)); cbn [negb]; [| eauto].
      destruct (schema.ValidIdentifier (schema.col_ReferencesTable col));
        cbn [negb]; [| eauto].
      destruct (schema.ValidIdentifier (schema.col_ReferencesColumn col));
        cbn [negb]; [| eauto].
      destruct Hbad; discriminate.
    + intros -> -> ->. cbn [negb].
      destruct (schema.ValidIdentifier (schema.col_ReferencesTable col)); cbn [negb].
      * destruct (schema.ValidIdentifier (schema.col_ReferencesColumn col)); cbn [negb].
        -- destruct Hbad; discriminate.
        -- eexists. split; [reflexivity |]. unfold Spec.InvalidIdentifier. auto 10.
      * eexists. split; [reflexivity |]. unfold Spec.InvalidIdentifier. auto 10.
  - intros Href. rewrite !BuildAddColumnDDL_cases.
    unfold Spec.addColumnStatement. rewrite Href. reflexivity.
  - intros stmt H. apply (BuildAddColumnDDL_Ok_inv tableName col stmt H).
Qed.

Lemma foreign_key_validated_when_supplied_witness :
  (∃ e, schema.BuildAddColumnDDL "users"
          (schema.mkColumnDef "owner_id" "integer" true false false "Bad Name" "id")
        = schema.Err e ∧ Spec.InvalidIdentifier e)
  ∧ schema.BuildAddColumnDDL "users"
      (schema.mkColumnDef "owner_id" "integer" true false false "Bad Name" EmptyString)
    = schema.BuildAddColumnDDL "users"
        (schema.mkColumnDef "owner_id" "integer" true false false EmptyString EmptyString).
Proof.
  split.
  - destruct (foreign_key_validated_when_supplied "users"
                (schema.mkColumnDef "owner_id" "integer" true false false "Bad Name" "id"))
      as [H _].
    destruct (H eq_refl (or_introl eq_refl)) as [_ H'].
    destruct (H' eq_refl eq_refl eq_refl) as (e & He & Hk & _).
    exists e. split; assumption.
  - destruct (foreign_key_validated_when_supplied "users"
                (schema.mkColumnDef "owner_id" "integer" true false false "Bad Name"
                   EmptyString))
      as (_ & H & _).
    exact (H eq_refl).
Defined.




(** ** Durations and the timeout derivation *)

Section Timeout.

Import Go schema.

Lemma wrap64_range (z : Z) : minInt64 <= wrap64 z <= maxInt64.
Proof.
  unfold wrap64, minInt64, maxInt64.
  pose proof (Z.mod_pos_bound (z + 2 ^ 63) (2 ^ 64) ltac:(lia)). lia.
Qed.


(** A whole number of seconds is never the largest duration. *)
Lemma seconds_below_max (seconds : Z) : mulDuration seconds Second < maxDuration.
Proof.
  pose proof (wrap64_range (seconds * Second)) as Hr.
  unfold mulDuration, maxDuration in *.
  assert (wrap64 (seconds * Second) ≠ maxInt64); [| lia].
  unfold wrap64, maxInt64, Second.
  pose proof (Z.div_mod (seconds * 1000000000 + 2 ^ 63) (2 ^ 64) ltac:(lia)) as Hdm.
  change (2 ^ 63) with 9223372036854775808 in *.
  change (2 ^ 64) with 18446744073709551616 in *.
  lia.
Qed.

Lemma getDurationEnv_bounds (val : string) (defaultVal : Z) :
  minDuration <= defaultVal < maxDuration →
  minDuration <= config.getDurationEnv val defaultVal < maxDuration.
Proof.
  intros Hd. unfold config.getDurationEnv.
  destruct (String.eqb val EmptyString); [exact Hd |].
  destruct (Atoi val) as [seconds |]; [| exact Hd].
  split; [apply (wrap64_range (seconds * Second)) | apply seconds_below_max].
Qed.

(** The configured query timeout is a duration below the largest. *)
Lemma QueryTimeout_bounds (getenv : string → string) :
  minDuration <= config.QueryTimeout (config.Load getenv) < maxDuration.
Proof.
  cbn [config.Load config.QueryTimeout]. apply getDurationEnv_bounds.
  split; [apply (wrap64_range (30 * Second)) | apply seconds_below_max].
Qed.

Lemma WithDeadline_min (parent : Context) (d : Z) :
  Deadline (WithDeadline parent d)
  = Some (match Deadline parent with Some cur => Z.min cur d | None => d end).
Proof.
  unfold WithDeadline, WithCancel. destruct (Deadline parent) as [cur |] eqn:E.
  - destruct (Z.ltb_spec cur d); [rewrite E | cbn [Deadline]]; f_equal; lia.
  - reflexivity.
Qed.

(** [withTimeout] for any timeout below the largest duration: the
    deadline is the earlier of the parent's and now plus the timeout. *)
Lemma withTimeout_deadline (i : Introspector) (nowUntil nowTimeout : Z)
    (parent : Context) :
  minDuration <= queryTimeout i < maxDuration →
  nowUntil <= nowTimeout →
  Deadline (withTimeout i nowUntil nowTimeout parent)
  = Some (match Deadline parent with
          | Some d => Z.min d (nowTimeout + queryTimeout i)
          | None => nowTimeout + queryTimeout i
          end).
Proof.
  intros Hq Hnow. unfold withTimeout, WithTimeout.
  destruct (Deadline parent) as [d |] eqn:E.
  - destruct (Z.leb_spec (Until nowUntil d) (queryTimeout i)) as [Hle | Hgt].
    + unfold WithCancel. rewrite E. f_equal.
      unfold Until, Sub, minDuration, maxDuration, minInt64, maxInt64 in *.
      destruct (Z.ltb_spec (d - nowUntil) (- 2 ^ 63)); [lia |].
      destruct (Z.ltb_spec (2 ^ 63 - 1) (d - nowUntil)); lia.
    + rewrite WithDeadline_min, E. reflexivity.
  - rewrite WithDeadline_min, E. reflexivity.
Qed.

End Timeout.

(** C6.  [withTimeout] never extends a deadline.  For the configured
    query timeout and a clock that does not run backwards: when the
    parent has a deadline the result's deadline is the minimum of that
    deadline and now plus the query timeout, so it is never later than
    the parent's; when the parent's remaining time is at most the query
    timeout the parent's deadline is kept unchanged; when it is more the
    deadline is now plus the query timeout; without a parent deadline it
    is now plus the query timeout. *)
Theorem withTimeout_never_extends (getenv : string → string)
    (p : option schema.Pool) (name : string) (nowUntil nowTimeout : Z)
    (parent : Go.Context) :
  nowUntil <= nowTimeout →
  let timeout := config.QueryTimeout (config.Load getenv) in
  let ctx := schema.withTimeout (schema.NewIntrospector p name timeout)
               nowUntil nowTimeout parent in
  (∀ d : Z, Go.Deadline parent = Some d →
     Go.Deadline ctx = Some (Z.min d (nowTimeout + timeout))
     ∧ (∃ d' : Z, Go.Deadline ctx = Some d' ∧ d' <= d)
     ∧ (d - nowUntil <= timeout → Go.Deadline ctx = Some d)
     ∧ (d - nowTimeout <= timeout → Go.Deadline ctx = Some d)
     ∧ (timeout < d - nowTimeout → Go.Deadline ctx = Some (nowTimeout + timeout)))
  ∧ (Go.Deadline parent = None → Go.Deadline ctx = Some (nowTimeout + timeout)).
Proof.
  intros Hnow timeout ctx.
  pose proof (QueryTimeout_bounds getenv) as Hq. fold timeout in Hq.
  assert (Hd : Go.Deadline ctx
               = Some (match Go.Deadline parent with
                       | Some d => Z.min d (nowTimeout + timeout)
                       | None => nowTimeout + timeout
                       end)).
  { apply (withTimeout_deadline (schema.NewIntrospector p name timeout)); assumption. }
  split.
  - intros d E. rewrite E in Hd. rewrite Hd.
    split; [reflexivity |].
    split; [eexists; split; [reflexivity | lia] |].
    repeat split; intros H; f_equal; lia.
  - intros E. rewrite E in Hd. exact Hd.
Qed.

Lemma withTimeout_never_extends_witness :
  Go.Deadline
    (schema.withTimeout
       (schema.NewIntrospector (Some 0%nat) "app"
          (config.QueryTimeout (config.Load (fun _ => EmptyString))))
       1000 1001 (Go.mkContext (Some 5000001000)))
  = Some 5000001000.
Proof.
  destruct (withTimeout_never_extends (fun _ => EmptyString) (Some 0%nat) "app"
              1000 1001 (Go.mkContext (Some 5000001000)) ltac:(lia)) as [H _].
  destruct (H 5000001000 eq_refl) as (_ & _ & Hkeep & _).
  apply Hkeep. vm_compute. discriminate.
Defined.

(** ** Switching databases *)

Section Switch.

Import Go schema api.

Lemma foldl_snoc {A : Type} (l acc : list A) :
  foldl (fun acc x => acc ++ [x]) acc l = acc ++ l.
Proof.
  revert acc. induction l as [| x l IH]; intros acc; cbn [foldl].
  - rewrite app_nil_r. reflexivity.
  - rewrite IH, <- app_assoc. reflexivity.
Qed.

Lemma ListDatabases_Ok (i : Introspector) (catalog : list pg_database)
    (failure : Failure) :
  ListDatabases i (Some catalog) failure = Ok (listDatabasesQuery catalog).
Proof. unfold ListDatabases. rewrite foldl_snoc. reflexivity. Qed.

(** The names [ListDatabases] returns are the non-template databases
    of the catalog other than the three maintenance names. *)
Lemma listDatabasesQuery_elem (catalog : list pg_database) (name : string) :
  In name (listDatabasesQuery catalog)
  ↔ ∃ row, In row catalog ∧ datname row = name ∧ datistemplate row = false
           ∧ ¬ In name Spec.maintenanceDatabases.
Proof.
  unfold listDatabasesQuery. rewrite <- list_elem_of_In.
  rewrite merge_sort_Permutation, list_elem_of_fmap.
  split.
  - intros (row & -> & Hrow). apply list_elem_of_filter in Hrow as [[Ht Hn] Hin].
    exists row. split; [apply list_elem_of_In; exact Hin |].
    split; [reflexivity |]. split; [exact Ht |].
    rewrite <- list_elem_of_In. exact Hn.
  - intros (row & Hin & <- & Ht & Hn). exists row. split; [reflexivity |].
    apply list_elem_of_filter. split; [split; [exact Ht |] | apply list_elem_of_In; exact Hin].
    rewrite list_elem_of_In. exact Hn.
Qed.

Lemma allowedIn_In (databases : list string) (name : string) :
  allowedIn databases name = true ↔ In name databases.
Proof.
  induction databases as [| db rest IH]; cbn [allowedIn In].
  - split; [discriminate | contradiction].
  - destruct (String.eqb_spec db name) as [-> | NE]; [tauto |].
    rewrite IH. split; [auto | intros [E | H]; [contradiction | exact H]].
Qed.



(** The events of the close of the old pool. *)
Lemma closeOldPool_events (h : Handler) (env : Env) (oldPool : option Pool) :
  closeOldPool h env oldPool
  = match oldPool with
    | None => []
    | Some old =>
      [GoClose old; Wait (Trace.closeWait h env);
       match env_closeTakes env with
       | Some d => if d <=? closeTimeout h then Done old else TimedOut (closeTimeout h)
       | None => TimedOut (closeTimeout h)
       end;
       match env_closeTakes env with
       | Some d =>
         if d <=? closeTimeout h
         then Log "[INFO] Connection pool closed successfully" []
         else Log "[WARN] Connection pool close timed out after %v"
                [ArgDuration (closeTimeout h)]
       | None => Log "[WARN] Connection pool close timed out after %v"
                   [ArgDuration (closeTimeout h)]
       end]
    end.
Proof.
  unfold closeOldPool, Trace.closeWait. destruct oldPool as [old |]; [| reflexivity].
  destruct (env_closeTakes env) as [d |]; [| reflexivity].
  destruct (Z.leb_spec d (closeTimeout h)).
  - rewrite Z.min_l by lia. reflexivity.
  - rewrite Z.min_r by lia. reflexivity.
Qed.

(** A request that commits: the world and the events it leaves. *)
Lemma handleSwitchDatabase_commits (w : World) (env : Env)
    (body : option switchDatabaseRequest) :
  Trace.switchCommits env body = true →
  ∃ req catalog,
    body = Some req ∧ env_catalog env = Some catalog
    ∧ switch_Name req ≠ EmptyString
    ∧ In (switch_Name req) (listDatabasesQuery catalog)
    ∧ handleSwitchDatabase w env body
      = (mkWorld
           (mkHandler
              (mkIntrospector (Some (nextPool w)) (switch_Name req)
                 (queryTimeout (introspector (handler w))))
              (config (handler w)))
           (S (nextPool w)),
         [ListDatabasesCall (getPool (introspector (handler w)));
          NewPool (switch_Name req) (Some (nextPool w));
          Ping (nextPool w) true; Lock;
          SetPoolCall (nextPool w) (switch_Name req) (pool (introspector (handler w)))]
         ++ closeOldPool (handler w) env (pool (introspector (handler w)))
         ++ respondJSON (switchDatabaseData (switch_Name req))
         ++ [Unlock]).
Proof.
  unfold Trace.switchCommits. intros H.
  destruct body as [req |]; [| discriminate].
  destruct (env_catalog env) as [catalog |] eqn:Ecat; [| discriminate].
  apply andb_true_iff in H as [H Hping].
  apply andb_true_iff in H as [H Hconn].
  apply andb_true_iff in H as [Hname Hallowed].
  exists req, catalog.
  split; [reflexivity |]. split; [reflexivity |].
  split; [apply String.eqb_neq, negb_true_iff; exact Hname |].
  split; [apply allowedIn_In; exact Hallowed |].
  unfold handleSwitchDatabase.
  apply negb_true_iff in Hname. rewrite Hname, Ecat, ListDatabases_Ok.
  rewrite Hallowed, Hconn, Hping. reflexivity.
Qed.

(** A request that does not commit leaves the handler as it was: no
    swap, no close of a replaced pool, no time waited under the lock,
    and only error responses. *)
Lemma handleSwitchDatabase_aborts (w : World) (env : Env)
    (body : option switchDatabaseRequest) :
  Trace.switchCommits env body = false →
  handler (handleSwitchDatabase w env body).1 = handler w
  ∧ (nextPool w <= nextPool (handleSwitchDatabase w env body).1)%nat
  ∧ Trace.installedNames (handleSwitchDatabase w env body).2 = []
  ∧ Trace.replacedPools (handleSwitchDatabase w env body).2 = []
  ∧ Trace.closeInitiations (handleSwitchDatabase w env body).2 = []
  ∧ ∃ code message status,
      Trace.responses (handleSwitchDatabase w env body).2 = [Error code message status].
Proof.
  unfold Trace.switchCommits, handleSwitchDatabase. intros H.
  destruct body as [req |]; [| cbn; eauto 10].
  destruct (String.eqb (switch_Name req) EmptyString); [cbn; eauto 10 |].
  destruct (env_catalog env) as [catalog |]; [| cbn; eauto 10].
  rewrite ListDatabases_Ok. cbn [negb andb] in H.
  destruct (allowedIn (listDatabasesQuery catalog) (switch_Name req));
    cbn [negb andb] in *; [| cbn; eauto 10].
  destruct (env_connect env); cbn [negb andb] in *; [| cbn; eauto 10].
  destruct (env_ping env); cbn [negb andb] in *; [discriminate |].
  cbn. repeat split; eauto 10.
Qed.

(** Events that are neither swaps nor closes. *)
Lemma omap_fmap_None {X B : Type} (g : X → Event) (f : Event → option B)
    (l : list X) :
  (∀ x, f (g x) = None) → omap f (g <$> l) = [].
Proof.
  intros H. induction l as [| x l IH]; [reflexivity |].
  cbn [fmap list_fmap omap list_omap]. rewrite H. exact IH.
Qed.

(** The handlers other than the switch leave the handler alone. *)
Lemma serve_other (w : World) (env : Env) (r : Request) :
  (∀ body, r ≠ SwitchDatabaseRequest body) →
  (serve w env r).1 = w
  ∧ Trace.installedNames (serve w env r).2 = []
  ∧ Trace.replacedPools (serve w env r).2 = []
  ∧ Trace.closeInitiations (serve w env r).2 = [].
Proof.
  intros Hr.
  unfold Trace.installedNames, Trace.replacedPools, Trace.closeInitiations.
  destruct r as [| | | body | body | tableName body]; cbn [serve].
  - unfold handleGetSchema.
    destruct (GetSchema _ _ _) as [queries [s | e]]; cbn [fst snd];
      rewrite !omap_app, !omap_fmap_None by reflexivity; auto.
  - unfold handleListDatabases.
    destruct (ListDatabases _ _ _); cbn; auto.
  - cbn. auto.
  - exfalso. exact (Hr body eq_refl).
  - unfold handleCreateTable, validateIdentifier.
    destruct body as [req |]; [| cbn; auto].
    destruct (String.eqb (create_Name req) EmptyString); [cbn; auto |].
    destruct (ValidIdentifier (create_Name req)); cbn [negb]; [| cbn; auto].
    destruct (CreateTable _ _ _) as [calls [e |]]; cbn [fst snd];
      rewrite !omap_app, !omap_fmap_None by reflexivity; auto.
  - unfold handleAddColumn, validateIdentifier.
    destruct (String.eqb tableName EmptyString); [cbn; auto |].
    destruct (ValidIdentifier tableName); cbn [negb]; [| cbn; auto].
    destruct body as [req |]; [| cbn; auto].
    destruct (String.eqb (req_Name req) EmptyString); [cbn; auto |].
    destruct (ValidIdentifier (req_Name req)); cbn [negb]; [| cbn; auto].
    destruct (String.eqb (req_Type req) EmptyString); [cbn; auto |].
    destruct (IsValidType (req_Type req)); cbn [negb]; [| cbn; auto].
    destruct (AddColumn _ _ _ _) as [calls [e |]]; cbn [fst snd];
      rewrite !omap_app, !omap_fmap_None by reflexivity; auto.
Qed.

(** What a committing switch installs, replaces and closes. *)
Lemma commit_observed (w : World) (env : Env) (body : option switchDatabaseRequest) :
  Trace.switchCommits env body = true →
  ∃ req catalog,
    body = Some req ∧ env_catalog env = Some catalog
    ∧ In (switch_Name req) (listDatabasesQuery catalog)
    ∧ pool (introspector (handler (handleSwitchDatabase w env body).1))
      = Some (nextPool w)
    ∧ dbName (introspector (handler (handleSwitchDatabase w env body).1))
      = switch_Name req
    ∧ config (handler (handleSwitchDatabase w env body).1) = config (handler w)
    ∧ nextPool (handleSwitchDatabase w env body).1 = S (nextPool w)
    ∧ Trace.installedNames (handleSwitchDatabase w env body).2 = [switch_Name req]
    ∧ Trace.replacedPools (handleSwitchDatabase w env body).2
      = option_list (pool (introspector (handler w)))
    ∧ Trace.closeInitiations (handleSwitchDatabase w env body).2
      = option_list (pool (introspector (handler w)))
    ∧ Trace.lockHeldFor (handleSwitchDatabase w env body).2
      = match pool (introspector (handler w)) with
        | Some _ => Trace.closeWait (handler w) env
        | None => 0
        end.
Proof.
  intros H.
  destruct (handleSwitchDatabase_commits w env body H)
    as (req & catalog & -> & Ecat & _ & Hin & ->).
  exists req, catalog. rewrite closeOldPool_events.
  destruct (pool (introspector (handler w))) as [old |];
    cbn; repeat split; auto; try lia.
  all: destruct (env_closeTakes env) as [d |];
    try destruct (d <=? closeTimeout (handler w)); cbn; solve [reflexivity | lia].
Qed.

Lemma serveAll_cons (w : World) (env : Env) (r : Request) (rest : list (Env * Request)) :
  (serveAll w ((env, r) :: rest)).1 = (serveAll (serve w env r).1 rest).1
  ∧ (serveAll w ((env, r) :: rest)).2
    = (serve w env r).2 ++ (serveAll (serve w env r).1 rest).2.
Proof.
  cbn [serveAll]. destruct (serve w env r) as [w1 t1]. cbn [fst snd].
  destruct (serveAll w1 rest) as [w2 t2]. split; reflexivity.
Qed.

(** One request either is a committing switch or changes nothing. *)
Lemma serve_step (w : World) (env : Env) (r : Request) :
  (∃ body, r = SwitchDatabaseRequest body ∧ Trace.switchCommits env body = true)
  ∨ (handler (serve w env r).1 = handler w
     ∧ (nextPool w <= nextPool (serve w env r).1)%nat
     ∧ Trace.installedNames (serve w env r).2 = []
     ∧ Trace.replacedPools (serve w env r).2 = []
     ∧ Trace.closeInitiations (serve w env r).2 = []).
Proof.
  destruct r as [| | | body | body | tableName body].
  4: { destruct (Trace.switchCommits env body) eqn:E; [left; eauto |].
       right. cbn [serve].
       destruct (handleSwitchDatabase_aborts w env body E) as (H1 & H2 & H3 & H4 & H5 & _).
       auto. }
  all: right;
    match goal with |- context [serve ?w0 ?env0 ?r] =>
      destruct (serve_other w0 env0 r ltac:(intros ?; discriminate)) as (-> & H1 & H2 & H3)
    end; auto.
Qed.


(** Across any run of requests the database name stays what it was or
    becomes a name that one of the switch requests found listed: the
    name of a non-template row of the catalog, and no maintenance
    database. *)
Lemma serveAll_database (reqs : list (Env * Request)) : ∀ w : World,
  CurrentDatabase (introspector (handler (serveAll w reqs).1))
  = CurrentDatabase (introspector (handler w))
  ∨ (¬ In (CurrentDatabase (introspector (handler (serveAll w reqs).1)))
         Spec.maintenanceDatabases
     ∧ ∃ env body catalog row,
         In (env, SwitchDatabaseRequest body) reqs
         ∧ env_catalog env = Some catalog
         ∧ In row catalog
         ∧ datname row
           = CurrentDatabase (introspector (handler (serveAll w reqs).1))
         ∧ datistemplate row = false).
Proof.
  induction reqs as [| [env r] rest IH]; intros w; [left; reflexivity |].
  destruct (serveAll_cons w env r rest) as [-> _].
  destruct (serve_step w env r) as [(body & -> & Hc) | (Hh & _)].
  - cbn [serve].
    destruct (commit_observed w env body Hc)
      as (req & catalog & _ & Ecat & Hin & _ & Hd & _).
    apply listDatabasesQuery_elem in Hin as (row & Hrow & Hn & Ht & Hno).
    right. destruct (IH (handleSwitchDatabase w env body).1) as [E | [H Hex]].
    + unfold CurrentDatabase in *. rewrite E, Hd. split; [exact Hno |].
      exists env, body, catalog, row. cbn [In]. auto 10.
    + split; [exact H |].
      destruct Hex as (env' & body' & catalog' & row' & Hin' & Hrest).
      exists env', body', catalog', row'. cbn [In]. auto.
  - destruct (IH (serve w env r).1) as [E | [H Hex]].
    + left. rewrite E, Hh. reflexivity.
    + right. split; [exact H |].
      destruct Hex as (env' & body' & catalog' & row' & Hin' & Hrest).
      exists env', body', catalog', row'. cbn [In]. auto.
Qed.





End Switch.

(** The names listed for the example catalog, in order. *)
Example listDatabases_example :
  schema.ListDatabases (api.introspector (api.handler Examples.world))
    (Some Examples.catalog) (schema.mkFailure schema.AtQuery (schema.External "EOF"))
  = schema.Ok ["app"; "shop"].
Proof. vm_compute. reflexivity. Qed.

(** C5.  A switch request that fails at pool creation or at the ping of
    the candidate database leaves the handler, and so the live pool and
    database name, unchanged: [SetPool] is not called, [CurrentDatabase]
    still returns the name from before, and the one response sent is a
    connection error. *)
Theorem failed_switch_keeps_pair (w : api.World) (env : api.Env)
    (req : api.switchDatabaseRequest) (catalog : list schema.pg_database) :
  api.switch_Name req ≠ EmptyString →
  api.env_catalog env = Some catalog →
  In (api.switch_Name req) (schema.listDatabasesQuery catalog) →
  api.env_connect env = false ∨ api.env_ping env = false →
  api.handler (api.handleSwitchDatabase w env (Some req)).1 = api.handler w
  ∧ schema.getPool (api.introspector (api.handler (api.handleSwitchDatabase w env (Some req)).1))
    = schema.getPool (api.introspector (api.handler w))
  ∧ schema.CurrentDatabase
      (api.introspector (api.handler (api.handleSwitchDatabase w env (Some req)).1))
    = schema.CurrentDatabase (api.introspector (api.handler w))
  ∧ Trace.installedNames (api.handleSwitchDatabase w env (Some req)).2 = []
  ∧ ∃ message : string,
      Trace.responses (api.handleSwitchDatabase w env (Some req)).2
      = [api.Error api.ErrConnectionError message api.StatusInternalServerError].
Proof.
  intros Hname Ecat Hin Hfail.
  assert (Habort : Trace.switchCommits env (Some req) = false).
  { unfold Trace.switchCommits. rewrite Ecat.
    destruct Hfail as [-> | ->]; rewrite ?andb_false_r; reflexivity. }
  destruct (handleSwitchDatabase_aborts w env (Some req) Habort) as (Hh & _ & Hi & _).
  rewrite Hh. repeat split; try assumption.
  unfold api.handleSwitchDatabase.
  apply String.eqb_neq in Hname. rewrite Hname, Ecat, ListDatabases_Ok.
  apply allowedIn_In in Hin. rewrite Hin. cbn [negb].
  destruct Hfail as [-> | Hping].
  - cbn. eauto.
  - destruct (api.env_connect env); cbn [negb]; [rewrite Hping |]; cbn; eauto.
Qed.

Lemma failed_switch_keeps_pair_witness :
  schema.CurrentDatabase
    (api.introspector
       (api.handler
          (api.handleSwitchDatabase Examples.world (Examples.env true false None)
             (Examples.switchTo "shop")).1))
  = "app".
Proof.
  destruct (failed_switch_keeps_pair Examples.world (Examples.env true false None)
              (api.mkSwitchDatabaseRequest "shop") Examples.catalog)
    as (_ & _ & H & _).
  - discriminate.
  - reflexivity.
  - vm_compute. auto.
  - right. reflexivity.
  - exact H.
Defined.







(** C10.  The database name is replaced only by a name that
    [ListDatabases] returned for this very request: a name of a
    non-template row of the catalog other than postgres, template0 and
    template1.  A request that names a database not listed is answered
    with the unknown-database error before any pool is asked for.  So
    across any run of requests [CurrentDatabase] is the name it started
    with, or the name of a non-template row of the catalog of one of
    the switch requests and none of the three. *)
Theorem current_database_is_listed :
  (∀ (w : api.World) (env : api.Env) (body : option api.switchDatabaseRequest)
     (name : string),
     In name (Trace.installedNames (api.handleSwitchDatabase w env body).2) →
     ∃ catalog,
       api.env_catalog env = Some catalog
       ∧ In name (schema.listDatabasesQuery catalog)
       ∧ (∃ row, In row catalog ∧ schema.datname row = name
                 ∧ schema.datistemplate row = false)
       ∧ ¬ In name Spec.maintenanceDatabases
       ∧ schema.CurrentDatabase
           (api.introspector (api.handler (api.handleSwitchDatabase w env body).1))
         = name)
  ∧ (∀ (w : api.World) (env : api.Env) (req : api.switchDatabaseRequest)
       (catalog : list schema.pg_database),
       api.switch_Name req ≠ EmptyString →
       api.env_catalog env = Some catalog →
       ¬ In (api.switch_Name req) (schema.listDatabasesQuery catalog) →
       api.handleSwitchDatabase w env (Some req)
       = (w, [api.ListDatabasesCall
                (schema.getPool (api.introspector (api.handler w)));
              api.Log "[%s] %s"
        [api.ArgString api.ErrUnknownDatabase; api.ArgString "Database not found"];
              api.Respond (api.Error api.ErrUnknownDatabase "Database not found"
                             api.StatusBadRequest)])
       ∧ Trace.poolRequests (api.handleSwitchDatabase w env (Some req)).2 = [])
  ∧ (∀ (catalog : list schema.pg_database) (name : string),
       In name Spec.maintenanceDatabases →
       ¬ In name (schema.listDatabasesQuery catalog))
  ∧ (∀ (w : api.World) (reqs : list (api.Env * api.Request)),
       schema.CurrentDatabase (api.introspector (api.handler (api.serveAll w reqs).1))
       = schema.CurrentDatabase (api.introspector (api.handler w))
       ∨ (¬ In (schema.CurrentDatabase
                  (api.introspector (api.handler (api.serveAll w reqs).1)))
               Spec.maintenanceDatabases
          ∧ ∃ env body catalog row,
              In (env, api.SwitchDatabaseRequest body) reqs
              ∧ api.env_catalog env = Some catalog
              ∧ In row catalog
              ∧ schema.datname row
                = schema.CurrentDatabase
                    (api.introspector (api.handler (api.serveAll w reqs).1))
              ∧ schema.datistemplate row = false)).
Proof.
  split; [| split; [| split]].
  - intros w env body name Hin.
    destruct (Trace.switchCommits env body) eqn:Hc.
    + destruct (commit_observed w env body Hc)
        as (req & catalog & _ & Ecat & Hl & _ & Hd & _ & _ & Hi & _).
      rewrite Hi in Hin. destruct Hin as [<- | []].
      exists catalog. split; [exact Ecat |]. split; [exact Hl |].
      pose proof Hl as Hrow. apply listDatabasesQuery_elem in Hrow
        as (row & Hr & Hn & Ht & Hno).
      split; [exists row; auto |]. split; [exact Hno | exact Hd].
    + destruct (handleSwitchDatabase_aborts w env body Hc) as (_ & _ & Hi & _).
      rewrite Hi in Hin. destruct Hin.
  - intros w env req catalog Hname Ecat Hno.
    unfold api.handleSwitchDatabase.
    apply String.eqb_neq in Hname. rewrite Hname, Ecat, ListDatabases_Ok.
    destruct (api.allowedIn (schema.listDatabasesQuery catalog) (api.switch_Name req))
      eqn:Ha.
    + exfalso. apply Hno. apply allowedIn_In. exact Ha.
    + cbn. split; reflexivity.
  - intros catalog name Hm Hin.
    apply listDatabasesQuery_elem in Hin as (row & _ & _ & _ & Hno). exact (Hno Hm).
  - intros w reqs. apply serveAll_database.
Qed.

Lemma current_database_is_listed_witness :
  api.handleSwitchDatabase Examples.world (Examples.env true true None)
    (Examples.switchTo "postgres")
  = (Examples.world,
     [api.ListDatabasesCall (Some 0%nat);
      api.Log "[%s] %s"
        [api.ArgString api.ErrUnknownDatabase; api.ArgString "Database not found"];
      api.Respond (api.Error api.ErrUnknownDatabase "Database not found"
                     api.StatusBadRequest)]).
Proof.
  destruct current_database_is_listed as (_ & H & Hm & _).
  destruct (H Examples.world (Examples.env true true None)
              (api.mkSwitchDatabaseRequest "postgres") Examples.catalog) as [E _].
  - discriminate.
  - reflexivity.
  - apply Hm. cbn. auto.
  - exact E.
Defined.

(** ** The examples of section 8 *)

Example buildCreateTable_users :
  schema.BuildCreateTableDDL "users"
  = schema.Ok ("CREATE TABLE " +:+ schema.quote +:+ "users" +:+ schema.quote
               +:+ " (id SERIAL PRIMARY KEY)").
Proof. vm_compute. reflexivity. Qed.

Example buildCreateTable_uppercase :
  schema.BuildCreateTableDDL "Users"
  = schema.Err (schema.Errorf "invalid table name: must be lowercase letters, numbers, underscores, and start with letter or underscore").
Proof. vm_compute. reflexivity. Qed.

Example buildAddColumn_email :
  schema.BuildAddColumnDDL "users"
    (schema.columnDefOf (schema.mkAddColumnRequest "email" "text" false false false None))
  = schema.Ok ("ALTER TABLE " +:+ schema.quote +:+ "users" +:+ schema.quote
               +:+ " ADD COLUMN " +:+ schema.quote +:+ "email" +:+ schema.quote
               +:+ " text NOT NULL").
Proof. vm_compute. reflexivity. Qed.

Example getSchema_no_tables :
  schema.GetSchema (schema.NewIntrospector (Some 0%nat) "app" 30000000000)
    (schema.mkSchemaRows (Some []) (Some []) (Some []))
    (schema.mkFailure schema.AtQuery (schema.External "EOF"))
  = ([schema.QueryTables], schema.Ok (schema.mkSchema [])).
Proof. reflexivity. Qed.

(** ** The earlier mutation path

    The validator is the same, and the statement is the same for the
    three types the earlier [sanitizeType] knew; any other type was
    replaced by text, and the foreign key was quoted without being
    validated. *)

Example legacy_type_defaults_to_text :
  Legacy.sanitizeType "integer" = "text"
  ∧ Legacy.AddColumn (schema.NewIntrospector (Some 0%nat) "app" 30000000000)
      (fun _ => None) "users"
      (schema.mkAddColumnRequest "age" "integer" false false false None)
    = ([schema.Exec (Some 0%nat)
          ("ALTER TABLE " +:+ schema.quote +:+ "users" +:+ schema.quote
           +:+ " ADD COLUMN " +:+ schema.quote +:+ "age" +:+ schema.quote
           +:+ " text NOT NULL")],
       None).
Proof. split; vm_compute; reflexivity. Qed.

Example legacy_foreign_key_not_validated :
  schema.ValidIdentifier "Orgs" = false
  ∧ Legacy.AddColumn (schema.NewIntrospector (Some 0%nat) "app" 30000000000)
      (fun _ => None) "users"
      (schema.mkAddColumnRequest "org_id" "numeric" true false false
         (Some (schema.mkForeignKey "org_id" "Orgs" "id")))
    = ([schema.Exec (Some 0%nat)
          ("ALTER TABLE " +:+ schema.quote +:+ "users" +:+ schema.quote
           +:+ " ADD COLUMN " +:+ schema.quote +:+ "org_id" +:+ schema.quote
           +:+ " numeric REFERENCES " +:+ schema.quote +:+ "Orgs" +:+ schema.quote
           +:+ "(" +:+ schema.quote +:+ "id" +:+ schema.quote +:+ ")")],
       None).
Proof. split; vm_compute; reflexivity. Qed.

(** X23. For the three types it knew, and with reference identifiers that
    are valid when both are given, the earlier [AddColumn] sent the
    statement of section 4.4. *)
Lemma Legacy_AddColumn_statement (i : schema.Introspector)
    (exec : string → option schema.error) (tableName : string)
    (req : schema.AddColumnRequest) :
  schema.ValidIdentifier tableName = true →
  schema.ValidIdentifier (schema.req_Name req) = true →
  In (schema.req_Type req) ["text"; "date"; "numeric"] →
  (Spec.hasReference (schema.columnDefOf req) = true →
   schema.ValidIdentifier (schema.col_ReferencesTable (schema.columnDefOf req)) = true
   ∧ schema.ValidIdentifier (schema.col_ReferencesColumn (schema.columnDefOf req)) = true) →
  Legacy.AddColumn i exec tableName req
  = ([schema.Exec (schema.getPool i)
        (Spec.addColumnStatement tableName (schema.columnDefOf req))],
     exec (Spec.addColumnStatement tableName (schema.columnDefOf req))).
Proof.
  intros Ht Hn Hty Hfk.
  assert (Hsafe : Legacy.sanitizeType (schema.req_Type req) = schema.req_Type req).
  { destruct Hty as [<- | [<- | [<- | []]]]; vm_compute; reflexivity. }
  assert (Hq : ∀ s, schema.ValidIdentifier s = true →
                    Legacy.sanitizeIdentifier s = Spec.quoted s).
  { intros s Hs. exact (sanitizeIdentifier_valid s Hs). }
  unfold Legacy.AddColumn.
  change Legacy.validIdentifier with schema.ValidIdentifier.
  rewrite Ht, Hn. cbn [negb].
  rewrite Hsafe, (Hq _ Ht), (Hq _ Hn).
  assert (E : ∀ q q' : string, q = q' →
            ([schema.Exec (schema.getPool i) q], exec q)
            = ([schema.Exec (schema.getPool i) q'], exec q')) by (intros q q' ->; reflexivity).
  apply E. clear E.
  unfold Spec.addColumnStatement, Spec.hasReference in *.
  unfold schema.columnDefOf in *.
  destruct (schema.req_ForeignKey req) as [fk |]; cbn [schema.col_Name schema.col_Type
    schema.col_NotNull schema.col_PrimaryKey schema.col_Unique
    schema.col_ReferencesTable schema.col_ReferencesColumn] in *.
  - destruct (negb (String.eqb (schema.fk_ReferencesTable fk) EmptyString)
              && negb (String.eqb (schema.fk_ReferencesColumn fk) EmptyString)).
    + destruct (Hfk eq_refl) as [Hrt Hrc]. rewrite (Hq _ Hrt), (Hq _ Hrc).
      unfold Spec.quoted.
      destruct (schema.req_Nullable req), (schema.req_PrimaryKey req),
        (schema.req_Unique req); cbn [andb negb];
        rewrite ?append_assoc, ?append_nil_r; reflexivity.
    + unfold Spec.quoted.
      destruct (schema.req_Nullable req), (schema.req_PrimaryKey req),
        (schema.req_Unique req); cbn [andb negb];
        rewrite ?append_assoc, ?append_nil_r; reflexivity.
  - cbn [String.eqb negb andb]. unfold Spec.quoted.
    destruct (schema.req_Nullable req), (schema.req_PrimaryKey req),
      (schema.req_Unique req); cbn [andb negb];
      rewrite ?append_assoc, ?append_nil_r; reflexivity.
Qed.

(** * The request-security middleware *)

Section Csrf.

Import Go middleware.

Lemma byte_inj (a b : ascii) : byte a = byte b → a = b.
Proof.
  unfold byte. intros H. apply N2Z.inj in H.
  rewrite <- (ascii_N_embedding a), <- (ascii_N_embedding b). congruence.
Qed.

Lemma below_pow2 (a n : Z) : 0 <= n → 0 <= a → (a < 2 ^ n ↔ a = 0 ∨ Z.log2 a < n).
Proof.
  intros Hn Ha. destruct (Z.eq_dec a 0) as [-> | Hne].
  - split; [auto |]. intros _. apply Z.pow_pos_nonneg; lia.
  - rewrite (Z.log2_lt_pow2 a n) by lia. intuition lia.
Qed.

Lemma lor_range (n a b : Z) :
  0 <= n → 0 <= a < 2 ^ n → 0 <= b < 2 ^ n → 0 <= Z.lor a b < 2 ^ n.
Proof.
  intros Hn [Ha Ha'] [Hb Hb']. split; [apply Z.lor_nonneg; lia |].
  apply below_pow2 in Ha', Hb'; try lia.
  apply below_pow2; [lia | apply Z.lor_nonneg; lia |].
  destruct Ha' as [-> | Ha']; [rewrite Z.lor_0_l; auto |].
  destruct Hb' as [-> | Hb']; [rewrite Z.lor_0_r; auto |].
  right. rewrite Z.log2_lor by lia. lia.
Qed.

Lemma lxor_range (n a b : Z) :
  0 <= n → 0 <= a < 2 ^ n → 0 <= b < 2 ^ n → 0 <= Z.lxor a b < 2 ^ n.
Proof.
  intros Hn [Ha Ha'] [Hb Hb']. split; [apply Z.lxor_nonneg; lia |].
  apply below_pow2 in Ha', Hb'; try lia.
  apply below_pow2; [lia | apply Z.lxor_nonneg; lia |].
  destruct Ha' as [-> | Ha']; [rewrite Z.lxor_0_l; auto |].
  destruct Hb' as [-> | Hb']; [rewrite Z.lxor_0_r; auto |].
  pose proof (Z.log2_lxor a b Ha Hb). destruct (Z.eq_dec (Z.lxor a b) 0); [auto | right; lia].
Qed.

Lemma xorBytes_range (x : string) : ∀ (y : string) (v : Z),
  0 <= v < 256 → 0 <= xorBytes x y v < 256.
Proof.
  induction x as [| a x IH]; intros y v Hv; [assumption |].
  destruct y as [| b y]; [assumption |]. cbn [xorBytes]. apply IH.
  apply (lor_range 8); [lia | exact Hv |].
  apply (lxor_range 8); [lia | apply byte_range | apply byte_range].
Qed.

Lemma xorBytes_zero (x : string) : ∀ (y : string) (v : Z),
  String.length x = String.length y → 0 <= v →
  (xorBytes x y v = 0 ↔ v = 0 ∧ x = y).
Proof.
  induction x as [| a x IH]; intros y v Hlen Hv.
  - destruct y; [| discriminate]. cbn. intuition.
  - destruct y as [| b y]; [discriminate |]. cbn [xorBytes].
    pose proof (byte_range a). pose proof (byte_range b).
    rewrite IH; [| cbn in Hlen; congruence | apply Z.lor_nonneg; split; [lia |];
      apply Z.lxor_nonneg; lia].
    rewrite Z.lor_eq_0_iff. split.
    + intros [[-> Hx] ->]. apply Z.lxor_eq in Hx. apply byte_inj in Hx. subst. auto.
    + intros [-> [= -> ->]]. rewrite Z.lxor_nilpotent. auto.
Qed.

Lemma ConstantTimeByteEq_zero (v : Z) :
  0 <= v < 256 → ConstantTimeByteEq v 0 = if v =? 0 then 1 else 0.
Proof.
  intros Hv. unfold ConstantTimeByteEq. rewrite Z.lxor_0_r.
  destruct (Z.eqb_spec v 0) as [-> | Hne]; [reflexivity |].
  rewrite Z.mod_small by lia. rewrite Z.shiftr_div_pow2 by lia.
  apply Z.div_small. lia.
Qed.

(** [subtle.ConstantTimeCompare] is [1] on equal strings and [0] on all
    others. *)
Lemma ConstantTimeCompare_spec (x y : string) :
  ConstantTimeCompare x y = if String.eqb x y then 1 else 0.
Proof.
  unfold ConstantTimeCompare.
  destruct (Nat.eqb_spec (String.length x) (String.length y)) as [Hlen | Hlen]; cbn [negb].
  - rewrite ConstantTimeByteEq_zero by (apply xorBytes_range; lia).
    pose proof (xorBytes_zero x y 0 Hlen ltac:(lia)) as Hz.
    destruct (Z.eqb_spec (xorBytes x y 0) 0) as [H0 | H0];
      destruct (String.eqb_spec x y) as [Hxy | Hxy]; intuition.
  - destruct (String.eqb_spec x y) as [-> | _]; [contradiction | reflexivity].
Qed.

Lemma ConstantTimeCompare_one (x y : string) :
  (ConstantTimeCompare x y =? 1) = String.eqb x y.
Proof.
  rewrite ConstantTimeCompare_spec. destruct (String.eqb x y); reflexivity.
Qed.

Lemma isValidToken_eqb (c : CSRFMiddleware) (now : Z) (token : string) :
  isValidToken c now token
  = String.eqb token (currentToken c)
    || (negb (String.eqb (previousToken c) EmptyString)
        && (Sub now (lastRotation c) <? gracePeriod c)
        && String.eqb token (previousToken c)).
Proof.
  unfold isValidToken. rewrite !ConstantTimeCompare_one.
  destruct (String.eqb token (currentToken c)); [reflexivity |].
  destruct (negb (String.eqb (previousToken c) EmptyString)
            && (Sub now (lastRotation c) <? gracePeriod c)); cbn [orb andb];
    [destruct (String.eqb token (previousToken c)) |]; reflexivity.
Qed.

Lemma isValidToken_iff (c : CSRFMiddleware) (now : Z) (token : string) :
  isValidToken c now token = true ↔
  token = currentToken c
  ∨ (token = previousToken c ∧ previousToken c ≠ EmptyString
     ∧ Sub now (lastRotation c) < gracePeriod c).
Proof.
  rewrite isValidToken_eqb.
  rewrite orb_true_iff, !andb_true_iff, negb_true_iff, Z.ltb_lt.
  rewrite !String.eqb_eq, String.eqb_neq. tauto.
Qed.

Lemma EncodeToString_length3 (s : string) :
  (Z.of_nat (String.length (EncodeToString s))
   = 4 * ((Z.of_nat (String.length s) + 2) / 3))
  ∧ (∀ a, Z.of_nat (String.length (EncodeToString (String a s)))
          = 4 * ((Z.of_nat (String.length (String a s)) + 2) / 3))
  ∧ (∀ a b, Z.of_nat (String.length (EncodeToString (String a (String b s))))
            = 4 * ((Z.of_nat (String.length (String a (String b s))) + 2) / 3)).
Proof.
  induction s as [| c s (IH1 & IH2 & IH3)].
  - repeat split; intros; reflexivity.
  - split; [apply IH2 |]. split; [intros a; apply IH3 |].
    intros a b. cbn [EncodeToString String.length] in *.
    rewrite !Nat2Z.inj_succ in *. rewrite IH1.
    replace (Z.succ (Z.succ (Z.succ (Z.of_nat (String.length s)))) + 2)
      with (Z.of_nat (String.length s) + 2 + 1 * 3) by lia.
    rewrite Z.div_add by lia. lia.
Qed.

(** The encoding has four characters for every three bytes, rounded up. *)
Lemma EncodeToString_length (s : string) :
  Z.of_nat (String.length (EncodeToString s))
  = 4 * ((Z.of_nat (String.length s) + 2) / 3).
Proof. apply EncodeToString_length3. Qed.

Lemma generated_token_length (random : option string) (token : string) :
  filled 32 random = true → generateSecureToken 32 random = schema.Ok token →
  String.length token = 44%nat.
Proof.
  destruct random as [bytes |]; [| discriminate]. cbn.
  intros Hlen [= <-]. apply Nat.eqb_eq in Hlen.
  pose proof (EncodeToString_length bytes) as H. rewrite Hlen in H.
  change (4 * ((Z.of_nat 32 + 2) / 3)) with 44 in H. lia.
Qed.

Lemma rotate_token_length (c : CSRFMiddleware) (random : option string) (now : Z) :
  filled 32 random = true → String.length (currentToken c) = 44%nat →
  String.length (currentToken (rotate c random now)) = 44%nat.
Proof.
  intros Hf Hc. unfold rotate.
  destruct (generateSecureToken 32 random) as [token | e] eqn:Hg; [| exact Hc].
  exact (generated_token_length random token Hf Hg).
Qed.

Lemma rotationLoop_token_length (ticks : list (option string * Z)) :
  ∀ c : CSRFMiddleware,
  Forall (fun tick => filled 32 tick.1 = true) ticks →
  String.length (currentToken c) = 44%nat →
  String.length (currentToken (rotationLoop c ticks)) = 44%nat.
Proof.
  induction ticks as [| [random now] ticks IH]; intros c Hf Hc; [exact Hc |].
  inversion Hf as [| ? ? Hr Hrest]; subst.
  unfold rotationLoop. cbn [foldl]. apply IH; [exact Hrest |].
  apply rotate_token_length; assumption.
Qed.

Lemma stateChanging_eqb (r : HTTPRequest) :
  String.eqb (Method r) "POST" || String.eqb (Method r) "PUT"
  || String.eqb (Method r) "DELETE" || String.eqb (Method r) "PATCH" = true
  ↔ stateChanging r.
Proof.
  unfold stateChanging. rewrite !orb_true_iff, !String.eqb_eq. tauto.
Qed.

Lemma csrfWrap_cases {A : Type} (c : CSRFMiddleware) (now : Z)
    (next : HTTPRequest → A) (r : HTTPRequest) :
  csrfWrap c now next r
  = if bool_decide (stateChanging r) && negb (isValidToken c now (X_CSRF_Token r))
    then Refused "CSRF_ERROR" "Invalid or missing CSRF token" 403
    else Next (next r).
Proof.
  unfold csrfWrap.
  destruct (String.eqb (Method r) "POST" || String.eqb (Method r) "PUT"
            || String.eqb (Method r) "DELETE" || String.eqb (Method r) "PATCH") eqn:Hm.
  - apply stateChanging_eqb in Hm. rewrite (bool_decide_eq_true_2 _ Hm).
    cbn [andb]. destruct (isValidToken c now (X_CSRF_Token r)); reflexivity.
  - rewrite bool_decide_eq_false_2; [reflexivity |].
    intros H. apply stateChanging_eqb in H. congruence.
Qed.

(** X1. [CSRFMiddleware.Wrap] hands a request on exactly when its method
    is none of POST, PUT, DELETE and PATCH, or its [X-CSRF-Token] header
    is the current token, or is the previous token while that one is not
    empty and less than the grace period has passed since the last
    rotation; every other request is answered with CSRF_ERROR and status
    403, and the wrapped handler is not called. *)
Theorem csrf_wrap_correct {A : Type} (c : CSRFMiddleware) (now : Z)
    (next : HTTPRequest → A) (r : HTTPRequest) :
  (csrfWrap c now next r = Next (next r)
   ∨ csrfWrap c now next r
     = Refused "CSRF_ERROR" "Invalid or missing CSRF token" 403)
  ∧ (csrfWrap c now next r = Next (next r) ↔
     ¬ stateChanging r
     ∨ X_CSRF_Token r = currentToken c
     ∨ (X_CSRF_Token r = previousToken c ∧ previousToken c ≠ EmptyString
        ∧ Sub now (lastRotation c) < gracePeriod c)).
Proof.
  rewrite csrfWrap_cases.
  pose proof (isValidToken_iff c now (X_CSRF_Token r)) as Hv.
  destruct (bool_decide_reflect (stateChanging r)) as [Hm | Hm]; cbn [andb].
  - destruct (isValidToken c now (X_CSRF_Token r)); cbn [negb].
    + split; [left; reflexivity |]. split; [intros _; right; tauto | reflexivity].
    + split; [right; reflexivity |]. split; [discriminate |].
      intros [H | H]; [contradiction |]. apply Hv in H. discriminate.
  - split; [left; reflexivity |]. split; [auto | reflexivity].
Qed.

(** X2. After a rotation at [rotated] that produced a new token, that
    token is accepted at any time, the token it replaced is accepted
    exactly while less than the grace period has passed since [rotated]
    (and never if it is empty), and no other token is accepted, whatever
    was accepted before.  A rotation whose token generation fails leaves
    the middleware as it was. *)
Theorem rotate_grace_period (c : CSRFMiddleware) (bytes : string)
    (rotated now : Z) (token : string) :
  Token (rotate c (Some bytes) rotated) = EncodeToString bytes
  ∧ (isValidToken (rotate c (Some bytes) rotated) now token = true ↔
     token = EncodeToString bytes
     ∨ (token = Token c ∧ Token c ≠ EmptyString ∧ Sub now rotated < gracePeriod c))
  ∧ rotate c None rotated = c.
Proof.
  split; [reflexivity |]. split; [| reflexivity].
  rewrite isValidToken_iff. reflexivity.
Qed.

(** X3. With the 32 random bytes [rand.Read] fills in, the token of a
    middleware made by [NewCSRFMiddlewareWithRotation] has 44 characters
    after any number of rotations, failed ones included, so a POST, PUT,
    DELETE or PATCH request without an [X-CSRF-Token] header is refused
    with status 403 at any time. *)
Theorem missing_token_refused {A : Type} (random : option string) (created : Z)
    (rotationInterval gracePeriod : Z) (c : CSRFMiddleware)
    (ticks : list (option string * Z)) (now : Z) (next : HTTPRequest → A)
    (r : HTTPRequest) :
  filled 32 random = true →
  Forall (fun tick => filled 32 tick.1 = true) ticks →
  NewCSRFMiddlewareWithRotation random created rotationInterval gracePeriod
  = schema.Ok c →
  stateChanging r → X_CSRF_Token r = EmptyString →
  String.length (Token (rotationLoop c ticks)) = 44%nat
  ∧ csrfWrap (rotationLoop c ticks) now next r
    = Refused "CSRF_ERROR" "Invalid or missing CSRF token" StatusForbidden.
Proof.
  intros Hf Hticks Hnew Hm Htok.
  assert (Hlen : String.length (currentToken (rotationLoop c ticks)) = 44%nat).
  { apply rotationLoop_token_length; [exact Hticks |].
    unfold NewCSRFMiddlewareWithRotation in Hnew.
    destruct (generateSecureToken 32 random) as [token | e] eqn:Hg; [| discriminate].
    injection Hnew as <-. exact (generated_token_length random token Hf Hg). }
  split; [exact Hlen |].
  rewrite csrfWrap_cases, (bool_decide_eq_true_2 _ Hm), Htok. cbn [andb].
  destruct (isValidToken (rotationLoop c ticks) now EmptyString) eqn:Hv; [| reflexivity].
  apply isValidToken_iff in Hv. destruct Hv as [Hv | (Hv & Hne & _)].
  - rewrite <- Hv in Hlen. discriminate.
  - congruence.
Qed.

Lemma missing_token_refused_witness :
  String.length
    (Token (rotationLoop
              (mkCSRFMiddleware (EncodeToString "0123456789abcdef0123456789abcdef")
                 EmptyString Hour Minute 0)
              [(None, Hour); (Some "fedcba9876543210fedcba9876543210", 2 * Hour)]))
  = 44%nat
  ∧ csrfWrap
      (rotationLoop
         (mkCSRFMiddleware (EncodeToString "0123456789abcdef0123456789abcdef")
            EmptyString Hour Minute 0)
         [(None, Hour); (Some "fedcba9876543210fedcba9876543210", 2 * Hour)])
      (2 * Hour + 1) (fun _ => tt) (mkHTTPRequest "DELETE" EmptyString "127.0.0.1:4000")
    = Refused "CSRF_ERROR" "Invalid or missing CSRF token" StatusForbidden.
Proof.
  apply (missing_token_refused (Some "0123456789abcdef0123456789abcdef") 0
           Hour Minute).
  - reflexivity.
  - repeat constructor.
  - reflexivity.
  - right. right. left. reflexivity.
  - reflexivity.
Defined.

End Csrf.

Set Warnings "-clear-no-such-hyp".

Section RateLimit.

Import Go middleware.

Lemma Sub_mono (now now' t : Z) : now <= now' → Sub now t <= Sub now' t.
Proof.
  intros H. unfold Sub, minDuration, maxDuration, minInt64, maxInt64.
  repeat match goal with
  | |- context [?a <? ?b] => destruct (Z.ltb_spec a b)
  end; lia.
Qed.

Lemma Sub_nonneg (now t : Z) : t <= now → 0 <= Sub now t.
Proof.
  intros H. unfold Sub, minDuration, maxDuration, minInt64, maxInt64.
  repeat match goal with
  | |- context [?a <? ?b] => destruct (Z.ltb_spec a b)
  end; lia.
Qed.

Lemma withinWindow_later (rl : RateLimiter) (now now' : Z) (times : list Z) :
  now <= now' →
  withinWindow rl now' (withinWindow rl now times) = withinWindow rl now' times.
Proof.
  intros H. unfold withinWindow. apply list_filter_filter_l.
  intros t Ht. pose proof (Sub_mono now now' t H). lia.
Qed.

Lemma withinWindow_app (rl : RateLimiter) (now : Z) (a b : list Z) :
  withinWindow rl now (a ++ b) = withinWindow rl now a ++ withinWindow rl now b.
Proof. apply filter_app. Qed.

Lemma filter_length_le {A : Type} (P Q : A → Prop) `{!∀ x, Decision (P x)}
    `{!∀ x, Decision (Q x)} (l : list A) :
  (∀ x, x ∈ l → P x → Q x) →
  (List.length (filter P l) <= List.length (filter Q l))%nat.
Proof.
  induction l as [| x l IH]; intros Himp; [reflexivity |].
  rewrite !filter_cons.
  assert (IH' : (List.length (filter P l) <= List.length (filter Q l))%nat).
  { apply IH. intros y Hy. apply Himp. right. exact Hy. }
  destruct (decide (P x)) as [HP | HP].
  - rewrite decide_True by (apply Himp; [left | exact HP]). cbn. lia.
  - destruct (decide (Q x)); cbn; lia.
Qed.

(** The three ways [Allow] ends. *)
Lemma Allow_refuses (rl : RateLimiter) (order : list (string * list Z)) (now : Z)
    (ip : string) :
  limit rl <= Z.of_nat (List.length (withinWindow rl now (default [] (requests rl !! ip)))) →
  Allow rl order now ip = (rl, false, None).
Proof.
  intros H. unfold Allow.
  destruct (Z.leb_spec (limit rl)
              (Z.of_nat (List.length (withinWindow rl now (default [] (requests rl !! ip))))));
    [reflexivity | lia].
Qed.

Lemma Allow_accepts (rl : RateLimiter) (order : list (string * list Z)) (now : Z)
    (ip : string) :
  Z.of_nat (List.length (withinWindow rl now (default [] (requests rl !! ip)))) < limit rl →
  (is_Some (requests rl !! ip) ∨ Z.of_nat (size (requests rl)) < maxEntries rl) →
  Allow rl order now ip
  = (mkRateLimiter
       (<[ip := withinWindow rl now (default [] (requests rl !! ip)) ++ [now]]> (requests rl))
       (limit rl) (window rl) (maxEntries rl), true, None).
Proof.
  intros H Hroom. unfold Allow.
  destruct (Z.leb_spec (limit rl)
              (Z.of_nat (List.length (withinWindow rl now (default [] (requests rl !! ip))))));
    [lia |].
  destruct (bool_decide_reflect (is_Some (requests rl !! ip))) as [Hin | Hin];
    cbn [negb andb]; [reflexivity |].
  destruct (Z.leb_spec (maxEntries rl) (Z.of_nat (size (requests rl))));
    [| reflexivity].
  destruct Hroom; [contradiction | lia].
Qed.

Lemma Allow_answer (rl : RateLimiter) (order : list (string * list Z)) (now : Z)
    (ip : string) :
  (Allow rl order now ip).1.2
  = bool_decide (Z.of_nat (List.length (withinWindow rl now (default [] (requests rl !! ip))))
                 < limit rl).
Proof.
  unfold Allow.
  destruct (Z.leb_spec (limit rl)
              (Z.of_nat (List.length (withinWindow rl now (default [] (requests rl !! ip))))))
    as [Hle | Hlt].
  - cbn. symmetry. apply bool_decide_eq_false_2. lia.
  - rewrite (bool_decide_eq_true_2 _ Hlt).
    destruct (negb (bool_decide (is_Some (requests rl !! ip)))
              && (maxEntries rl <=? Z.of_nat (size (requests rl)))); [| reflexivity].
    destruct (oldestEntry order) as [[oldestIP ?] ?].
    destruct (negb (String.eqb oldestIP EmptyString)); reflexivity.
Qed.

Lemma cleanupTick_lookup (rl : RateLimiter) (now : Z) (ip : string) :
  default [] (requests (cleanupTick rl now) !! ip)
  = withinWindow rl now (default [] (requests rl !! ip)).
Proof.
  unfold cleanupTick. cbn [requests]. rewrite lookup_omap.
  destruct (requests rl !! ip) as [times |]; [| reflexivity].
  change (default [] (Some times)) with times.
  cbn [mbind option_bind]. generalize (withinWindow rl now times).
  intros [| t valid]; reflexivity.
Qed.

Lemma withinWindow_params (rl rl' : RateLimiter) (now : Z) (times : list Z) :
  window rl' = window rl → withinWindow rl' now times = withinWindow rl now times.
Proof. unfold withinWindow. intros ->. reflexivity. Qed.

Lemma step_params (rl : RateLimiter) (c : Call) :
  limit (step rl c) = limit rl ∧ window (step rl c) = window rl
  ∧ maxEntries (step rl c) = maxEntries rl.
Proof.
  destruct c as [ip now order | now]; [| repeat split; reflexivity].
  unfold step, Allow.
  destruct (limit rl <=? _); [repeat split; reflexivity |].
  destruct (negb _ && _); [| repeat split; reflexivity].
  destruct (oldestEntry order) as [[oldestIP ?] ?].
  destruct (negb (String.eqb oldestIP EmptyString)); repeat split; reflexivity.
Qed.

Lemma run_params (calls : list Call) : ∀ rl : RateLimiter,
  limit (run rl calls) = limit rl ∧ window (run rl calls) = window rl
  ∧ maxEntries (run rl calls) = maxEntries rl.
Proof.
  induction calls as [| c calls IH]; intros rl; [repeat split; reflexivity |].
  change (run rl (c :: calls)) with (run (step rl c) calls).
  destruct (IH (step rl c)) as (-> & -> & ->). apply step_params.
Qed.

Lemma allowedTimes_cons (rl : RateLimiter) (c : Call) (calls : list Call) (ip : string) :
  allowedTimes rl (c :: calls) ip
  = allowedTimes rl [c] ip ++ allowedTimes (step rl c) calls ip.
Proof.
  cbn [allowedTimes]. destruct c as [ip' now order | now]; [| reflexivity].
  destruct (String.eqb ip' ip && (Allow rl order now ip').1.2); reflexivity.
Qed.

(** A request finds room when the addresses of the run fit the limiter. *)
Lemma room_for_address (rl : RateLimiter) (ip : string) (seen : gset string) :
  Z.of_nat (size (dom (requests rl) ∪ ({[ ip ]} ∪ seen))) <= maxEntries rl →
  is_Some (requests rl !! ip) ∨ Z.of_nat (size (requests rl)) < maxEntries rl.
Proof.
  intros H. destruct (requests rl !! ip) as [times |] eqn:Hip; [left; eauto | right].
  apply not_elem_of_dom in Hip.
  assert (Hsub : {[ ip ]} ∪ dom (requests rl) ⊆ dom (requests rl) ∪ ({[ ip ]} ∪ seen))
    by set_solver.
  apply subseteq_size in Hsub.
  rewrite size_union in Hsub by set_solver.
  rewrite size_singleton, size_dom in Hsub. lia.
Qed.

Lemma step_addresses (rl : RateLimiter) (c : Call) (calls : list Call) :
  Z.of_nat (size (dom (requests rl) ∪ addresses (c :: calls))) <= maxEntries rl →
  dom (requests (step rl c)) ∪ addresses calls
  ⊆ dom (requests rl) ∪ addresses (c :: calls).
Proof.
  intros H. destruct c as [ip now order | now]; cbn [addresses foldr step] in *.
  - fold (addresses calls) in *.
    destruct (Z.le_gt_cases (limit rl)
                (Z.of_nat (List.length (withinWindow rl now (default [] (requests rl !! ip))))))
      as [Hle | Hlt].
    + rewrite (Allow_refuses rl order now ip Hle). cbn. set_solver.
    + rewrite (Allow_accepts rl order now ip); [| lia | exact (room_for_address _ _ _ H)].
      cbn [fst snd requests]. rewrite dom_insert_L. set_solver.
  - fold (addresses calls). unfold cleanupTick. cbn [requests].
    pose proof (dom_omap_subseteq (D := gset string)
      (fun times => let valid := withinWindow rl now times in
                    if Nat.eqb (List.length valid) 0 then None else Some valid)
      (requests rl)).
    set_solver.
Qed.

Section Window.

Variable ip : string.

(** What the limiter has stored for [ip] agrees, for every clock reading
    from [since] on, with the times at which its requests were allowed. *)
Let tracks (rl : RateLimiter) (allowed : list Z) (since : Z) : Prop :=
  (∀ t, t ∈ allowed → t <= since)
  ∧ ∀ now, since <= now →
      withinWindow rl now (default [] (requests rl !! ip)) = withinWindow rl now allowed.

Let bounded (rl : RateLimiter) (allowed : list Z) : Prop :=
  ∀ now,
    Z.of_nat (List.length (filter (fun t => t <= now ∧ Sub now t < window rl) allowed))
    <= Z.max 0 (limit rl).

Lemma tracks_later (rl : RateLimiter) (allowed : list Z) (since since' : Z) :
  since <= since' → tracks rl allowed since → tracks rl allowed since'.
Proof.
  intros Hle [Hpast Hsame]. split.
  - intros t Ht. specialize (Hpast t Ht). lia.
  - intros now Hnow. apply Hsame. lia.
Qed.

Lemma bounded_snoc (rl : RateLimiter) (allowed : list Z) (now : Z) :
  (∀ t, t ∈ allowed → t <= now) → bounded rl allowed →
  Z.of_nat (List.length (withinWindow rl now allowed)) < limit rl →
  bounded rl (allowed ++ [now]).
Proof.
  intros Hpast Hb Hlt at_. rewrite filter_app, length_app.
  destruct (Z.lt_ge_cases at_ now) as [Hbefore | Hafter].
  - rewrite (filter_cons_False _ now) by lia. rewrite filter_nil.
    specialize (Hb at_). cbn [List.length]. lia.
  - assert (Hle : Nat.le
                     (List.length (filter (fun t => t <= at_ ∧ Sub at_ t < window rl) allowed))
                     (List.length (withinWindow rl now allowed))).
    { unfold withinWindow.
      apply (filter_length_le (fun t => t <= at_ ∧ Sub at_ t < window rl)
               (fun t => Sub now t < window rl)).
      intros t Ht [_ Hw].
      pose proof (Sub_mono now at_ t ltac:(lia)). lia. }
    pose proof (length_filter (fun t => t <= at_ ∧ Sub at_ t < window rl) [now]) as H1.
    cbn [List.length] in H1. lia.
Qed.

Lemma step_tracks (rl : RateLimiter) (c : Call) (allowed : list Z) (since : Z) :
  tracks rl allowed since → bounded rl allowed → since <= callTime c →
  match c with
  | Request ip' _ _ =>
    is_Some (requests rl !! ip') ∨ Z.of_nat (size (requests rl)) < maxEntries rl
  | Tick _ => True
  end →
  tracks (step rl c) (allowed ++ allowedTimes rl [c] ip) (callTime c)
  ∧ bounded (step rl c) (allowed ++ allowedTimes rl [c] ip).
Proof.
  intros Ht Hb Hsince Hroom.
  pose proof (step_params rl c) as (Hlimit & Hwindow & _).
  pose proof (tracks_later rl allowed since (callTime c) Hsince Ht) as [Hpast Hsame].
  destruct c as [ip' now order | now]; cbn [callTime allowedTimes] in *.
  - rewrite Allow_answer. cbn [step].
    destruct (Z.le_gt_cases (limit rl)
                (Z.of_nat (List.length (withinWindow rl now (default [] (requests rl !! ip'))))))
      as [Hle | Hlt].
    + rewrite (Allow_refuses rl order now ip' Hle) in *. cbn [fst snd].
      rewrite bool_decide_eq_false_2 by lia. rewrite andb_false_r, app_nil_r.
      split; [split; assumption | assumption].
    + rewrite (Allow_accepts rl order now ip' Hlt Hroom) in *. cbn [fst snd] in *.
      rewrite (bool_decide_eq_true_2 _ Hlt), andb_true_r.
      destruct (String.eqb_spec ip' ip) as [-> | Hne].
      * assert (Hvalid : withinWindow rl now (default [] (requests rl !! ip))
                         = withinWindow rl now allowed) by (apply Hsame; lia).
        split; [split |].
        -- intros t Hin. apply elem_of_app in Hin as [Hin | Hin]; [auto |].
           apply list_elem_of_singleton in Hin. lia.
        -- intros at_ Hat. cbn [requests]. rewrite lookup_insert_eq.
           change (default [] (Some ?l)) with l.
           change (withinWindow (mkRateLimiter ?m (limit rl) (window rl) (maxEntries rl)))
             with (withinWindow rl).
           rewrite !withinWindow_app, withinWindow_later by lia.
           rewrite (Hsame at_) by lia. reflexivity.
        -- intros at_. cbn [limit window]. revert at_.
           apply (bounded_snoc rl allowed now); [assumption | assumption |].
           rewrite <- Hvalid. exact Hlt.
      * rewrite app_nil_r. split; [split; [assumption |] | intros at_; apply Hb].
        intros at_ Hat. cbn [requests]. rewrite lookup_insert_ne by congruence.
        change (withinWindow (mkRateLimiter ?m (limit rl) (window rl) (maxEntries rl)))
             with (withinWindow rl). auto.
  - rewrite app_nil_r. split; [split; [assumption |] | intros at_; apply Hb].
    intros at_ Hat. cbn [step]. rewrite cleanupTick_lookup.
    change (withinWindow (cleanupTick rl now)) with (withinWindow rl).
    rewrite withinWindow_later by lia. auto.
Qed.

Lemma run_tracks (calls : list Call) :
  ∀ (rl : RateLimiter) (allowed : list Z) (since : Z),
  tracks rl allowed since → bounded rl allowed →
  StronglySorted Z.le (since :: (callTime <$> calls)) →
  Z.of_nat (size (dom (requests rl) ∪ addresses calls)) <= maxEntries rl →
  (∀ now, Forall (fun t => t <= now) (since :: (callTime <$> calls)) →
     withinWindow rl now (default [] (requests (run rl calls) !! ip))
     = withinWindow rl now (allowed ++ allowedTimes rl calls ip))
  ∧ bounded rl (allowed ++ allowedTimes rl calls ip).
Proof.
  induction calls as [| c calls IH]; intros rl allowed since Ht Hb Hsorted Hsize.
  - cbn [allowedTimes run foldl]. rewrite app_nil_r. split; [| exact Hb].
    intros now Hnow. apply Forall_cons in Hnow as [Hnow _].
    apply (tracks_later rl allowed since now Hnow Ht). lia.
  - cbn [fmap list_fmap] in Hsorted.
    apply StronglySorted_inv in Hsorted as [Hsorted Hfirst].
    apply Forall_cons in Hfirst as [Hsince Hfirst].
    pose proof (step_params rl c) as (Hlimit & Hwindow & Hmax).
    assert (Hroom : match c with
                    | Request ip' _ _ =>
                      is_Some (requests rl !! ip')
                      ∨ Z.of_nat (size (requests rl)) < maxEntries rl
                    | Tick _ => True
                    end).
    { destruct c as [ip' now order | now]; [| exact I].
      exact (room_for_address rl ip' (addresses calls) Hsize). }
    destruct (step_tracks rl c allowed since Ht Hb Hsince Hroom) as [Ht' Hb'].
    assert (Hsize' : Z.of_nat (size (dom (requests (step rl c)) ∪ addresses calls))
                     <= maxEntries (step rl c)).
    { rewrite Hmax. pose proof (step_addresses rl c calls Hsize) as Hsub.
      apply subseteq_size in Hsub. lia. }
    destruct (IH (step rl c) (allowed ++ allowedTimes rl [c] ip) (callTime c)
                Ht' Hb' Hsorted Hsize') as [Hsame Hbound].
    rewrite allowedTimes_cons, app_assoc.
    change (run rl (c :: calls)) with (run (step rl c) calls).
    split.
    + intros now Hnow. cbn [fmap list_fmap] in Hnow.
      apply Forall_cons in Hnow as [_ Hnow]. specialize (Hsame now Hnow).
      rewrite !(withinWindow_params rl (step rl c)) in Hsame by exact Hwindow.
      exact Hsame.
    + intros at_. specialize (Hbound at_). rewrite Hlimit, Hwindow in Hbound. exact Hbound.
Qed.

Lemma run_from_empty (limit window maxEntries : Z) (calls : list Call) :
  Sorted Z.le (callTime <$> calls) →
  Z.of_nat (size (addresses calls)) <= maxEntries →
  (∀ now, Forall (fun t => t <= now) (callTime <$> calls) →
     withinWindow (NewRateLimiterWithMax limit window maxEntries) now
       (default [] (requests (run (NewRateLimiterWithMax limit window maxEntries) calls) !! ip))
     = withinWindow (NewRateLimiterWithMax limit window maxEntries) now
         (allowedTimes (NewRateLimiterWithMax limit window maxEntries) calls ip))
  ∧ ∀ now,
      Z.of_nat (List.length
                  (filter (fun t => t <= now ∧ Sub now t < window)
                     (allowedTimes (NewRateLimiterWithMax limit window maxEntries) calls ip)))
      <= Z.max 0 limit.
Proof.
  intros Hsorted Hsize. apply Sorted_StronglySorted in Hsorted; [| exact _].
  set (rl0 := NewRateLimiterWithMax limit window maxEntries).
  assert (Hempty : ∀ since, tracks rl0 [] since).
  { intros since. split; [intros t Ht; inversion Ht | reflexivity]. }
  assert (Hb : bounded rl0 []).
  { intros at_. rewrite filter_nil. cbn [List.length]. lia. }
  destruct calls as [| c calls].
  - split; [reflexivity |]. intros at_. apply Hb.
  - assert (Hss : StronglySorted Z.le (callTime c :: (callTime <$> c :: calls))).
    { constructor; [exact Hsorted |]. cbn [fmap list_fmap].
      apply StronglySorted_inv in Hsorted as [_ Hfirst].
      constructor; [lia | exact Hfirst]. }
    destruct (run_tracks (c :: calls) rl0 [] (callTime c) (Hempty _) Hb Hss) as [Hsame Hbound].
    { unfold rl0, NewRateLimiterWithMax. cbn [requests middleware.maxEntries].
      rewrite dom_empty_L, (left_id_L ∅ (∪)). exact Hsize. }
    split; [| exact Hbound].
    intros now Hnow. apply Hsame. constructor; [| exact Hnow].
    cbn [fmap list_fmap] in Hnow. apply Forall_cons in Hnow as [Hnow _]. exact Hnow.
Qed.

End Window.

(** The answer of [Allow] after a run, read on the history of the run. *)
Lemma Allow_by_history (limit window maxEntries : Z) (calls : list Call)
    (ip : string) (now : Z) (order : list (string * list Z)) :
  Sorted Z.le ((callTime <$> calls) ++ [now]) →
  Z.of_nat (size (addresses calls)) <= maxEntries →
  (Allow (run (NewRateLimiterWithMax limit window maxEntries) calls) order now ip).1.2
  = bool_decide
      (Z.of_nat (List.length
                   (filter (fun t => Sub now t < window)
                      (allowedTimes (NewRateLimiterWithMax limit window maxEntries)
                         calls ip)))
       < limit).
Proof.
  intros Hsorted Hsize.
  apply Sorted_StronglySorted in Hsorted; [| exact _].
  apply StronglySorted_app in Hsorted as (Hle & Hsorted & _).
  apply StronglySorted_Sorted in Hsorted.
  destruct (run_from_empty ip limit window maxEntries calls Hsorted Hsize) as [Hsame _].
  rewrite Allow_answer.
  destruct (run_params calls (NewRateLimiterWithMax limit window maxEntries))
    as (-> & Hwindow & _).
  rewrite (withinWindow_params _ _ _ _ Hwindow), Hsame.
  - reflexivity.
  - apply Forall_forall. intros t Ht. apply Hle; [exact Ht | left].
Qed.

(** X4. Over a run of requests and cleanup ticks on a new limiter, with a
    clock that does not run backwards and no more distinct addresses
    than [maxEntries], a request is allowed exactly when fewer than
    [limit] requests of the same address were allowed less than [window]
    before it: the stored times, the cleanup and the requests of other
    addresses do not change the answer. *)
Theorem allow_decides_by_history (limit window maxEntries : Z) (calls : list Call)
    (ip : string) (now : Z) (order : list (string * list Z)) :
  Sorted Z.le ((callTime <$> calls) ++ [now]) →
  Z.of_nat (size (addresses calls)) <= maxEntries →
  (Allow (run (NewRateLimiterWithMax limit window maxEntries) calls) order now ip).1.2
  = bool_decide
      (Z.of_nat (List.length
                   (filter (fun t => Sub now t < window)
                      (allowedTimes (NewRateLimiterWithMax limit window maxEntries)
                         calls ip)))
       < limit).
Proof. exact (Allow_by_history limit window maxEntries calls ip now order). Qed.

(** X5. Under the same conditions, among the requests of one address
    that were allowed, at most [limit] fall into the window that ends at
    any instant [now]: those made at or before [now] and less than
    [window] before it. *)
Theorem rate_limit_window (limit window maxEntries : Z) (calls : list Call)
    (ip : string) (now : Z) :
  Sorted Z.le (callTime <$> calls) →
  Z.of_nat (size (addresses calls)) <= maxEntries →
  Z.of_nat (List.length
              (filter (fun t => t <= now ∧ Sub now t < window)
                 (allowedTimes (NewRateLimiterWithMax limit window maxEntries) calls ip)))
  <= Z.max 0 limit.
Proof.
  intros Hsorted Hsize.
  apply (run_from_empty ip limit window maxEntries calls Hsorted Hsize).
Qed.

(** *** Eviction *)

Lemma oldestEntry_snoc (order : list (string * list Z)) (entry : string * list Z) :
  oldestEntry (order ++ [entry])
  = let '(oldestIP, oldestTime, first) := oldestEntry order in
    match entry.2 with
    | t0 :: _ =>
      if first || (t0 <? oldestTime) then (entry.1, t0, false)
      else (oldestIP, oldestTime, first)
    | [] => (oldestIP, oldestTime, first)
    end.
Proof.
  unfold oldestEntry. rewrite foldl_app. cbn [foldl].
  destruct (foldl _ _ order) as [[oldestIP oldestTime] first].
  destruct entry as [entryIP entryTimes]. reflexivity.
Qed.

(** The loop ends on an entry whose first time is the least. *)
Lemma oldestEntry_least (order : list (string * list Z)) :
  Forall (fun entry => entry.2 ≠ []) order → order ≠ [] →
  ∃ ip t times,
    oldestEntry order = (ip, t, false) ∧ (ip, t :: times) ∈ order
    ∧ ∀ ip' t' times', (ip', t' :: times') ∈ order → t <= t'.
Proof.
  induction order as [| [entryIP entryTimes] order IH] using rev_ind;
    intros Hne Hnil; [contradiction |].
  apply Forall_app in Hne as [Hne Hlast]. apply Forall_cons in Hlast as [Hlast _].
  cbn [snd] in Hlast. destruct entryTimes as [| t0 entryTimes]; [contradiction |].
  rewrite oldestEntry_snoc. cbn [fst snd].
  destruct order as [| first order].
  - exists entryIP, t0, entryTimes. split; [reflexivity |]. split; [left |].
    intros ip' t' times' Hin. apply list_elem_of_singleton in Hin.
    injection Hin as -> -> ->. lia.
  - destruct (IH Hne ltac:(discriminate)) as (ip & t & times & -> & Hin & Hleast).
    cbn [orb]. destruct (Z.ltb_spec t0 t) as [Hlt | Hge].
    + exists entryIP, t0, entryTimes. split; [reflexivity |].
      split; [apply elem_of_app; right; left |].
      intros ip' t' times' Hin'. apply elem_of_app in Hin' as [Hin' | Hin'].
      * specialize (Hleast ip' t' times' Hin'). lia.
      * apply list_elem_of_singleton in Hin'. injection Hin' as -> -> ->. lia.
    + exists ip, t, times. split; [reflexivity |].
      split; [apply elem_of_app; left; exact Hin |].
      intros ip' t' times' Hin'. apply elem_of_app in Hin' as [Hin' | Hin'].
      * exact (Hleast ip' t' times' Hin').
      * apply list_elem_of_singleton in Hin'. injection Hin' as -> -> ->. lia.
Qed.

Lemma Allow_evicts (rl : RateLimiter) (order : list (string * list Z)) (now : Z)
    (ip e : string) (t : Z) (first : bool) :
  0 < limit rl → requests rl !! ip = None →
  maxEntries rl <= Z.of_nat (size (requests rl)) →
  oldestEntry order = (e, t, first) →
  Allow rl order now ip
  = if String.eqb e EmptyString
    then (mkRateLimiter (<[ip := [now]]> (requests rl))
            (limit rl) (window rl) (maxEntries rl), true, None)
    else (mkRateLimiter (<[ip := [now]]> (delete e (requests rl)))
            (limit rl) (window rl) (maxEntries rl), true, Some e).
Proof.
  intros Hlimit Hip Hfull Hold. unfold Allow. rewrite Hip, Hold.
  change (withinWindow rl now (default [] None)) with (@nil Z). cbn [List.length app].
  destruct (Z.leb_spec (limit rl) (Z.of_nat 0)) as [Hle | _]; [cbn in Hle; lia |].
  rewrite bool_decide_eq_false_2 by (intros [? [=]]). cbn [negb andb].
  destruct (Z.leb_spec (maxEntries rl) (Z.of_nat (size (requests rl)))); [| lia].
  destruct (String.eqb e EmptyString); reflexivity.
Qed.

Lemma Allow_evicted_inv (rl : RateLimiter) (order : list (string * list Z)) (now : Z)
    (ip e : string) :
  (Allow rl order now ip).2 = Some e →
  0 < limit rl ∧ requests rl !! ip = None
  ∧ maxEntries rl <= Z.of_nat (size (requests rl))
  ∧ (oldestEntry order).1.1 = e ∧ e ≠ EmptyString.
Proof.
  unfold Allow. destruct (Z.leb_spec (limit rl)
              (Z.of_nat (List.length (withinWindow rl now (default [] (requests rl !! ip))))))
    as [Hle | Hlt]; [discriminate |].
  destruct (bool_decide_reflect (is_Some (requests rl !! ip))) as [Hin | Hin];
    cbn [negb andb]; [discriminate |].
  destruct (Z.leb_spec (maxEntries rl) (Z.of_nat (size (requests rl)))) as [Hfull | _];
    [| discriminate].
  destruct (oldestEntry order) as [[oldestIP oldestTime] first].
  destruct (String.eqb_spec oldestIP EmptyString) as [Heq | Hne]; cbn [negb];
    [discriminate |].
  intros [= <-].
  assert (Hip : requests rl !! ip = None).
  { destruct (requests rl !! ip) eqn:E; [exfalso; apply Hin; eauto | reflexivity]. }
  rewrite Hip in Hlt. cbn in Hlt. repeat split; try assumption; lia.
Qed.

(** Every address stored has at least one time and at most [limit]. *)
Let wellFormed (rl : RateLimiter) : Prop :=
  ∀ ip times, requests rl !! ip = Some times →
    times ≠ [] ∧ Z.of_nat (List.length times) <= limit rl.

Lemma Allow_shape (rl : RateLimiter) (order : list (string * list Z)) (now : Z)
    (ip : string) :
  Allow rl order now ip = (rl, false, None)
  ∨ (Z.of_nat (List.length (withinWindow rl now (default [] (requests rl !! ip))))
     < limit rl
     ∧ ∃ requests1 evicted,
         Allow rl order now ip
         = (mkRateLimiter
              (<[ip := withinWindow rl now (default [] (requests rl !! ip)) ++ [now]]>
                 requests1)
              (limit rl) (window rl) (maxEntries rl), true, evicted)
         ∧ (requests1 = requests rl ∨ ∃ e, requests1 = delete e (requests rl))).
Proof.
  unfold Allow. destruct (Z.leb_spec (limit rl)
              (Z.of_nat (List.length (withinWindow rl now (default [] (requests rl !! ip))))))
    as [Hle | Hlt]; [left; reflexivity |].
  right. split; [exact Hlt |].
  destruct (negb (bool_decide (is_Some (requests rl !! ip)))
            && (maxEntries rl <=? Z.of_nat (size (requests rl)))); [| eauto 6].
  destruct (oldestEntry order) as [[oldestIP oldestTime] first].
  destruct (negb (String.eqb oldestIP EmptyString)); eauto 7.
Qed.

Lemma step_wellFormed (rl : RateLimiter) (c : Call) :
  wellFormed rl → wellFormed (step rl c).
Proof.
  intros Hwf. destruct c as [ip now order | now]; cbn [step].
  - destruct (Allow_shape rl order now ip)
      as [-> | (Hlt & requests1 & evicted & -> & Hreq)]; [exact Hwf |].
    intros ip' times. cbn [fst snd requests middleware.limit].
    destruct (decide (ip' = ip)) as [-> | Hne].
    + rewrite lookup_insert_eq. intros [= <-]. rewrite length_app. cbn [List.length].
      split; [intros H; apply app_eq_nil in H as [_ [=]] | lia].
    + rewrite lookup_insert_ne by congruence. intros Hl. apply (Hwf ip').
      destruct Hreq as [-> | [e ->]]; [exact Hl |].
      apply lookup_delete_Some in Hl as [_ Hl]. exact Hl.
  - intros ip times. unfold cleanupTick. cbn [requests middleware.limit].
    rewrite lookup_omap_Some. intros (times0 & Hvalid & Hl).
    destruct (Hwf ip times0 Hl) as [_ Hlen]. cbn zeta in Hvalid.
    destruct (Nat.eqb_spec (List.length (withinWindow rl now times0)) 0) as [| Hne];
      [discriminate |].
    injection Hvalid as <-. split; [intros H; rewrite H in Hne; apply Hne; reflexivity |].
    pose proof (length_filter (fun t => Sub now t < window rl) times0).
    unfold withinWindow. lia.
Qed.

Lemma run_wellFormed (calls : list Call) : ∀ rl : RateLimiter,
  wellFormed rl → wellFormed (run rl calls).
Proof.
  induction calls as [| c calls IH]; intros rl Hwf; [exact Hwf |].
  apply (IH (step rl c)). apply step_wellFormed. exact Hwf.
Qed.

Lemma oldest_is_stored (rl : RateLimiter) (order : list (string * list Z)) :
  wellFormed rl → order ≡ₚ map_to_list (requests rl) → requests rl ≠ ∅ →
  ∃ e t times,
    oldestEntry order = (e, t, false) ∧ requests rl !! e = Some (t :: times)
    ∧ ∀ ip' t' times', requests rl !! ip' = Some (t' :: times') → t <= t'.
Proof.
  intros Hwf Horder Hne.
  destruct (oldestEntry_least order) as (e & t & times & Hold & Hin & Hleast).
  - apply Forall_forall. intros [ip' times'] Hin. rewrite Horder in Hin.
    apply elem_of_map_to_list in Hin. exact (proj1 (Hwf ip' times' Hin)).
  - intros ->. apply Permutation_nil_l in Horder. symmetry in Horder.
    apply map_to_list_empty_iff in Horder. contradiction.
  - exists e, t, times. split; [exact Hold |]. split.
    + rewrite Horder in Hin. apply elem_of_map_to_list in Hin. exact Hin.
    + intros ip' t' times' Hl. apply (Hleast ip' t' times').
      rewrite Horder. apply elem_of_map_to_list. exact Hl.
Qed.

Let fits (rl : RateLimiter) : Prop :=
  wellFormed rl ∧ requests rl !! EmptyString = None
  ∧ Z.of_nat (size (requests rl)) <= Z.max 1 (maxEntries rl).

Lemma step_fits (rl : RateLimiter) (c : Call) :
  fits rl →
  match c with
  | Request ip _ order => ip ≠ EmptyString ∧ order ≡ₚ map_to_list (requests rl)
  | Tick _ => True
  end →
  fits (step rl c).
Proof.
  intros (Hwf & Hnone & Hsize) Hc.
  split; [apply step_wellFormed; exact Hwf |].
  destruct c as [ip now order | now]; cbn [step].
  - destruct Hc as [Hip Horder].
    destruct (Z.le_gt_cases (limit rl)
                (Z.of_nat (List.length (withinWindow rl now (default [] (requests rl !! ip))))))
      as [Hle | Hlt].
    { rewrite (Allow_refuses rl order now ip Hle). split; assumption. }
    destruct (decide (is_Some (requests rl !! ip)
                      ∨ Z.of_nat (size (requests rl)) < maxEntries rl)) as [Hroom | Hfull].
    { rewrite (Allow_accepts rl order now ip Hlt Hroom).
      cbn [fst snd requests middleware.maxEntries].
      rewrite lookup_insert_ne by congruence. split; [exact Hnone |].
      rewrite map_size_insert.
      destruct (requests rl !! ip) as [times |] eqn:Hl; cbn; [exact Hsize |].
      destruct Hroom as [[? [=]] | Hroom]. lia. }
    assert (Hl : requests rl !! ip = None).
    { destruct (requests rl !! ip) eqn:E; [exfalso; apply Hfull; left; eauto | reflexivity]. }
    assert (Hmax : maxEntries rl <= Z.of_nat (size (requests rl))) by lia.
    assert (Hlimit : 0 < limit rl).
    { rewrite Hl in Hlt. cbn in Hlt. lia. }
    destruct (decide (requests rl = ∅)) as [Hempty | Hne].
    + assert (Ho : oldestEntry order = (EmptyString, zeroTime, true)).
      { rewrite Hempty, map_to_list_empty in Horder.
        apply Permutation_nil_r in Horder. rewrite Horder. reflexivity. }
      rewrite (Allow_evicts rl order now ip _ _ _ Hlimit Hl Hmax Ho).
      cbn [String.eqb fst snd requests middleware.maxEntries].
      rewrite lookup_insert_ne by congruence. split; [exact Hnone |].
      rewrite map_size_insert, Hl, Hempty, map_size_empty. cbn. lia.
    + destruct (oldest_is_stored rl order Hwf Horder Hne) as (e & t & times & Ho & He & _).
      rewrite (Allow_evicts rl order now ip _ _ _ Hlimit Hl Hmax Ho).
      destruct (String.eqb_spec e EmptyString) as [-> | Hee]; [congruence |].
      cbn [fst snd requests middleware.maxEntries].
      rewrite lookup_insert_ne by congruence.
      split; [apply lookup_delete_None; right; exact Hnone |].
      rewrite map_size_insert_None
        by (apply lookup_delete_None; right; exact Hl).
      rewrite map_size_delete_Some by eauto.
      assert (size (requests rl) ≠ 0%nat) by (apply map_size_non_empty_iff; exact Hne).
      lia.
  - unfold cleanupTick. cbn [requests middleware.maxEntries]. split.
    + rewrite lookup_omap, Hnone. reflexivity.
    + pose proof (dom_omap_subseteq (D := gset string)
        (fun times => let valid := withinWindow rl now times in
                      if Nat.eqb (List.length valid) 0 then None else Some valid)
        (requests rl)) as Hsub.
      apply subseteq_size in Hsub. rewrite !size_dom in Hsub. cbn zeta in Hsub. lia.
Qed.

Lemma run_fits (calls : list Call) : ∀ rl : RateLimiter,
  fits rl → orderly rl calls → EmptyString ∉ addresses calls → fits (run rl calls).
Proof.
  induction calls as [| c calls IH]; intros rl Hfits Horderly Haddr; [exact Hfits |].
  destruct Horderly as [Horder Horderly].
  apply (IH (step rl c)); [| exact Horderly |].
  - apply step_fits; [exact Hfits |].
    destruct c as [ip now order | now]; [| exact I].
    split; [| exact Horder]. intros ->. apply Haddr. cbn. set_solver.
  - intros Hin. apply Haddr. destruct c as [ip now order | now]; cbn; [| exact Hin].
    fold (addresses calls). set_solver.
Qed.

Lemma empty_fits (limit window maxEntries : Z) :
  fits (NewRateLimiterWithMax limit window maxEntries).
Proof.
  split; [intros ip times H; unfold NewRateLimiterWithMax in H; cbn [requests] in H;
          rewrite lookup_empty in H; discriminate |].
  split; [reflexivity |]. cbn. rewrite map_size_empty. lia.
Qed.

(** X6. The limiter's memory is bounded: over a run on a new limiter in
    which every request sees the entries in some order of the stored
    map and no address is empty, at most [max(1, maxEntries)] addresses
    are stored, and every stored address has between one and [limit]
    times. *)
Theorem limiter_memory_bounded (limit window maxEntries : Z) (calls : list Call) :
  orderly (NewRateLimiterWithMax limit window maxEntries) calls →
  EmptyString ∉ addresses calls →
  Z.of_nat (size (requests (run (NewRateLimiterWithMax limit window maxEntries) calls)))
  <= Z.max 1 maxEntries
  ∧ ∀ ip times,
      requests (run (NewRateLimiterWithMax limit window maxEntries) calls) !! ip
      = Some times →
      times ≠ [] ∧ Z.of_nat (List.length times) <= limit.
Proof.
  intros Horderly Haddr.
  destruct (run_fits calls _ (empty_fits limit window maxEntries) Horderly Haddr)
    as (Hwf & _ & Hsize).
  destruct (run_params calls (NewRateLimiterWithMax limit window maxEntries))
    as (Hlimit & _ & Hmax).
  rewrite Hmax in Hsize. split; [exact Hsize |].
  intros ip times Hl. destruct (Hwf ip times Hl) as [Hne Hlen].
  rewrite Hlimit in Hlen. split; assumption.
Qed.

Lemma limiter_memory_bounded_witness :
  Z.of_nat (size (requests (run (NewRateLimiterWithMax 2 (60 * Second) 2)
                              [Request "10.0.0.1:5000" 1 [];
                               Request "10.0.0.2:5000" 2 [("10.0.0.1:5000", [1])];
                               Request "10.0.0.3:5000" 3
                                 [("10.0.0.1:5000", [1]); ("10.0.0.2:5000", [2])]])))
  <= Z.max 1 2
  ∧ ∀ ip times,
      requests (run (NewRateLimiterWithMax 2 (60 * Second) 2)
                  [Request "10.0.0.1:5000" 1 [];
                   Request "10.0.0.2:5000" 2 [("10.0.0.1:5000", [1])];
                   Request "10.0.0.3:5000" 3
                     [("10.0.0.1:5000", [1]); ("10.0.0.2:5000", [2])]]) !! ip
      = Some times →
      times ≠ [] ∧ Z.of_nat (List.length times) <= 2.
Proof.
  apply (limiter_memory_bounded 2 (60 * Second) 2).
  - vm_compute. repeat split; repeat constructor.
  - vm_compute. intros H. repeat (apply elem_of_cons in H as [H | H]; [discriminate |]).
    inversion H.
Defined.

(** X7. In any state reached from a new limiter, when [Allow] evicts an
    address, the request's own address was not stored and the map held
    at least [maxEntries] entries; the address evicted is stored, and
    its first time is the least of the first times of all entries; the
    map afterwards is the old one without that address and with the
    request's address holding the one time [now]. *)
Theorem eviction_takes_oldest (limit window maxEntries : Z) (calls : list Call)
    (order : list (string * list Z)) (now : Z) (ip evicted : string) :
  order ≡ₚ map_to_list (requests (run (NewRateLimiterWithMax limit window maxEntries) calls)) →
  (Allow (run (NewRateLimiterWithMax limit window maxEntries) calls) order now ip).2
  = Some evicted →
  requests (run (NewRateLimiterWithMax limit window maxEntries) calls) !! ip = None
  ∧ maxEntries
    <= Z.of_nat (size (requests (run (NewRateLimiterWithMax limit window maxEntries) calls)))
  ∧ (∃ t times,
       requests (run (NewRateLimiterWithMax limit window maxEntries) calls) !! evicted
       = Some (t :: times)
       ∧ ∀ ip' t' times',
           requests (run (NewRateLimiterWithMax limit window maxEntries) calls) !! ip'
           = Some (t' :: times') → t <= t')
  ∧ requests (Allow (run (NewRateLimiterWithMax limit window maxEntries) calls)
                order now ip).1.1
    = <[ip := [now]]>
        (delete evicted
           (requests (run (NewRateLimiterWithMax limit window maxEntries) calls))).
Proof.
  set (rl := run (NewRateLimiterWithMax limit window maxEntries) calls).
  intros Horder Hev.
  assert (Hwf : wellFormed rl).
  { apply run_wellFormed. apply (empty_fits limit window maxEntries). }
  destruct (run_params calls (NewRateLimiterWithMax limit window maxEntries))
    as (_ & _ & Hmax). fold rl in Hmax. cbn in Hmax.
  destruct (Allow_evicted_inv rl order now ip evicted Hev)
    as (Hlimit & Hip & Hfull & Hold & Hne).
  assert (Hstored : requests rl ≠ ∅).
  { intros Hempty. rewrite Hempty, map_to_list_empty in Horder.
    apply Permutation_nil_r in Horder. rewrite Horder in Hold. cbn in Hold. congruence. }
  destruct (oldest_is_stored rl order Hwf Horder Hstored)
    as (e & t & times & Ho & He & Hleast).
  rewrite Ho in Hold. cbn in Hold. subst e.
  rewrite (Allow_evicts rl order now ip _ _ _ Hlimit Hip Hfull Ho).
  destruct (String.eqb_spec evicted EmptyString) as [Heq | _]; [contradiction |].
  rewrite <- Hmax. repeat split; try assumption. exists t, times. split; assumption.
Qed.

Lemma allow_decides_by_history_witness :
  (Allow (run (NewRateLimiterWithMax 2 (60 * Second) 100)
            [Request "10.0.0.1:5000" 0 [];
             Request "10.0.0.1:5000" (30 * Second) [("10.0.0.1:5000", [0])];
             Tick (60 * Second)])
     [("10.0.0.1:5000", [30 * Second])] (61 * Second) "10.0.0.1:5000").1.2
  = bool_decide
      (Z.of_nat (List.length
                   (filter (fun t => Sub (61 * Second) t < 60 * Second)
                      (allowedTimes (NewRateLimiterWithMax 2 (60 * Second) 100)
                         [Request "10.0.0.1:5000" 0 [];
                          Request "10.0.0.1:5000" (30 * Second) [("10.0.0.1:5000", [0])];
                          Tick (60 * Second)]
                         "10.0.0.1:5000")))
       < 2).
Proof.
  apply (allow_decides_by_history 2 (60 * Second) 100).
  - repeat constructor; vm_compute; discriminate.
  - vm_compute. discriminate.
Defined.

Lemma rate_limit_window_witness :
  Z.of_nat (List.length
              (filter (fun t => t <= 45 * Second ∧ Sub (45 * Second) t < 60 * Second)
                 (allowedTimes (NewRateLimiterWithMax 2 (60 * Second) 100)
                    [Request "10.0.0.1:5000" 0 [];
                     Request "10.0.0.1:5000" (30 * Second) [("10.0.0.1:5000", [0])];
                     Request "10.0.0.1:5000" (40 * Second)
                       [("10.0.0.1:5000", [0; 30 * Second])]]
                    "10.0.0.1:5000")))
  <= Z.max 0 2.
Proof.
  apply (rate_limit_window 2 (60 * Second) 100).
  - repeat constructor; vm_compute; discriminate.
  - vm_compute. discriminate.
Defined.

Lemma eviction_takes_oldest_witness :
  requests (run (NewRateLimiterWithMax 2 (60 * Second) 2)
              [Request "10.0.0.1:5000" 1 [];
               Request "10.0.0.2:5000" 2 [("10.0.0.1:5000", [1])]])
    !! "10.0.0.3:5000" = None
  ∧ 2 <= Z.of_nat (size (requests (run (NewRateLimiterWithMax 2 (60 * Second) 2)
                                     [Request "10.0.0.1:5000" 1 [];
                                      Request "10.0.0.2:5000" 2 [("10.0.0.1:5000", [1])]])))
  ∧ (∃ t times,
       requests (run (NewRateLimiterWithMax 2 (60 * Second) 2)
                   [Request "10.0.0.1:5000" 1 [];
                    Request "10.0.0.2:5000" 2 [("10.0.0.1:5000", [1])]])
         !! "10.0.0.1:5000" = Some (t :: times)
       ∧ ∀ ip' t' times',
           requests (run (NewRateLimiterWithMax 2 (60 * Second) 2)
                       [Request "10.0.0.1:5000" 1 [];
                        Request "10.0.0.2:5000" 2 [("10.0.0.1:5000", [1])]])
             !! ip' = Some (t' :: times') → t <= t')
  ∧ requests (Allow (run (NewRateLimiterWithMax 2 (60 * Second) 2)
                       [Request "10.0.0.1:5000" 1 [];
                        Request "10.0.0.2:5000" 2 [("10.0.0.1:5000", [1])]])
                [("10.0.0.2:5000", [2]); ("10.0.0.1:5000", [1])] 3 "10.0.0.3:5000").1.1
    = <[ "10.0.0.3:5000" := [3] ]>
        (delete "10.0.0.1:5000"
           (requests (run (NewRateLimiterWithMax 2 (60 * Second) 2)
                        [Request "10.0.0.1:5000" 1 [];
                         Request "10.0.0.2:5000" 2 [("10.0.0.1:5000", [1])]]))).
Proof.
  apply (eviction_takes_oldest 2 (60 * Second) 2
           [Request "10.0.0.1:5000" 1 [];
            Request "10.0.0.2:5000" 2 [("10.0.0.1:5000", [1])]]
           [("10.0.0.2:5000", [2]); ("10.0.0.1:5000", [1])] 3 "10.0.0.3:5000"
           "10.0.0.1:5000").
  - vm_compute. apply perm_swap.
  - vm_compute. reflexivity.
Defined.

End RateLimit.

(** * The chain of middleware *)

Section Chain.

Import Go middleware.

Lemma rateWrap_cases {A : Type} (rl : RateLimiter) (order : list (string * list Z))
    (now : Z) (next : HTTPRequest → A) (r : HTTPRequest) :
  rateWrap rl order now next r
  = ((Allow rl order now (RemoteAddr r)).1.1,
     if (Allow rl order now (RemoteAddr r)).1.2 then Next (next r)
     else Refused "RATE_LIMIT" "Too many requests" 429).
Proof.
  unfold rateWrap. destruct (Allow rl order now (RemoteAddr r)) as [[rl' allowed] evicted].
  destruct allowed; reflexivity.
Qed.

Lemma Allow_unchanged_or_recorded (rl : RateLimiter) (order : list (string * list Z))
    (now : Z) (ip : string) :
  ((Allow rl order now ip).1.2 = false ∧ (Allow rl order now ip).1.1 = rl)
  ∨ ((Allow rl order now ip).1.2 = true
     ∧ ∃ kept, requests (Allow rl order now ip).1.1 !! ip = Some (kept ++ [now])).
Proof.
  destruct (Allow_shape rl order now ip)
    as [-> | (_ & requests1 & evicted & -> & _)]; [left; split; reflexivity |].
  right. split; [reflexivity |]. eexists. cbn [fst snd requests].
  apply lookup_insert_eq.
Qed.

(** X8. The limiter of the server allows 100 requests per minute and
    address: over a run of requests and cleanup ticks with a clock that
    does not run backwards and at most 10000 distinct addresses, a
    request is handed on exactly when fewer than 100 requests of its
    address were allowed less than a minute before it; otherwise it is
    answered with RATE_LIMIT and status 429, the wrapped handler is not
    called and the limiter stays as it is. *)
Theorem server_rate_limit {A : Type} (calls : list Call) (order : list (string * list Z))
    (now : Z) (next : HTTPRequest → A) (r : HTTPRequest) :
  Sorted Z.le ((callTime <$> calls) ++ [now]) →
  Z.of_nat (size (addresses calls)) <= 10000 →
  rateWrap (run handlerRateLimiter calls) order now next r
  = if bool_decide
         (Z.of_nat (List.length
                      (filter (fun t => Sub now t < 60 * Second)
                         (allowedTimes handlerRateLimiter calls (RemoteAddr r))))
          < 100)
    then ((Allow (run handlerRateLimiter calls) order now (RemoteAddr r)).1.1,
          Next (next r))
    else (run handlerRateLimiter calls,
          Refused "RATE_LIMIT" "Too many requests" StatusTooManyRequests).
Proof.
  intros Hsorted Hsize. rewrite rateWrap_cases.
  pose proof (Allow_by_history 100 Minute 10000 calls (RemoteAddr r) now order
                Hsorted Hsize) as Hd.
  change (NewRateLimiterWithMax 100 Minute 10000) with handlerRateLimiter in Hd.
  change (60 * Second) with Minute. rewrite <- Hd.
  destruct (Allow_unchanged_or_recorded (run handlerRateLimiter calls) order now
              (RemoteAddr r)) as [[-> ->] | [-> _]]; reflexivity.
Qed.

(** X9. In the chain of [RegisterRoutes] the limiter comes first: a
    request it refuses is answered 429 without a CSRF check and leaves
    the limiter unchanged; every other request is recorded, its time
    being the last of its address, before the token is looked at, so a
    request refused with CSRF_ERROR and 403 has used up one of the
    requests its address is allowed.  The routes are reached only with a
    valid token when the method is POST, PUT, DELETE or PATCH. *)
Theorem chain_counts_before_csrf {A : Type} (rl : RateLimiter) (c : CSRFMiddleware)
    (order : list (string * list Z)) (now : Z) (apiMux : HTTPRequest → A)
    (r : HTTPRequest) :
  match (protected rl c order now apiMux r).2 with
  | Refused code _ status =>
    code = "RATE_LIMIT" ∧ status = 429 ∧ (protected rl c order now apiMux r).1 = rl
  | Next served =>
    (∃ kept,
       requests (protected rl c order now apiMux r).1 !! RemoteAddr r
       = Some (kept ++ [now]))
    ∧ match served with
      | Refused code _ status =>
        code = "CSRF_ERROR" ∧ status = 403 ∧ stateChanging r
        ∧ isValidToken c now (X_CSRF_Token r) = false
      | Next a =>
        a = apiMux r
        ∧ (stateChanging r → isValidToken c now (X_CSRF_Token r) = true)
      end
  end.
Proof.
  unfold protected. rewrite rateWrap_cases. cbn [fst snd].
  destruct (Allow_unchanged_or_recorded rl order now (RemoteAddr r))
    as [[-> ->] | [-> Hrec]]; [auto |].
  split; [exact Hrec |]. rewrite csrfWrap_cases.
  destruct (bool_decide_reflect (stateChanging r)) as [Hm | Hm]; cbn [andb].
  - destruct (isValidToken c now (X_CSRF_Token r)); cbn [negb]; auto.
  - split; [reflexivity | contradiction].
Qed.

Lemma server_rate_limit_witness :
  rateWrap
    (run handlerRateLimiter
       [Request "10.0.0.1:5000" 0 []; Tick Minute;
        Request "10.0.0.1:5000" (Minute + 1) []])
    [("10.0.0.1:5000", [Minute + 1])] (Minute + 2) (fun _ => tt)
    (mkHTTPRequest "GET" EmptyString "10.0.0.1:5000")
  = if bool_decide
         (Z.of_nat (List.length
                      (filter (fun t => Sub (Minute + 2) t < 60 * Second)
                         (allowedTimes handlerRateLimiter
                            [Request "10.0.0.1:5000" 0 []; Tick Minute;
                             Request "10.0.0.1:5000" (Minute + 1) []]
                            (RemoteAddr (mkHTTPRequest "GET" EmptyString "10.0.0.1:5000")))))
          < 100)
    then ((Allow (run handlerRateLimiter
                    [Request "10.0.0.1:5000" 0 []; Tick Minute;
                     Request "10.0.0.1:5000" (Minute + 1) []])
             [("10.0.0.1:5000", [Minute + 1])] (Minute + 2)
             (RemoteAddr (mkHTTPRequest "GET" EmptyString "10.0.0.1:5000"))).1.1,
          Next tt)
    else (run handlerRateLimiter
            [Request "10.0.0.1:5000" 0 []; Tick Minute;
             Request "10.0.0.1:5000" (Minute + 1) []],
          Refused "RATE_LIMIT" "Too many requests" StatusTooManyRequests).
Proof.
  apply (server_rate_limit
           [Request "10.0.0.1:5000" 0 []; Tick Minute;
            Request "10.0.0.1:5000" (Minute + 1) []]
           [("10.0.0.1:5000", [Minute + 1])] (Minute + 2) (fun _ => tt)
           (mkHTTPRequest "GET" EmptyString "10.0.0.1:5000")).
  - repeat constructor; vm_compute; discriminate.
  - vm_compute. discriminate.
Defined.

End Chain.

(** * Quoting, the schema and the client *)

Section Quoting.

Import Go schema.

Lemma replaceFrom_quote (c : ascii) (t : string) :
  replaceFrom (String c t) quote quotequote 0
  = if Ascii.eqb c "034" then String "034" (String "034" (replaceFrom t quote quotequote 0))
    else String c (replaceFrom t quote quotequote 0).
Proof.
  cbn [replaceFrom]. unfold quote at 1. cbn [String.prefix].
  destruct (ascii_dec "034" c) as [<- | Hne].
  - replace (String.prefix EmptyString t) with true by (destruct t; reflexivity).
    reflexivity.
  - destruct (Ascii.eqb_spec c "034") as [-> | _]; [contradiction | reflexivity].
Qed.

Lemma readQuotedBody_escaped (name : string) : ∀ rest : string,
  String.prefix quote rest = false →
  Postgres.readQuotedBody (ReplaceAll name quote quotequote +:+ quote +:+ rest)
  = Some (name, rest).
Proof.
  unfold ReplaceAll.
  induction name as [| c t IH]; intros rest Hrest.
  - change (Postgres.readQuotedBody (String "034" rest) = Some (EmptyString, rest)).
    cbn [Postgres.readQuotedBody Ascii.eqb Bool.eqb]. cbn.
    destruct rest as [| c' rest']; [reflexivity |].
    unfold quote in Hrest. cbn [String.prefix] in Hrest.
    destruct (ascii_dec "034" c') as [<- | Hne].
    + destruct rest'; discriminate.
    + destruct (Ascii.eqb_spec c' "034") as [-> | _]; [contradiction | reflexivity].
  - rewrite replaceFrom_quote.
    destruct (Ascii.eqb_spec c "034") as [-> | Hne].
    + change (Postgres.readQuotedBody
                (String "034" (String "034"
                   (replaceFrom t quote quotequote 0 +:+ quote +:+ rest)))
              = Some (String "034" t, rest)).
      cbn [Postgres.readQuotedBody]. change (Ascii.eqb "034" "034") with true. cbn iota.
      rewrite (IH rest Hrest). reflexivity.
    + change (Postgres.readQuotedBody
                (String c (replaceFrom t quote quotequote 0 +:+ quote +:+ rest))
              = Some (String c t, rest)).
      cbn [Postgres.readQuotedBody].
      destruct (Ascii.eqb_spec c "034") as [-> | _]; [contradiction |].
      rewrite (IH rest Hrest). reflexivity.
Qed.

Lemma readQuoted_sanitized (name rest : string) :
  String.prefix quote rest = false →
  Postgres.readQuoted (sanitizeIdentifier name +:+ rest) = Some (name, rest).
Proof.
  intros Hrest. unfold sanitizeIdentifier. cbn zeta.
  rewrite !append_assoc.
  change (Postgres.readQuoted (String "034" ?s)) with (Postgres.readQuotedBody s).
  unfold quote at 1.
  change (Postgres.readQuotedBody
            (ReplaceAll name quote quotequote +:+ quote +:+ rest) = Some (name, rest)).
  apply readQuotedBody_escaped. exact Hrest.
Qed.

(** X10. Whatever the name, the text [sanitizeIdentifier] produces is read
    back by PostgreSQL's rule for quoted identifiers as exactly that
    name, and the reading ends where the produced text ends: what
    follows it in the statement is left untouched, provided it does not
    begin with a double quote.  No name can close the quotes early. *)
Theorem sanitizeIdentifier_read_back (name rest : string) :
  String.prefix quote rest = false →
  Postgres.readQuoted (sanitizeIdentifier name +:+ rest) = Some (name, rest).
Proof. exact (readQuoted_sanitized name rest). Qed.

Lemma sanitizeIdentifier_read_back_witness :
  Postgres.readQuoted
    (sanitizeIdentifier ("users" +:+ quote +:+ "; DROP TABLE users; --")
     +:+ " (id SERIAL PRIMARY KEY)")
  = Some ("users" +:+ quote +:+ "; DROP TABLE users; --", " (id SERIAL PRIMARY KEY)").
Proof.
  apply (sanitizeIdentifier_read_back
           ("users" +:+ quote +:+ "; DROP TABLE users; --") " (id SERIAL PRIMARY KEY)").
  reflexivity.
Defined.

(** X11. [sanitizeIdentifier] never maps two different names to the same
    text: two names are quoted alike exactly when they are equal. *)
Theorem sanitizeIdentifier_injective (a b : string) :
  sanitizeIdentifier a = sanitizeIdentifier b ↔ a = b.
Proof.
  split; [| intros ->; reflexivity]. intros H.
  pose proof (readQuoted_sanitized a EmptyString eq_refl) as Ha.
  pose proof (readQuoted_sanitized b EmptyString eq_refl) as Hb.
  rewrite H, Hb in Ha. congruence.
Qed.

End Quoting.

Section Assembly.

Import Go schema.

Lemma foldl_snoc_map {A B : Type} (f : A → B) (l : list A) : ∀ acc : list B,
  foldl (fun acc x => acc ++ [f x]) acc l = acc ++ (f <$> l).
Proof.
  induction l as [| x l IH]; intros acc; cbn [foldl fmap list_fmap].
  - rewrite app_nil_r. reflexivity.
  - rewrite IH, <- app_assoc. reflexivity.
Qed.

(** The rows of one table, in the order of the query. *)
Lemma groupByTable_lookup {A : Type} (rows : list (string * A)) (tableName : string) :
  default [] (groupByTable rows !! tableName)
  = (snd <$> filter (fun row => row.1 = tableName) rows).
Proof.
  unfold groupByTable.
  induction rows as [| [name v] rows IH] using rev_ind; [reflexivity |].
  rewrite foldl_app, filter_app, fmap_app. cbn [foldl].
  destruct (decide (name = tableName)) as [-> | Hne].
  - rewrite lookup_insert_eq, (filter_cons_True _ (tableName, v)) by reflexivity.
    cbn. rewrite IH. reflexivity.
  - rewrite lookup_insert_ne by exact Hne.
    rewrite (filter_cons_False _ (name, v)) by exact Hne.
    rewrite filter_nil, app_nil_r. exact IH.
Qed.

Lemma getAllTables_Ok (names : list string) cols fks (failure : Failure) :
  getAllTables (mkSchemaRows (Some names) cols fks) failure
  = Ok ((fun name => mkTable name [] []) <$> names).
Proof.
  unfold getAllTables. cbn [rows_tables].
  rewrite (foldl_snoc_map (fun name => mkTable name [] [])). reflexivity.
Qed.

(** X12. [GetSchema] asks for the tables first and stops after that one
    query when it fails or when there are no tables (with the error, or
    with an empty schema); otherwise it asks for all columns and then
    for all foreign keys, and stops at the first query that fails.  When
    the three succeed, the schema has the tables in the order of the
    first query, and each table has the rows of the second and of the
    third query that bear its name, in the order of those queries; rows
    that name no listed table are dropped. *)
Theorem GetSchema_assembles (i : Introspector) (rows : SchemaRows) (failure : Failure) :
  GetSchema i rows failure
  = match rows_tables rows with
    | None =>
      ([QueryTables],
       Err (queryError failure "failed to get tables" "failed to scan table name"))
    | Some [] => ([QueryTables], Ok (mkSchema []))
    | Some names =>
      match rows_columns rows with
      | None =>
        ([QueryTables; QueryColumns],
         Err (queryError failure "failed to get columns" "failed to scan column"))
      | Some columns =>
        match rows_foreignKeys rows with
        | None =>
          ([QueryTables; QueryColumns; QueryForeignKeys],
           Err (queryError failure "failed to get foreign keys"
                  "failed to scan foreign key"))
        | Some foreignKeys =>
          ([QueryTables; QueryColumns; QueryForeignKeys],
           Ok (mkSchema
                 ((fun name =>
                     mkTable name
                       (snd <$> filter (fun row => row.1 = name) columns)
                       (snd <$> filter (fun row => row.1 = name) foreignKeys))
                  <$> names)))
        end
      end
    end.
Proof.
  destruct rows as [[names |] columns foreignKeys]; [| reflexivity].
  unfold GetSchema. rewrite getAllTables_Ok, length_fmap.
  destruct names as [| name names]; [reflexivity |].
  cbn [List.length Nat.eqb getAllColumns getAllForeignKeys rows_tables rows_columns
       rows_foreignKeys].
  destruct columns as [columns |]; [| reflexivity].
  destruct foreignKeys as [foreignKeys |]; [| reflexivity].
  f_equal. f_equal. f_equal. rewrite <- list_fmap_compose.
  apply list_fmap_ext. intros _ t _. cbn [compose table_Name].
  rewrite !groupByTable_lookup. reflexivity.
Qed.

(** X13. The types [handleGetTypes] lists are exactly the types the
    column builder accepts: a type passes [IsValidType] if and only if
    it is the name of a listed type, and then [sanitizeType] returns it
    unchanged. *)
Theorem listed_types_are_accepted (w : api.World) :
  ∃ types,
    api.handleGetTypes w = (w, api.respondJSON (api.typesData types))
    ∧ ∀ t, (IsValidType t = true ↔ ∃ info, In info types ∧ Name info = t)
           ∧ (IsValidType t = true → sanitizeType t = Ok t)
           ∧ (IsValidType t = false →
              sanitizeType t = Err (Errorf_q "unsupported column type" t)).
Proof.
  exists AllowedTypes. split; [reflexivity |]. intros t. split; [| split].
  - rewrite IsValidType_onAllowList. unfold Spec.onAllowList. rewrite in_map_iff.
    split; intros (info & H1 & H2); exists info; auto.
  - apply sanitizeType_valid.
  - apply sanitizeType_invalid.
Qed.

End Assembly.

Section Web.

Import Go schema.

Lemma inClass_head (c : ascii) :
  web.inClass [(byte "a", byte "z"); (byte "_", byte "_")] (byte c) = Spec.headClass c.
Proof.
  unfold web.inClass, Spec.headClass. cbn [existsb].
  destruct (Z.leb_spec (byte "a") (byte c)), (Z.leb_spec (byte c) (byte "z")),
    (Z.leb_spec (byte "_") (byte c)), (Z.leb_spec (byte c) (byte "_")),
    (Z.eqb_spec (byte c) (byte "_")); cbn; try reflexivity; lia.
Qed.

Lemma inClass_tail (c : ascii) :
  web.inClass [(byte "a", byte "z"); (byte "0", byte "9"); (byte "_", byte "_")] (byte c)
  = Spec.tailClass c.
Proof.
  unfold web.inClass, Spec.tailClass. cbn [existsb].
  destruct (Z.leb_spec (byte "a") (byte c)), (Z.leb_spec (byte c) (byte "z")),
    (Z.leb_spec (byte "0") (byte c)), (Z.leb_spec (byte c) (byte "9")),
    (Z.leb_spec (byte "_") (byte c)), (Z.leb_spec (byte c) (byte "_")),
    (Z.eqb_spec (byte c) (byte "_")); cbn; try reflexivity; lia.
Qed.

Lemma codeUnits_length (s : string) : List.length (web.codeUnits s) = String.length s.
Proof.
  unfold web.codeUnits. rewrite length_fmap.
  induction s as [| c t IH]; [reflexivity |]. cbn. rewrite IH. reflexivity.
Qed.

Lemma testIdentifierPattern_matches (s : string) :
  web.testIdentifierPattern (web.codeUnits s) = Spec.matchesPattern s.
Proof.
  destruct s as [| c t]; [reflexivity |].
  unfold web.codeUnits. cbn [list_ascii_of_string fmap list_fmap web.testIdentifierPattern
                             Spec.matchesPattern].
  rewrite inClass_head. f_equal.
  induction (list_ascii_of_string t) as [| x l IH]; [reflexivity |].
  cbn [fmap list_fmap forallb]. rewrite inClass_tail. f_equal. exact IH.
Qed.

(** X14. On a name of ASCII characters, whose UTF-16 code units are its
    bytes, the client's [Utils.isValidIdentifier] gives the answer of
    the server's [ValidIdentifier]: the client refuses no name the
    server accepts and lets through no name the server refuses. *)
Theorem client_validation_agrees (name : string) :
  Forall (fun c => byte c < 128) (list_ascii_of_string name) →
  web.isValidIdentifier (web.codeUnits name) = ValidIdentifier name.
Proof.
  intros _. rewrite ValidIdentifier_spec.
  unfold web.isValidIdentifier, Spec.isValidIdentifier.
  rewrite codeUnits_length, testIdentifierPattern_matches.
  destruct name as [| c t]; [reflexivity |].
  cbn [String.length Nat.eqb orb].
  destruct (Nat.ltb_spec 63 (S (String.length t))) as [Hlong | Hshort].
  - rewrite (proj2 (Nat.leb_gt _ _) Hlong), andb_false_r. reflexivity.
  - rewrite (proj2 (Nat.leb_le _ _)) by lia. rewrite andb_true_r. reflexivity.
Qed.

Lemma client_validation_agrees_witness :
  web.isValidIdentifier (web.codeUnits "order_items2") = ValidIdentifier "order_items2".
Proof.
  apply (client_validation_agrees "order_items2").
  repeat constructor.
Defined.

End Web.

(** * The routes *)

Section Routes.

Import Go schema api.

Lemma BuildCreateTableDDL_cases (tableName : string) :
  BuildCreateTableDDL tableName
  = if ValidIdentifier tableName
    then Ok ("CREATE TABLE " +:+ quote +:+ tableName +:+ quote
             +:+ " (id SERIAL PRIMARY KEY)")
    else Err (Errorf "invalid table name: must be lowercase letters, numbers, underscores, and start with letter or underscore").
Proof.
  unfold BuildCreateTableDDL.
  destruct (ValidIdentifier tableName) eqn:Hv; cbn [negb]; [| reflexivity].
  rewrite (sanitizeIdentifier_valid tableName Hv). unfold Spec.quoted.
  rewrite ?append_assoc. reflexivity.
Qed.

(** X15. A create-table request with a valid name sends one statement
    to the current pool, [CREATE TABLE "<name>" (id SERIAL PRIMARY KEY)],
    and answers with the table's name, or with CREATE_TABLE_ERROR and
    status 500 when the database refuses the statement.  With an empty
    name it answers MISSING_FIELD, with any other invalid name
    INVALID_TABLE_NAME, both with status 400 and without sending
    anything; the handler itself never changes. *)
Theorem handleCreateTable_statement (w : World) (env : Env) (name : string) :
  handleCreateTable w env (Some (mkCreateTableRequest name))
  = if ValidIdentifier name then
      (w, Database (Exec (getPool (introspector (handler w)))
                      ("CREATE TABLE " +:+ quote +:+ name +:+ quote
                       +:+ " (id SERIAL PRIMARY KEY)"))
          :: match env_exec env ("CREATE TABLE " +:+ quote +:+ name +:+ quote
                                 +:+ " (id SERIAL PRIMARY KEY)") with
             | Some e =>
               respondError ErrCreateTable "Failed to create table"
                 StatusInternalServerError (Some e)
             | None => respondJSON (createTableData name)
             end)
    else if String.eqb name EmptyString then
      (w, respondError ErrMissingField "table name is required" StatusBadRequest None)
    else
      (w, respondError ErrInvalidTableName "Invalid table name format" StatusBadRequest
            None).
Proof.
  unfold handleCreateTable, validateIdentifier, CreateTable. cbn [create_Name].
  rewrite BuildCreateTableDDL_cases.
  destruct (String.eqb_spec name EmptyString) as [-> | Hne]; [reflexivity |].
  destruct (ValidIdentifier name); cbn [negb]; [| reflexivity].
  destruct (env_exec env _); reflexivity.
Qed.

Lemma responses_respondError (code message : string) (status : Z)
    (internalErr : option error) :
  Trace.responses (respondError code message status internalErr)
  = [Error code message status].
Proof. destruct internalErr; reflexivity. Qed.

Lemma one_response (w : World) (env : Env) (r : Request) :
  List.length (Trace.responses (serve w env r).2) = 1%nat.
Proof.
  unfold Trace.responses.
  destruct r as [| | | body | body | tableName body]; cbn [serve].
  - unfold handleGetSchema.
    destruct (GetSchema _ _ _) as [queries [s | e]]; cbn [fst snd];
      rewrite !omap_app, !omap_fmap_None by reflexivity; reflexivity.
  - unfold handleListDatabases.
    destruct (ListDatabases _ _ _); reflexivity.
  - reflexivity.
  - unfold handleSwitchDatabase.
    destruct body as [req |]; [| reflexivity].
    destruct (String.eqb (switch_Name req) EmptyString); [reflexivity |].
    destruct (ListDatabases _ _ _) as [databases | e]; [| reflexivity].
    destruct (allowedIn databases (switch_Name req)); cbn [negb]; [| reflexivity].
    destruct (env_connect env); cbn [negb]; [| reflexivity].
    destruct (env_ping env); cbn [negb]; [| reflexivity].
    cbn [SetPool fst snd]. rewrite closeOldPool_events.
    destruct (pool (introspector (handler w))); [| reflexivity].
    destruct (env_closeTakes env) as [d |]; [| reflexivity].
    destruct (d <=? closeTimeout (handler w)); reflexivity.
  - unfold handleCreateTable, validateIdentifier.
    destruct body as [req |]; [| reflexivity].
    destruct (String.eqb (create_Name req) EmptyString); [reflexivity |].
    destruct (ValidIdentifier (create_Name req)); cbn [negb]; [| reflexivity].
    destruct (CreateTable _ _ _) as [calls [e |]]; cbn [fst snd];
      rewrite !omap_app, !omap_fmap_None by reflexivity; reflexivity.
  - unfold handleAddColumn, validateIdentifier.
    destruct (String.eqb tableName EmptyString); [reflexivity |].
    destruct (ValidIdentifier tableName); cbn [negb]; [| reflexivity].
    destruct body as [req |]; [| reflexivity].
    destruct (String.eqb (req_Name req) EmptyString); [reflexivity |].
    destruct (ValidIdentifier (req_Name req)); cbn [negb]; [| reflexivity].
    destruct (String.eqb (req_Type req) EmptyString); [reflexivity |].
    destruct (IsValidType (req_Type req)); cbn [negb]; [| reflexivity].
    destruct (AddColumn _ _ _ _) as [calls [e |]]; cbn [fst snd];
      rewrite !omap_app, !omap_fmap_None by reflexivity; reflexivity.
Qed.

(** X16. Every request to one of the six routes is answered exactly
    once, whatever the outside answers: a run of requests writes as
    many responses as it has requests. *)
Theorem one_response_per_request (w : World) (reqs : list (Env * Request)) :
  List.length (Trace.responses (serveAll w reqs).2) = List.length reqs.
Proof.
  revert w. induction reqs as [| [env r] reqs IH]; intros w; [reflexivity |].
  destruct (serveAll_cons w env r reqs) as [_ ->].
  change (Trace.responses ((serve w env r).2 ++ (serveAll (serve w env r).1 reqs).2))
    with (omap (fun e => match e with Respond r => Some r | _ => None end)
            ((serve w env r).2 ++ (serveAll (serve w env r).1 reqs).2)).
  rewrite omap_app, length_app.
  change (List.length (Trace.responses (serve w env r).2)
          + List.length (Trace.responses (serveAll (serve w env r).1 reqs).2)
          = List.length ((env, r) :: reqs))%nat.
  rewrite IH, (one_response w env r). reflexivity.
Qed.

(** *** The statements sent *)

Lemma serve_statements (w : World) (env : Env) (r : Request) :
  Sent.statements (serve w env r).2
  = match r with
    | CreateTableRequest (Some req) =>
      match BuildCreateTableDDL (create_Name req) with
      | Ok query => [query]
      | Err _ => []
      end
    | AddColumnRequest tableName (Some req) =>
      if ValidIdentifier tableName && ValidIdentifier (req_Name req)
         && IsValidType (req_Type req) then
        match BuildAddColumnDDL tableName (columnDefOf req) with
        | Ok query => [query]
        | Err _ => []
        end
      else []
    | _ => []
    end.
Proof.
  unfold Sent.statements.
  destruct r as [| | | body | body | tableName body]; cbn [serve].
  - unfold handleGetSchema.
    destruct (GetSchema _ _ _) as [queries [s | e]]; cbn [fst snd];
      rewrite !omap_app, !omap_fmap_None by reflexivity; reflexivity.
  - unfold handleListDatabases.
    destruct (ListDatabases _ _ _); reflexivity.
  - reflexivity.
  - unfold handleSwitchDatabase.
    destruct body as [req |]; [| reflexivity].
    destruct (String.eqb (switch_Name req) EmptyString); [reflexivity |].
    destruct (ListDatabases _ _ _) as [databases | e]; [| reflexivity].
    destruct (allowedIn databases (switch_Name req)); cbn [negb]; [| reflexivity].
    destruct (env_connect env); cbn [negb]; [| reflexivity].
    destruct (env_ping env); cbn [negb]; [| reflexivity].
    cbn [SetPool fst snd]. rewrite closeOldPool_events.
    destruct (pool (introspector (handler w))); [| reflexivity].
    destruct (env_closeTakes env) as [d |]; [| reflexivity].
    destruct (d <=? closeTimeout (handler w)); reflexivity.
  - unfold handleCreateTable, validateIdentifier, CreateTable.
    destruct body as [req |]; [| reflexivity].
    rewrite BuildCreateTableDDL_cases.
    destruct (String.eqb_spec (create_Name req) EmptyString) as [-> | Hne];
      [reflexivity |].
    destruct (ValidIdentifier (create_Name req)); cbn [negb]; [| reflexivity].
    destruct (env_exec env _); reflexivity.
  - unfold handleAddColumn, validateIdentifier, AddColumn.
    destruct body as [req |].
    2:{ destruct (String.eqb tableName EmptyString); [reflexivity |].
        destruct (ValidIdentifier tableName); reflexivity. }
    destruct (String.eqb_spec tableName EmptyString) as [-> | Hne]; [reflexivity |].
    destruct (ValidIdentifier tableName); cbn [negb andb]; [| reflexivity].
    destruct (String.eqb_spec (req_Name req) EmptyString) as [-> | Hn]; [reflexivity |].
    destruct (ValidIdentifier (req_Name req)); cbn [negb andb]; [| reflexivity].
    destruct (String.eqb_spec (req_Type req) EmptyString) as [Ht | Ht].
    { rewrite Ht. reflexivity. }
    destruct (IsValidType (req_Type req)); cbn [negb]; [| reflexivity].
    destruct (BuildAddColumnDDL tableName (columnDefOf req)) as [query | e];
      [| reflexivity].
    destruct (env_exec env query); reflexivity.
Qed.

Let plain (s : string) : Prop :=
  forallb Sent.plainChar (list_ascii_of_string s) = true.

Lemma plain_app (a b : string) : plain a → plain b → plain (a +:+ b).
Proof.
  unfold plain. intros Ha Hb. induction a as [| c a IH]; [exact Hb |].
  change (forallb Sent.plainChar (c :: list_ascii_of_string (a +:+ b)) = true).
  cbn [list_ascii_of_string forallb] in Ha |- *.
  apply andb_true_iff in Ha as [Hc Ha]. rewrite Hc. exact (IH Ha).
Qed.

Lemma tailClass_plain (c : ascii) : Spec.tailClass c = true → Sent.plainChar c = true.
Proof.
  unfold Spec.tailClass, Sent.plainChar.
  destruct (byte "a" <=? byte c), (byte c <=? byte "z"), (byte "0" <=? byte c),
    (byte c <=? byte "9"), (byte c =? byte "_"); cbn; intros H;
    rewrite ?orb_true_r; try reflexivity; discriminate.
Qed.

Lemma valid_plain (name : string) : ValidIdentifier name = true → plain name.
Proof.
  intros H. apply valid_tailClass in H. unfold plain.
  induction (list_ascii_of_string name) as [| c l IH]; [reflexivity |].
  cbn [forallb] in H |- *. apply andb_true_iff in H as [Hc Hl].
  rewrite (tailClass_plain c Hc). exact (IH Hl).
Qed.

Lemma type_plain (t : string) : IsValidType t = true → plain t.
Proof.
  intros H. apply IsValidType_onAllowList in H. unfold Spec.onAllowList in H.
  cbn [map AllowedTypes Name In] in H.
  repeat (destruct H as [<- | H]; [reflexivity |]). contradiction.
Qed.

Lemma quoted_plain (name : string) : ValidIdentifier name = true → plain (Spec.quoted name).
Proof.
  intros H. unfold Spec.quoted.
  apply plain_app; [reflexivity |]. apply plain_app; [apply valid_plain; exact H | reflexivity].
Qed.

Lemma BuildCreateTableDDL_plain (tableName query : string) :
  BuildCreateTableDDL tableName = Ok query → plain query.
Proof.
  rewrite BuildCreateTableDDL_cases.
  destruct (ValidIdentifier tableName) eqn:Hv; [| discriminate]. intros [= <-].
  apply plain_app; [reflexivity |]. apply plain_app; [reflexivity |].
  apply plain_app; [apply valid_plain; exact Hv |]. apply plain_app; reflexivity.
Qed.

Lemma BuildAddColumnDDL_plain (tableName : string) (col : ColumnDef) (query : string) :
  BuildAddColumnDDL tableName col = Ok query → plain query.
Proof.
  intros H. apply BuildAddColumnDDL_Ok_inv in H as (-> & Ht & Hn & Hty & Hfk).
  unfold Spec.addColumnStatement.
  repeat (apply plain_app);
    try reflexivity;
    try (apply quoted_plain; assumption);
    try (apply valid_plain; assumption);
    try (apply type_plain; assumption).
  - destruct (col_NotNull col); reflexivity.
  - destruct (col_PrimaryKey col); reflexivity.
  - destruct (col_Unique col && negb (col_PrimaryKey col)); reflexivity.
  - destruct (Spec.hasReference col); [| reflexivity].
    destruct (Hfk eq_refl) as [Hrt Hrc].
    repeat (apply plain_app); try reflexivity;
      try (apply quoted_plain; assumption); apply valid_plain; assumption.
Qed.

(** X17. Of the statements executed with [pool.Exec], the data
    definition statements of the two mutations, a request sends at most
    one, and only a create-table or an add-column request sends one: it
    is the text its builder returned for the request, and it consists of
    letters, digits, underscores, spaces, parentheses and double quotes
    only.  The queries of [GetSchema] and [ListDatabases], sent with
    [pool.Query], are not statements in this sense. *)
Theorem statements_are_plain (w : World) (env : Env) (r : Request) :
  (List.length (Sent.statements (serve w env r).2) <= 1)%nat
  ∧ ∀ query, query ∈ Sent.statements (serve w env r).2 →
      forallb Sent.plainChar (list_ascii_of_string query) = true
      ∧ ((∃ req, r = CreateTableRequest (Some req)
                 ∧ BuildCreateTableDDL (create_Name req) = Ok query)
         ∨ (∃ tableName req, r = AddColumnRequest tableName (Some req)
                             ∧ BuildAddColumnDDL tableName (columnDefOf req) = Ok query)).
Proof.
  rewrite serve_statements.
  destruct r as [| | | body | [req |] | tableName [req |]];
    try (split; [cbn; lia | intros query Hq; inversion Hq]).
  - destruct (BuildCreateTableDDL (create_Name req)) as [q | e] eqn:Hb;
      [| split; [cbn; lia | intros query Hq; inversion Hq]].
    split; [cbn; lia |]. intros query Hq. apply list_elem_of_singleton in Hq as ->.
    split; [exact (BuildCreateTableDDL_plain _ _ Hb) | left; eauto].
  - destruct (ValidIdentifier tableName && ValidIdentifier (req_Name req)
              && IsValidType (req_Type req));
      [| split; [cbn; lia | intros query Hq; inversion Hq]].
    destruct (BuildAddColumnDDL tableName (columnDefOf req)) as [q | e] eqn:Hb;
      [| split; [cbn; lia | intros query Hq; inversion Hq]].
    split; [cbn; lia |]. intros query Hq. apply list_elem_of_singleton in Hq as ->.
    split; [exact (BuildAddColumnDDL_plain _ _ _ Hb) | right; eauto].
Qed.

(** *** The pools of a switch *)

Ltac no_pools :=
  cbn; split; [reflexivity | split; [lia | intros H; exfalso; apply H; reflexivity]].

(** X18. No pool is lost: a request creates at most one pool, and the
    pool it creates is either installed with [SetPool] or closed by the
    handler before it answers; a pool is installed only by a switch
    request that names a listed database, connects and is answered by
    the ping. *)
Theorem created_pool_installed_or_closed (w : World) (env : Env) (r : Request) :
  Sent.created (serve w env r).2
  = Sent.installed (serve w env r).2 ++ Sent.closed (serve w env r).2
  ∧ (List.length (Sent.created (serve w env r).2) <= 1)%nat
  ∧ (Sent.installed (serve w env r).2 ≠ [] →
     ∃ body, r = SwitchDatabaseRequest body ∧ Trace.switchCommits env body = true).
Proof.
  unfold Sent.created, Sent.installed, Sent.closed.
  destruct r as [| | | body | body | tableName body]; cbn [serve].
  - unfold handleGetSchema.
    destruct (GetSchema _ _ _) as [queries [s | e]]; cbn [fst snd];
      rewrite !omap_app, !omap_fmap_None by reflexivity; no_pools.
  - unfold handleListDatabases.
    destruct (ListDatabases _ _ _); no_pools.
  - no_pools.
  - unfold handleSwitchDatabase, Trace.switchCommits.
    destruct body as [req |]; [| no_pools].
    destruct (String.eqb (switch_Name req) EmptyString) eqn:Hname; [no_pools |].
    unfold ListDatabases.
    destruct (env_catalog env) as [catalog |]; [| no_pools].
    rewrite foldl_snoc. cbn [app].
    destruct (allowedIn (listDatabasesQuery catalog) (switch_Name req)) eqn:Hallowed;
      cbn [negb];
      [| no_pools].
    destruct (env_connect env); cbn [negb]; [| no_pools].
    destruct (env_ping env); cbn [negb]; [| no_pools].
    cbn [SetPool fst snd]. rewrite closeOldPool_events.
    destruct (pool (introspector (handler w))).
    + destruct (env_closeTakes env) as [d |];
        [destruct (d <=? closeTimeout (handler w)) |];
        (cbn; split; [reflexivity | split; [lia | intros _; eexists; split;
           [reflexivity | cbn; rewrite Hname, Hallowed; reflexivity]]]).
    + cbn. split; [reflexivity | split; [lia | intros _; eexists; split;
           [reflexivity | cbn; rewrite Hname, Hallowed; reflexivity]]].
  - unfold handleCreateTable, validateIdentifier.
    destruct body as [req |]; [| no_pools].
    destruct (String.eqb (create_Name req) EmptyString); [no_pools |].
    destruct (ValidIdentifier (create_Name req)); cbn [negb];
      [| no_pools].
    destruct (CreateTable _ _ _) as [calls [e |]]; cbn [fst snd];
      rewrite !omap_app, !omap_fmap_None by reflexivity; no_pools.
  - unfold handleAddColumn, validateIdentifier.
    destruct (String.eqb tableName EmptyString); [no_pools |].
    destruct (ValidIdentifier tableName); cbn [negb]; [| no_pools].
    destruct body as [req |]; [| no_pools].
    destruct (String.eqb (req_Name req) EmptyString); [no_pools |].
    destruct (ValidIdentifier (req_Name req)); cbn [negb];
      [| no_pools].
    destruct (String.eqb (req_Type req) EmptyString); [no_pools |].
    destruct (IsValidType (req_Type req)); cbn [negb]; [| no_pools].
    destruct (AddColumn _ _ _ _) as [calls [e |]]; cbn [fst snd];
      rewrite !omap_app, !omap_fmap_None by reflexivity; no_pools.
Qed.

(** X19. After a switch request that commits, the database list names
    the new database as the current one, and, the catalog being the
    same, lists it. *)
Theorem switched_database_is_current (w : World) (env env' : Env)
    (body : option switchDatabaseRequest) :
  Trace.switchCommits env body = true →
  env_catalog env' = env_catalog env →
  ∃ req databases,
    body = Some req
    ∧ Trace.responses (handleListDatabases (handleSwitchDatabase w env body).1 env').2
      = [JSON (databasesData databases (switch_Name req))]
    ∧ In (switch_Name req) databases.
Proof.
  intros Hcommit Hcat.
  destruct (handleSwitchDatabase_commits w env body Hcommit)
    as (req & catalog & -> & Hc & _ & Hin & ->).
  exists req, (listDatabasesQuery catalog). split; [reflexivity |].
  split; [| exact Hin].
  unfold handleListDatabases. cbn [fst handler introspector].
  rewrite Hcat, Hc, ListDatabases_Ok. reflexivity.
Qed.

Lemma switched_database_is_current_witness :
  ∃ req databases,
    Examples.switchTo "shop" = Some req
    ∧ Trace.responses
        (handleListDatabases
           (handleSwitchDatabase Examples.world (Examples.env true true (Some Second))
              (Examples.switchTo "shop")).1
           (Examples.env true true None)).2
      = [JSON (databasesData databases (switch_Name req))]
    ∧ In (switch_Name req) databases.
Proof.
  apply (switched_database_is_current Examples.world
           (Examples.env true true (Some Second)) (Examples.env true true None)
           (Examples.switchTo "shop")); reflexivity.
Defined.

End Routes.

(** * The earlier AddColumn *)

Lemma Legacy_AddColumn_statement_witness :
  Legacy.AddColumn (schema.NewIntrospector (Some 0%nat) "app" 30000000000)
    (fun _ => None) "users"
    (schema.mkAddColumnRequest "org_id" "numeric" false false true
       (Some (schema.mkForeignKey "org_id" "orgs" "id")))
  = ([schema.Exec (Some 0%nat)
        (Spec.addColumnStatement "users"
           (schema.columnDefOf
              (schema.mkAddColumnRequest "org_id" "numeric" false false true
                 (Some (schema.mkForeignKey "org_id" "orgs" "id")))))],
     None).
Proof.
  apply (Legacy_AddColumn_statement
           (schema.NewIntrospector (Some 0%nat) "app" 30000000000) (fun _ => None)
           "users"
           (schema.mkAddColumnRequest "org_id" "numeric" false false true
              (Some (schema.mkForeignKey "org_id" "orgs" "id")))).
  - reflexivity.
  - reflexivity.
  - right. right. left. reflexivity.
  - intros _. split; reflexivity.
Defined.

(** * Where server errors come from *)

Section Health.

Import Go schema api.

Ltac client_error := cbn; repeat constructor.

(** X20. A server error comes from the outside only: when the queries
    return rows, the connection is made, the ping is answered and the
    database accepts the statement, every response is a success or a
    client error with status 400, provided the reference of an
    add-column request, when it has both parts, is made of valid
    identifiers (the handler does not check them, and the builder's
    refusal is answered with status 500). *)
Theorem server_errors_come_from_outside (w : World) (env : Env) (r : Request) :
  Sent.healthy env → Sent.wellReferenced r →
  Forall Sent.notServerError (Trace.responses (serve w env r).2).
Proof.
  intros (Hcat & Hconnect & Hping & Hexec & Htables & Hcolumns & Hfks) Href.
  unfold Trace.responses.
  destruct r as [| | | body | body | tableName body]; cbn [serve].
  - unfold handleGetSchema, GetSchema.
    destruct (env_rows env) as [names columns fks]. cbn [rows_tables rows_columns
      rows_foreignKeys] in *.
    destruct Htables as [names' ->], Hcolumns as [columns' ->], Hfks as [fks' ->].
    rewrite getAllTables_Ok, length_fmap.
    destruct names'; client_error.
  - unfold handleListDatabases. destruct Hcat as [catalog ->].
    rewrite ListDatabases_Ok. client_error.
  - client_error.
  - unfold handleSwitchDatabase.
    destruct body as [req |]; [| client_error].
    destruct (String.eqb (switch_Name req) EmptyString); [client_error |].
    destruct Hcat as [catalog ->]. rewrite ListDatabases_Ok.
    destruct (allowedIn (listDatabasesQuery catalog) (switch_Name req)); cbn [negb];
      [| client_error].
    rewrite Hconnect, Hping. cbn [negb SetPool fst snd]. rewrite closeOldPool_events.
    destruct (pool (introspector (handler w))); [| client_error].
    destruct (env_closeTakes env) as [d |]; [| client_error].
    destruct (d <=? closeTimeout (handler w)); client_error.
  - unfold handleCreateTable, validateIdentifier, CreateTable.
    destruct body as [req |]; [| client_error].
    rewrite BuildCreateTableDDL_cases.
    destruct (String.eqb (create_Name req) EmptyString); [client_error |].
    destruct (ValidIdentifier (create_Name req)); cbn [negb]; [| client_error].
    rewrite Hexec. client_error.
  - unfold handleAddColumn, validateIdentifier.
    destruct (String.eqb tableName EmptyString); [client_error |].
    destruct (ValidIdentifier tableName) eqn:Ht; cbn [negb]; [| client_error].
    destruct body as [req |]; [| client_error].
    destruct (String.eqb (req_Name req) EmptyString); [client_error |].
    destruct (ValidIdentifier (req_Name req)) eqn:Hn; cbn [negb]; [| client_error].
    destruct (String.eqb (req_Type req) EmptyString); [client_error |].
    destruct (IsValidType (req_Type req)) eqn:Hty; cbn [negb]; [| client_error].
    unfold AddColumn.
    destruct (columnDefOf_fields req) as (Hcn & Hct & _).
    rewrite (BuildAddColumnDDL_ok tableName (columnDefOf req));
      [| exact Ht | rewrite Hcn; exact Hn | rewrite Hct; exact Hty | exact Href].
    rewrite Hexec. client_error.
Qed.

Lemma server_errors_come_from_outside_witness :
  Forall Sent.notServerError
    (Trace.responses
       (serve Examples.world (Examples.env true true None)
          (CreateTableRequest (Some (mkCreateTableRequest "Users")))).2).
Proof.
  apply (server_errors_come_from_outside Examples.world (Examples.env true true None)
           (CreateTableRequest (Some (mkCreateTableRequest "Users")))).
  - repeat split; eauto.
  - exact I.
Defined.

End Health.

(** * The server *)

Section Server.

Import Go schema middleware api server.

Lemma serve_reads (w : World) (env : Env) (target : Request) :
  routeMethod target = "GET" →
  (serve w env target).1 = w ∧ Sent.statements (serve w env target).2 = [].
Proof.
  intros Hm. split.
  - apply serve_other. intros body ->. discriminate.
  - rewrite serve_statements. destruct target; try reflexivity; discriminate.
Qed.

(** X21. Nothing is changed without a valid token: when a request
    through the chain of [RegisterRoutes] reaches a handler that
    changes the handler's state or sends a statement to the database,
    its method is POST, its [X-CSRF-Token] header is valid at that
    moment and the limiter has allowed it.  A request that is refused by
    the limiter or by the CSRF check, or whose method does not fit the
    route, runs no handler. *)
Theorem mutations_need_valid_token (rl : RateLimiter) (c : CSRFMiddleware) (w : World)
    (order : list (string * list Z)) (now : Z) (env : Env) (target : Request)
    (r : HTTPRequest) (w' : World) (trace : list Event) :
  (handle rl c w order now env target r).2 = Next (Next (Handled (w', trace))) →
  w' ≠ w ∨ Sent.statements trace ≠ [] →
  Method r = "POST"
  ∧ isValidToken c now (X_CSRF_Token r) = true
  ∧ (Allow rl order now (RemoteAddr r)).1.2 = true.
Proof.
  unfold handle, protected. rewrite rateWrap_cases. cbn [fst snd].
  destruct (Allow rl order now (RemoteAddr r)).1.2; [| discriminate].
  rewrite csrfWrap_cases. unfold apiMux.
  destruct (String.eqb_spec (Method r) (routeMethod target)) as [Hm | Hm]; cbn [orb].
  - destruct (String.eqb_spec (routeMethod target) "GET") as [Hget | Hpost].
    + intros Hout Hchange. exfalso.
      destruct (serve_reads w env target Hget) as [Hw Hs].
      destruct (bool_decide (stateChanging r) && negb _); [discriminate |].
      injection Hout as Hout. rewrite Hout in Hw, Hs. cbn [fst snd] in Hw, Hs.
      destruct Hchange as [Hc | Hc]; contradiction.
    + assert (Hp : Method r = "POST").
      { rewrite Hm. destruct target; try reflexivity; contradiction. }
      rewrite (bool_decide_eq_true_2 (stateChanging r)) by (left; exact Hp).
      cbn [andb]. destruct (isValidToken c now (X_CSRF_Token r)); cbn [negb];
        [auto | discriminate].
  - destruct (String.eqb_spec (routeMethod target) "GET") as [Hget | Hpost];
      cbn [andb].
    + destruct (String.eqb (Method r) "HEAD");
        [| destruct (bool_decide (stateChanging r) && negb _); discriminate].
      intros Hout Hchange. exfalso.
      destruct (serve_reads w env target Hget) as [Hw Hs].
      destruct (bool_decide (stateChanging r) && negb _); [discriminate |].
      injection Hout as Hout. rewrite Hout in Hw, Hs. cbn [fst snd] in Hw, Hs.
      destruct Hchange as [Hc | Hc]; contradiction.
    + destruct (bool_decide (stateChanging r) && negb _); discriminate.
Qed.

Lemma mutations_need_valid_token_witness :
  Method (mkHTTPRequest "POST" (EncodeToString "0123456789abcdef0123456789abcdef")
            "127.0.0.1:4000") = "POST"
  ∧ isValidToken
      (mkCSRFMiddleware (EncodeToString "0123456789abcdef0123456789abcdef")
         EmptyString Hour Minute 0)
      Second
      (X_CSRF_Token
         (mkHTTPRequest "POST" (EncodeToString "0123456789abcdef0123456789abcdef")
            "127.0.0.1:4000")) = true
  ∧ (Allow handlerRateLimiter [] Second
       (RemoteAddr
          (mkHTTPRequest "POST" (EncodeToString "0123456789abcdef0123456789abcdef")
             "127.0.0.1:4000"))).1.2 = true.
Proof.
  eapply (mutations_need_valid_token handlerRateLimiter
            (mkCSRFMiddleware (EncodeToString "0123456789abcdef0123456789abcdef")
               EmptyString Hour Minute 0)
            Examples.world [] Second (Examples.env true true None)
            (CreateTableRequest (Some (mkCreateTableRequest "users")))).
  - vm_compute. reflexivity.
  - right. vm_compute. discriminate.
Defined.

End Server.

(** * The foreign keys of the list view *)

Section FkLookup.

Import schema web.

Lemma fkKey_inj (t1 c1 t2 c2 : string) :
  dotFree t1 = true → dotFree t2 = true →
  fkKey t1 c1 = fkKey t2 c2 → t1 = t2 ∧ c1 = c2.
Proof.
  unfold fkKey, dotFree. revert t2.
  induction t1 as [| a t1 IH]; intros t2 H1 H2 Heq.
  - destruct t2 as [| b t2].
    + change (String "." c1 = String "." c2) in Heq. injection Heq as ->. auto.
    + change (String "." c1 = String b (t2 +:+ "." +:+ c2)) in Heq.
      injection Heq as <- _. cbn in H2. discriminate.
  - destruct t2 as [| b t2].
    + change (String a (t1 +:+ "." +:+ c1) = String "." c2) in Heq.
      injection Heq as -> _. cbn in H1. discriminate.
    + change (String a (t1 +:+ "." +:+ c1) = String b (t2 +:+ "." +:+ c2)) in Heq.
      injection Heq as -> Heq.
      cbn [list_ascii_of_string forallb] in H1, H2.
      apply andb_true_iff in H1 as [_ H1]. apply andb_true_iff in H2 as [_ H2].
      destruct (IH t2 H1 H2 Heq) as [-> ->]. auto.
Qed.

(** The entries [buildFkLookup] writes, in order. *)
Let entries (tables : list Table) : list (string * ForeignKey) :=
  tables ≫= fun table =>
    (fun fk => (fkKey (table_Name table) (fk_ColumnName fk), fk))
    <$> table_ForeignKeys table.

Lemma foldl_insert_lookup (pairs : list (string * ForeignKey)) :
  ∀ (m : gmap string ForeignKey) (key : string),
  foldl (fun lookup '(k, fk) => <[k := fk]> lookup) m pairs !! key
  = match last (filter (fun p => p.1 = key) pairs) with
    | Some p => Some p.2
    | None => m !! key
    end.
Proof.
  induction pairs as [| [k fk] pairs IH] using rev_ind; intros m key; [reflexivity |].
  rewrite foldl_app, filter_app. cbn [foldl].
  destruct (decide (k = key)) as [-> | Hne].
  - rewrite lookup_insert_eq, (filter_cons_True _ (key, fk)) by reflexivity.
    rewrite filter_nil, last_snoc. reflexivity.
  - rewrite lookup_insert_ne by exact Hne.
    rewrite (filter_cons_False _ (k, fk)) by exact Hne.
    rewrite filter_nil, app_nil_r. apply IH.
Qed.

Lemma buildFkLookup_entries (tables : list Table) :
  buildFkLookup tables = foldl (fun lookup '(k, fk) => <[k := fk]> lookup) ∅ (entries tables).
Proof.
  unfold buildFkLookup, entries. generalize (∅ : gmap string ForeignKey).
  induction tables as [| table tables IH]; intros m; [reflexivity |].
  cbn [foldl mbind list_bind]. rewrite foldl_app, IH. f_equal.
  generalize (table_ForeignKeys table). clear. intros fks. revert m.
  induction fks as [| fk fks IH]; intros m; [reflexivity |].
  cbn [foldl fmap list_fmap]. apply IH.
Qed.

Lemma entries_of_key (tables : list Table) (tableName columnName : string) :
  dotFree tableName = true →
  Forall (fun table => dotFree (table_Name table) = true) tables →
  filter (fun p => p.1 = fkKey tableName columnName) (entries tables)
  = (fun fk => (fkKey tableName columnName, fk))
    <$> filter (fun fk => fk_ColumnName fk = columnName)
          (filter (fun table => table_Name table = tableName) tables
           ≫= table_ForeignKeys).
Proof.
  intros Hname Htables. unfold entries.
  induction tables as [| table tables IH]; [reflexivity |].
  apply Forall_cons in Htables as [Htable Htables].
  cbn [mbind list_bind]. rewrite filter_app, (IH Htables). clear IH.
  assert (Hfks : ∀ fks,
    filter (fun p => p.1 = fkKey tableName columnName)
      ((fun fk => (fkKey (table_Name table) (fk_ColumnName fk), fk)) <$> fks)
    = if decide (table_Name table = tableName)
      then (fun fk => (fkKey tableName columnName, fk))
           <$> filter (fun fk => fk_ColumnName fk = columnName) fks
      else []).
  { induction fks as [| fk fks IHf]; [destruct (decide _); reflexivity |].
    cbn [fmap list_fmap]. rewrite !filter_cons, IHf. cbn [fst].
    destruct (decide (table_Name table = tableName)) as [Ht | Ht].
    - destruct (decide (fk_ColumnName fk = columnName)) as [Hc | Hc].
      + rewrite decide_True by (rewrite Ht, Hc; reflexivity).
        cbn [fmap list_fmap]. rewrite Ht, Hc. reflexivity.
      + rewrite decide_False; [reflexivity |].
        intros Heq. apply fkKey_inj in Heq as [_ Heq]; [contradiction | | ]; assumption.
    - rewrite decide_False; [reflexivity |].
      intros Heq. apply fkKey_inj in Heq as [Heq _]; [contradiction | | ]; assumption. }
  rewrite Hfks, filter_cons.
  destruct (decide (table_Name table = tableName)) as [Ht | Ht].
  - cbn [mbind list_bind]. rewrite filter_app, fmap_app. reflexivity.
  - reflexivity.
Qed.

(** X22. When no table name holds a dot, the foreign key the list view
    finds for a column of a table is the last foreign key on that
    column among the tables of that name, and none when there is no
    such key: a column is never shown with the foreign key of another
    table or of another column. *)
Theorem fk_lookup_own_table (tables : list Table) (tableName columnName : string) :
  dotFree tableName = true →
  Forall (fun table => dotFree (table_Name table) = true) tables →
  buildFkLookup tables !! fkKey tableName columnName
  = last (filter (fun fk => fk_ColumnName fk = columnName)
            (filter (fun table => table_Name table = tableName) tables
             ≫= table_ForeignKeys)).
Proof.
  intros Hname Htables.
  rewrite buildFkLookup_entries, foldl_insert_lookup, lookup_empty.
  rewrite (entries_of_key tables tableName columnName Hname Htables), fmap_last.
  destruct (last _); reflexivity.
Qed.

Lemma fk_lookup_own_table_witness :
  buildFkLookup
    [mkTable "orders" [] [mkForeignKey "user_id" "users" "id"];
     mkTable "users" [] []]
    !! fkKey "users" "user_id"
  = last (filter (fun fk => fk_ColumnName fk = "user_id")
            (filter (fun table => table_Name table = "users")
               [mkTable "orders" [] [mkForeignKey "user_id" "users" "id"];
                mkTable "users" [] []]
             ≫= table_ForeignKeys)).
Proof.
  apply (fk_lookup_own_table
           [mkTable "orders" [] [mkForeignKey "user_id" "users" "id"];
            mkTable "users" [] []] "users" "user_id").
  - reflexivity.
  - repeat constructor.
Defined.

(** With a dot in a table name the keys of two tables can meet: the
    column [b.c] of table [a] is shown with the foreign key of column
    [c] of table [a.b]. *)
Example fk_lookup_dotted_names :
  buildFkLookup
    [mkTable "a.b" [] [mkForeignKey "c" "users" "id"]; mkTable "a" [] []]
    !! fkKey "a" "b.c"
  = Some (mkForeignKey "c" "users" "id").
Proof. vm_compute. reflexivity. Qed.

End FkLookup.


(** * Edge cases of the limiter *)

(** Eviction forgets: with room for one address, a request of another
    address in between lets the first address through a second time
    within its window. *)
Example eviction_forgets_history :
  middleware.allowedTimes (middleware.NewRateLimiterWithMax 1 (60 * Go.Second) 1)
    [middleware.Request "10.0.0.1:5000" 1 [];
     middleware.Request "10.0.0.2:5000" 2 [("10.0.0.1:5000", [1])];
     middleware.Request "10.0.0.1:5000" 3 [("10.0.0.2:5000", [2])]]
    "10.0.0.1:5000"
  = [1; 3].
Proof. vm_compute. reflexivity. Qed.

(** An entry under the empty address is never evicted: while it is the
    oldest, the map grows past [maxEntries]. *)
Example empty_address_is_not_evicted :
  size (middleware.requests
          (middleware.run (middleware.NewRateLimiterWithMax 5 (60 * Go.Second) 1)
             [middleware.Request EmptyString 1 [];
              middleware.Request "10.0.0.2:5000" 2 [(EmptyString, [1])];
              middleware.Request "10.0.0.3:5000" 3
                [(EmptyString, [1]); ("10.0.0.2:5000", [2])]]))
  = 3%nat.
Proof. vm_compute. reflexivity. Qed.
